(** * ubs2ynab: bank exports and e-mail notifications to YNAB transactions

    A shallow embedding of [ubs2ynab.py].  Python objects that the program
    mutates in place (the [NewTransaction] items of one list) are modelled
    by a list of records that is passed along and updated by index; raised
    exceptions are the left summand of a sum type; the calls made to the
    YNAB API are collected in a list.

    The embedding covers [_populateImportIds], [_createYnabTransactions],
    the three CSV importers, [importUbsFromEmail] from the fetched
    messages on, and the reading of the account map of the command line,
    with the parts of the Python library they call ([float], [int],
    [re.search] with the four patterns, [str.strip], [str.split],
    [datetime]) and the bounds that the client library puts on the length
    of [payee_name] and [import_id].  Opening the files and the mailbox
    and the parsing of the command line are left out. *)

From Stdlib Require Import ZArith List Bool Lia Ascii String.
From Stdlib Require Import Floats.SpecFloat.
From stdpp Require Import base option list strings gmap pretty.

Local Open Scope string_scope.
Local Open Scope list_scope.
Local Open Scope Z_scope.

(** ** Data model *)

(** The parts of Python's [datetime] module the program uses.  Datetimes
    are naive (no time zone), as the ones the tests build. *)
Module datetime.

(** [datetime.date]: proleptic Gregorian year, month and day. *)
Record date := Date { year : Z; month : Z; day : Z }.

(** [datetime.datetime]; [date_part] is what the method [.date()] returns. *)
Record datetime := Datetime {
  date_part : date;
  hour : Z; minute : Z; second : Z; microsecond : Z
}.

(** [datetime.timedelta], as its total number of microseconds. *)
Definition timedelta := Z.

Definition minutes (n : Z) : timedelta := n * 60 * 1000000.
Definition seconds (n : Z) : timedelta := n * 1000000.

Definition _is_leap (y : Z) : bool :=
  (y mod 4 =? 0) && (negb (y mod 100 =? 0) || (y mod 400 =? 0)).

Definition _days_before_year (y : Z) : Z :=
  let y := y - 1 in y * 365 + y / 4 - y / 100 + y / 400.

Definition _days_in_month (y m : Z) : Z :=
  if (m =? 2) && _is_leap y then 29
  else nth (Z.to_nat m) [0; 31; 28; 31; 30; 31; 30; 31; 31; 30; 31; 30; 31] 0.

Definition _days_before_month (y m : Z) : Z :=
  nth (Z.to_nat m) [0; 0; 31; 59; 90; 120; 151; 181; 212; 243; 273; 304; 334] 0
  + (if (2 <? m) && _is_leap y then 1 else 0).

(** [date.toordinal()] *)
Definition toordinal (d : date) : Z :=
  _days_before_year (year d) + _days_before_month (year d) (month d) + day d.

(** The constructor's range check ([ValueError] outside it). *)
Definition valid_date (d : date) : bool :=
  (1 <=? year d) && (year d <=? 9999) && (1 <=? month d) && (month d <=? 12)
  && (1 <=? day d) && (day d <=? _days_in_month (year d) (month d)).

Definition valid_time (h m s : Z) : bool :=
  (0 <=? h) && (h <? 24) && (0 <=? m) && (m <? 60) && (0 <=? s) && (s <? 60).

Definition to_microseconds (t : datetime) : Z :=
  (((toordinal (date_part t) * 24 + hour t) * 60 + minute t) * 60 + second t)
  * 1000000 + microsecond t.

(** [a - b] on two datetimes *)
Definition sub (a b : datetime) : timedelta :=
  to_microseconds a - to_microseconds b.

End datetime.

#[global] Instance date_eq_dec : EqDecision datetime.date.
Proof. solve_decision. Defined.

#[global] Instance datetime_eq_dec : EqDecision datetime.datetime.
Proof. solve_decision. Defined.

(** [ynab.models.TransactionClearedStatus], the two members the program uses. *)
Inductive TransactionClearedStatus := CLEARED | UNCLEARED.

#[global] Instance cleared_eq_dec : EqDecision TransactionClearedStatus.
Proof. solve_decision. Defined.

(** [ynab.models.new_transaction.NewTransaction].  Every importer sets
    [account_id], [var_date] and [amount] before the transaction enters a
    list; the remaining fields keep [None] until they are assigned.  The
    record is plain; the checks that the client library runs when a text
    is assigned to a field are modelled at the assignments, by
    [validated] below. *)
Record NewTransaction := {
  account_id : string;
  var_date : datetime.date;
  payee_name : option string;
  amount : Z;
  cleared : option TransactionClearedStatus;
  import_id : option string
}.

#[global] Instance NewTransaction_eq_dec : EqDecision NewTransaction.
Proof. solve_decision. Defined.

(** The exceptions the modelled code can raise. *)
Inductive exception :=
  | KeyError (arg : string)
  | ValueError
  | OverflowError.

#[global] Instance exception_eq_dec : EqDecision exception.
Proof. solve_decision. Defined.

(** Sequencing of computations that may raise. *)
Definition bind_exc {A B} (m : exception + A) (f : A → exception + B) : exception + B :=
  match m with
  | inl e => inl e
  | inr a => f a
  end.

Notation "'let!' x := m 'in' k" := (bind_exc m (λ x, k))
  (at level 10, x pattern, m at level 100, k at level 200, only parsing).

(** Python truth value of an optional string: [None] and [''] are false. *)
Definition truthy (s : option string) : bool :=
  match s with
  | Some s => negb (String.eqb s "")
  | None => false
  end.

(** The client library checks a text when it is assigned to a field of a
    [NewTransaction]: [payee_name] holds at most 200 characters and
    [import_id] at most 36.  A longer text raises pydantic's
    [ValidationError], which is a [ValueError].  Strings are sequences of
    UTF-8 bytes here, so a character is counted at every byte that is not
    a continuation byte (codes 128 to 191). *)
Fixpoint characters (s : string) : nat :=
  match s with
  | String c s' =>
      let n := nat_of_ascii c in
      ((if (128 <=? n) && (n <=? 191) then 0 else 1) + characters s')%nat
  | EmptyString => 0%nat
  end.

Definition PAYEE_NAME_MAX_LENGTH : nat := 200.
Definition IMPORT_ID_MAX_LENGTH : nat := 36.

(** The text [s] as a field accepts it. *)
Definition validated (max_length : nat) (s : string) : exception + string :=
  if (characters s <=? max_length)%nat then inr s else inl ValueError.

(** ** Text of numbers and dates *)

(** [str.zfill]-like left padding with zeros, as [%02d] and [%04d] do. *)
Fixpoint zeros (n : nat) : string :=
  match n with
  | O => ""
  | S n => "0" +:+ zeros n
  end.

Definition zero_pad (width : nat) (s : string) : string :=
  zeros (width - String.length s) +:+ s.

(** [date.isoformat()], which is what [str(date)] and an f-string give. *)
Definition isoformat (d : datetime.date) : string :=
  zero_pad 4 (pretty (datetime.year d)) +:+ "-" +:+
  zero_pad 2 (pretty (datetime.month d)) +:+ "-" +:+
  zero_pad 2 (pretty (datetime.day d)).

(** ** [_populateImportIds] *)

(** [enumerate(l, start)] *)
Fixpoint enumerate_from {A} (start : nat) (l : list A) : list (nat * A) :=
  match l with
  | [] => []
  | x :: l => (start, x) :: enumerate_from (S start) l
  end.

Definition enumerate {A} (l : list A) : list (nat * A) := enumerate_from 0 l.

(** [item.var_date == t.var_date and item.amount == t.amount] *)
Definition same_date_amount (t item : NewTransaction) : bool :=
  bool_decide (var_date item = var_date t) && bool_decide (amount item = amount t).

(** [[index for (index, item) in enumerate(transactions) if ...]] *)
Definition same_date_amount_indicies
    (transactions : list NewTransaction) (t : NewTransaction) : list nat :=
  (filter (λ p, same_date_amount t p.2 = true) (enumerate transactions)).*1.

(** [f'UBS2YNAB:{other_t.amount}:{other_t.var_date}:{ordinal}'] *)
Definition format_import_id (other_t : NewTransaction) (ordinal : nat) : string :=
  "UBS2YNAB:" +:+ pretty (amount other_t) +:+ ":" +:+
  isoformat (var_date other_t) +:+ ":" +:+ pretty ordinal.

(** The transaction [t] with [s] as its identifier.  This is the
    assignment of a text that the field accepts; the check that comes
    first is part of [assign_import_id_validated] below. *)
Definition set_import_id (t : NewTransaction) (s : string) : NewTransaction :=
  {| account_id := account_id t; var_date := var_date t;
     payee_name := payee_name t; amount := amount t;
     cleared := cleared t; import_id := Some s |}.

(** One round of the inner loop: [other_t = transactions[t_index]] and the
    assignment to [other_t.import_id], which changes the object held at
    that index.  The indices come from [enumerate], so the lookup cannot
    fail; Python would raise [IndexError] where the model returns the
    list as it is.  The identifier is taken to fit the field: this and
    the two definitions after it describe the runs of the assigner that
    complete. *)
Definition assign_import_id
    (transactions : list NewTransaction) (p : nat * nat) : list NewTransaction :=
  let '(ordinal, t_index) := p in
  match transactions !! t_index with
  | Some other_t =>
      <[t_index := set_import_id other_t (format_import_id other_t ordinal)]> transactions
  | None => transactions
  end.

(** One round of the outer loop, for the transaction at [index]. *)
Definition populate_at
    (transactions : list NewTransaction) (index : nat) : list NewTransaction :=
  match transactions !! index with
  | Some t =>
      if truthy (import_id t) then transactions
      else
        let same_date_amount_indicies := same_date_amount_indicies transactions t in
        (* .reverse(): new-to-old becomes old-to-new *)
        let same_date_amount_indicies := reverse same_date_amount_indicies in
        foldl assign_import_id transactions (enumerate same_date_amount_indicies)
  | None => transactions
  end.

Definition _populateImportIds (transactions : list NewTransaction) : list NewTransaction :=
  foldl populate_at transactions (seq 0 (length transactions)).

(** ** Python's [float], [int] and the text of numbers

    A float is an IEEE 754 binary64 value, given by the Standard Library's
    [spec_float] and its correctly rounded operations. *)

Definition prec : Z := 53.
Definition emax : Z := 1024.

(** The float of an integer, as [x * 1000] converts its right operand. *)
Definition float_of_Z (z : Z) : spec_float := binary_normalize prec emax z 0 false.

(** The float nearest to [m * 10 ^ e10], for a mantissa [m >= 0]. *)
Definition float_of_decimal (neg : bool) (m e10 : Z) : spec_float :=
  match m with
  | Z0 => S754_zero neg
  | Zpos p =>
      if 0 <=? e10 then binary_round prec emax neg (Z.to_pos (Zpos p * 10 ^ e10)) 0
      else SFdiv prec emax (S754_finite neg p 0)
                           (S754_finite false (Z.to_pos (10 ^ (- e10))) 0)
  | Zneg _ => S754_nan
  end.

(** The value of an ASCII digit (codes 48 to 57). *)
Definition digit_value (c : ascii) : option Z :=
  let code := Z.of_nat (nat_of_ascii c) in
  if (48 <=? code) && (code <=? 57) then Some (code - 48) else None.

Definition is_digit (c : ascii) : bool := bool_decide (is_Some (digit_value c)).

(** ASCII white space, as [float] skips it around a number. *)
Definition is_space (c : ascii) : bool :=
  let n := nat_of_ascii c in ((9 <=? n) && (n <=? 13) || (n =? 32))%nat.

Fixpoint skip_spaces (s : string) : string :=
  match s with
  | String c s' => if is_space c then skip_spaces s' else s
  | EmptyString => s
  end.

(** Reads a run of decimal digits: its value on top of [acc], how many
    were read, and what follows. *)
Fixpoint read_digits (s : string) (acc : Z) (n : Z) : Z * Z * string :=
  match s with
  | String c s' =>
      match digit_value c with
      | Some d => read_digits s' (10 * acc + d) (n + 1)
      | None => (acc, n, s)
      end
  | EmptyString => (acc, n, s)
  end.

Definition read_sign (s : string) : bool * string :=
  match s with
  | String "-" s' => (true, s')
  | String "+" s' => (false, s')
  | _ => (false, s)
  end.

Definition lower (c : ascii) : ascii :=
  let n := nat_of_ascii c in
  if ((65 <=? n) && (n <=? 90))%nat then ascii_of_nat (n + 32) else c.

Fixpoint lowercase (s : string) : string :=
  match s with
  | String c s' => String (lower c) (lowercase s')
  | EmptyString => EmptyString
  end.

(** The exponent part [[eE][+-]?digits] of a float literal, if there is one. *)
Definition read_exponent (s : string) : option (Z * string) :=
  match s with
  | String c s' =>
      if bool_decide (lower c = "e"%char) then
        let '(neg, s1) := read_sign s' in
        let '(e, n, s2) := read_digits s1 0 0 in
        if n =? 0 then None else Some (if neg then - e else e, s2)
      else Some (0, s)
  | EmptyString => Some (0, s)
  end.

(** [float(s)] for a string.  The model covers ASCII text: surrounding
    white space, a sign, [inf], [infinity] and [nan] in any case, and
    decimal literals with an optional fraction and exponent.  Python also
    accepts underscores between digits and non-ASCII digits and spaces,
    which the model rejects. *)
Definition float (s : string) : exception + spec_float :=
  let '(neg, s1) := read_sign (skip_spaces s) in
  let '(i, ni, s2) := read_digits s1 0 0 in
  let '(m, nf, s3) :=
    match s2 with
    | String "." s' => read_digits s' i 0
    | _ => (i, 0, s2)
    end in
  if (ni + nf =? 0) then
    match lowercase s1 with
    | String "i" (String "n" (String "f" r)) =>
        if bool_decide (skip_spaces r = "")
           || (match r with
               | String "i" (String "n" (String "i" (String "t" (String "y" r')))) =>
                   bool_decide (skip_spaces r' = "")
               | _ => false
               end)
        then inr (S754_infinity neg) else inl ValueError
    | String "n" (String "a" (String "n" r)) =>
        if bool_decide (skip_spaces r = "") then inr S754_nan else inl ValueError
    | _ => inl ValueError
    end
  else
    match read_exponent s3 with
    | Some (e, s4) =>
        if bool_decide (skip_spaces s4 = "") then inr (float_of_decimal neg m (e - nf))
        else inl ValueError
    | None => inl ValueError
    end.

(** [x * y] on floats *)
Definition float_mul (x y : spec_float) : spec_float := SFmul prec emax x y.

(** [int(x)]: truncation toward zero; infinities and NaN raise. *)
Definition int (x : spec_float) : exception + Z :=
  match x with
  | S754_zero _ => inr 0
  | S754_finite s m e =>
      inr (cond_Zopp s (match e with
                        | Zneg k => Zpos m / 2 ^ Zpos k
                        | _ => Zpos m * 2 ^ e
                        end))
  | S754_infinity _ => inl OverflowError
  | S754_nan => inl ValueError
  end.

(** [x == 0] and [x > 0] on a float *)
Definition float_is_zero (x : spec_float) : bool :=
  match x with S754_zero _ => true | _ => false end.

Definition float_is_positive (x : spec_float) : bool :=
  match x with
  | S754_finite false _ _ | S754_infinity false => true
  | _ => false
  end.

(** ** Text matching

    The three patterns of the program are anchored at the start of the
    text ([^] without [re.MULTILINE]), so [re.search] is a match from the
    first character.  Each is written out as a matcher that returns the
    groups.  Strings are byte strings (UTF-8); [\d] is taken as an ASCII
    digit. *)

(** The double quote character and a string starting with it. *)
Definition dquote : ascii := ascii_of_nat 34.
Definition quoted (s : string) : string := String dquote s.

Definition newline : ascii := ascii_of_nat 10.

(** [s] without the leading [p], when [s] starts with [p]. *)
Fixpoint strip_prefix (p s : string) : option string :=
  match p, s with
  | EmptyString, _ => Some s
  | String a p', String b s' => if bool_decide (a = b) then strip_prefix p' s' else None
  | String _ _, EmptyString => None
  end.

(** The thousands separator U+2019 (right single quotation mark) is the
    three bytes E2 80 99. *)
Definition apostrophe : string := "’".

(** [[\d’]+]: the longest run of digits and separators, and what follows. *)
Fixpoint read_amount_chars (s : string) : string * string :=
  match s with
  | String c s1 =>
      if is_digit c then
        let '(g, r) := read_amount_chars s1 in (String c g, r)
      else
        match s1 with
        | String c2 (String c3 s3) =>
            if bool_decide (String c (String c2 (String c3 "")) = apostrophe) then
              let '(g, r) := read_amount_chars s3 in
              (String c (String c2 (String c3 g)), r)
            else ("", s)
        | _ => ("", s)
        end
  | EmptyString => ("", s)
  end.

(** [([\d’]+\.\d\d)]: the group and what follows.  The run cannot give a
    character back, since what follows it must be a full stop. *)
Definition match_amount (s : string) : option (string * string) :=
  let '(g, r) := read_amount_chars s in
  match g, r with
  | String _ _, String "." (String d1 (String d2 r')) =>
      if is_digit d1 && is_digit d2
      then Some (g +:+ String "." (String d1 (String d2 "")), r')
      else None
  | _, _ => None
  end.

(** [(\d\d\d\d)] *)
Definition match_4_digits (s : string) : option (string * string) :=
  match s with
  | String a (String b (String c (String d r))) =>
      if is_digit a && is_digit b && is_digit c && is_digit d
      then Some (String a (String b (String c (String d ""))), r)
      else None
  | _ => None
  end.

(** [(.+)] followed by [rest]: the greedy group takes the longest run of
    characters other than a newline after which [rest] matches. *)
Fixpoint match_greedy {B} (rest : string → option B) (s : string) : option (string * B) :=
  match s with
  | String c s' =>
      if bool_decide (c = newline) then None
      else
        match match_greedy rest s' with
        | Some (g, b) => Some (String c g, b)
        | None => b ← rest s'; Some (String c "", b)
        end
  | EmptyString => None
  end.

(** [.replace('’', '')] *)
Fixpoint remove_apostrophes (s : string) : string :=
  match s with
  | String c s1 =>
      match s1 with
      | String c2 (String c3 s3) =>
          if bool_decide (String c (String c2 (String c3 "")) = apostrophe)
          then remove_apostrophes s3
          else String c (remove_apostrophes s1)
      | _ => String c (remove_apostrophes s1)
      end
  | EmptyString => EmptyString
  end.

(** [^CHF ([\d’]+\.\d\d) have been charged to card "(\d\d\d\d)"\. (.+)\. Available amount:]
    with groups 1, 2 and 3. *)
Definition UBS_CREDIT_CARD_OUTFLOW_REGEXP (text : string) : option (string * string * string) :=
  s ← strip_prefix "CHF " text;
  '(g1, s) ← match_amount s;
  s ← strip_prefix (" have been charged to card " +:+ quoted "") s;
  '(g2, s) ← match_4_digits s;
  s ← strip_prefix (quoted ". ") s;
  '(g3, _) ← match_greedy (strip_prefix ". Available amount:") s;
  Some (g1, g2, g3).

(** [^Amount available on card "(\d\d\d\d)": CHF] with group 1. *)
Definition UBS_CREDIT_CARD_INFLOW_REGEXP (text : string) : option string :=
  s ← strip_prefix ("Amount available on card " +:+ quoted "") text;
  '(g1, s) ← match_4_digits s;
  _ ← strip_prefix (quoted ": CHF") s;
  Some g1.

(** What follows group 1 of the debit card pattern: the closing quote,
    then [ has been (debited|credited) CHF ([\d’]+\.\d\d)\.] *)
Definition match_debit_tail (s : string) : option (string * string) :=
  s ← strip_prefix (quoted " has been ") s;
  '(g2, s) ← match strip_prefix "debited" s with
              | Some s' => Some ("debited", s')
              | None => s' ← strip_prefix "credited" s; Some ("credited", s')
              end;
  s ← strip_prefix " CHF " s;
  '(g3, s) ← match_amount s;
  _ ← strip_prefix "." s;
  Some (g2, g3).

(** [^Your account "(.+)" has been (debited|credited) CHF ([\d’]+\.\d\d)\.]
    with groups 1, 2 and 3. *)
Definition UBS_DEBIT_CARD_REGEXP (text : string) : option (string * string * string) :=
  s ← strip_prefix ("Your account " +:+ quoted "") text;
  '(g1, (g2, g3)) ← match_greedy match_debit_tail s;
  Some (g1, g2, g3).

(** ** Dates in text *)

Definition read_digit (s : string) : option (Z * string) :=
  match s with
  | String c r => d ← digit_value c; Some (d, r)
  | EmptyString => None
  end.

(** Exactly [n] digits, read as a number. *)
Fixpoint read_n_digits (n : nat) (acc : Z) (s : string) : option (Z * string) :=
  match n with
  | O => Some (acc, s)
  | S n' => '(d, r) ← read_digit s; read_n_digits n' (10 * acc + d) r
  end.

(** The directive [%d] of [strptime]: [3[0-1]|[1-2]\d|0[1-9]|[1-9]| [1-9]].
    A full stop follows it in the format, so trying the two-character
    alternatives first and the one-character one after is the whole of
    the backtracking. *)
Definition match_day (s : string) : option (Z * string) :=
  match s with
  | String a (String b r) =>
      match digit_value a, digit_value b with
      | Some x, Some y =>
          if (1 <=? 10 * x + y) && (10 * x + y <=? 31) then Some (10 * x + y, r)
          else if 1 <=? x then Some (x, String b r) else None
      | Some x, None => if 1 <=? x then Some (x, String b r) else None
      | None, Some y =>
          if bool_decide (a = " "%char) && (1 <=? y) then Some (y, r) else None
      | None, None => None
      end
  | String a EmptyString =>
      match digit_value a with
      | Some x => if 1 <=? x then Some (x, EmptyString) else None
      | None => None
      end
  | EmptyString => None
  end.

(** The directive [%m]: [1[0-2]|0[1-9]|[1-9]]. *)
Definition match_month (s : string) : option (Z * string) :=
  match s with
  | String a r =>
      match digit_value a with
      | Some x =>
          match r with
          | String b r' =>
              match digit_value b with
              | Some y =>
                  if (1 <=? 10 * x + y) && (10 * x + y <=? 12) then Some (10 * x + y, r')
                  else if 1 <=? x then Some (x, r) else None
              | None => if 1 <=? x then Some (x, r) else None
              end
          | EmptyString => if 1 <=? x then Some (x, r) else None
          end
      | None => None
      end
  | EmptyString => None
  end.

Definition checked_date (y m d : Z) : exception + datetime.date :=
  let date := datetime.Date y m d in
  if datetime.valid_date date then inr date else inl ValueError.

Definition or_ValueError {A} (o : option A) : exception + A :=
  match o with
  | Some a => inr a
  | None => inl ValueError
  end.

(** [datetime.strptime(s, '%d.%m.%Y').date()] *)
Definition strptime_dmY (s : string) : exception + datetime.date :=
  let! (d, s) := or_ValueError (match_day s) in
  let! s := or_ValueError (strip_prefix "." s) in
  let! (m, s) := or_ValueError (match_month s) in
  let! s := or_ValueError (strip_prefix "." s) in
  let! (y, s) := or_ValueError (read_n_digits 4 0 s) in
  if bool_decide (s = "") then checked_date y m d else inl ValueError.

(** [datetime.fromisoformat(s)] for the two shapes the exports have:
    [YYYY-MM-DD] alone or followed by one separator character and
    [HH:MM:SS].  Other ISO 8601 shapes that Python reads (fractions of a
    second, offsets, week dates) are [ValueError] in the model. *)
Definition fromisoformat (s : string) : exception + datetime.datetime :=
  let! (y, s) := or_ValueError (read_n_digits 4 0 s) in
  let! s := or_ValueError (strip_prefix "-" s) in
  let! (m, s) := or_ValueError (read_n_digits 2 0 s) in
  let! s := or_ValueError (strip_prefix "-" s) in
  let! (d, s) := or_ValueError (read_n_digits 2 0 s) in
  let! date := checked_date y m d in
  match s with
  | EmptyString => inr (datetime.Datetime date 0 0 0 0)
  | String _ s =>
      let! (hh, s) := or_ValueError (read_n_digits 2 0 s) in
      let! s := or_ValueError (strip_prefix ":" s) in
      let! (mm, s) := or_ValueError (read_n_digits 2 0 s) in
      let! s := or_ValueError (strip_prefix ":" s) in
      let! (ss, s) := or_ValueError (read_n_digits 2 0 s) in
      if bool_decide (s = "") && datetime.valid_time hh mm ss
      then inr (datetime.Datetime date hh mm ss 0)
      else inl ValueError
  end.

(** ** The YNAB boundary *)

(** A call of [TransactionsApi.create_transaction(budget_id, data)], with
    the transactions of [data].  The call is taken to return. *)
Definition api_call : Type := string * list NewTransaction.

(** What a run of an importer leaves behind: the calls it made to the
    API, and the exception it ended with, if any. *)
Record outcome := Outcome {
  api_calls : list api_call;
  raised : option exception
}.

Definition _createYnabTransactions
    (budget_id : string) (transactions : list NewTransaction) (dry_run : bool)
    : list api_call :=
  if dry_run then [] else [(budget_id, transactions)].

(** A loop body run over a list, stopping at the first exception. *)
Fixpoint for_each {S A} (body : S → A → exception + S) (s : S) (l : list A)
    : exception + S :=
  match l with
  | [] => inr s
  | x :: l' => let! s' := body s x in for_each body s' l'
  end.

(** [int(float(s) * 1000)] *)
Definition milliunits (s : string) : exception + Z :=
  let! x := float s in int (float_mul x (float_of_Z 1000)).

(** Truth value of a string: empty is false. *)
Definition nonempty (s : string) : bool := negb (String.eqb s "").

(** ** [importCreditCsv] *)

Definition _isCreditIncomingTransfer (payee : string) : bool :=
  String.eqb payee "TRANSFER FROM ACCOUNT".

(** A row of [csv.DictReader] with the columns the importer reads. *)
Module CreditCsv.
Record row := Row {
  Account_number : string;
  Purchase_date : string;
  Booking_text : string;
  Credit : string;
  Debit : string;
  Amount : string
}.
End CreditCsv.

(** The body of the loop after the check for the summary rows. *)
Definition credit_transaction (account_id : string) (row : CreditCsv.row)
    : exception + NewTransaction :=
  let! var_date := strptime_dmY (CreditCsv.Purchase_date row) in
  let! payee_name := validated PAYEE_NAME_MAX_LENGTH (CreditCsv.Booking_text row) in
  let! (amount, cleared) :=
    if nonempty (CreditCsv.Credit row) then
      let! a := milliunits (CreditCsv.Credit row) in inr (a, CLEARED)
    else if nonempty (CreditCsv.Debit row) then
      let! a := milliunits (CreditCsv.Debit row) in inr (- a, CLEARED)
    else
      let! a := milliunits (CreditCsv.Amount row) in
      let amount := - a in
      let amount := if _isCreditIncomingTransfer payee_name then - amount else amount in
      inr (amount, UNCLEARED) in
  inr {| account_id := account_id; var_date := var_date;
         payee_name := Some payee_name; amount := amount;
         cleared := Some cleared; import_id := None |}.

(** The loop over the rows; a row without account number ends it. *)
Fixpoint credit_transactions (account_id : string) (rows : list CreditCsv.row)
    (transactions : list NewTransaction) : exception + list NewTransaction :=
  match rows with
  | [] => inr transactions
  | row :: rows' =>
      if negb (nonempty (CreditCsv.Account_number row)) then inr transactions
      else
        let! t := credit_transaction account_id row in
        credit_transactions account_id rows' (transactions ++ [t])
  end.

Definition importCreditCsv (rows : list CreditCsv.row) (budget_id account_id : string)
    (dry_run : bool) : outcome :=
  match credit_transactions account_id rows [] with
  | inl e => Outcome [] (Some e)
  | inr transactions =>
      let transactions := _populateImportIds transactions in
      Outcome (_createYnabTransactions budget_id transactions dry_run) None
  end.

(** ** [importRevolutCsv] *)

Module RevolutCsv.
Record row := Row {
  Type_ : string;
  Product : string;
  Started_Date : string;
  Description : string;
  Amount : string;
  Fee : string;
  State : string
}.
End RevolutCsv.

(** [s.startswith(p)] *)
Definition startswith (s p : string) : bool := bool_decide (is_Some (strip_prefix p s)).

(** One round of the loop: [None] where the source says [continue]. *)
Definition revolut_transaction (account_id : string) (row : RevolutCsv.row)
    : exception + option NewTransaction :=
  if negb (String.eqb (RevolutCsv.Product row) "Current") then inr None
  else
    let description := RevolutCsv.Description row in
    if String.eqb (RevolutCsv.Type_ row) "Transfer"
       && (startswith description "To pocket "
           || String.eqb description "Balance migration to another region or legal entity")
    then inr None
    else
      let! started := fromisoformat (RevolutCsv.Started_Date row) in
      let! payee_name := validated PAYEE_NAME_MAX_LENGTH (RevolutCsv.Description row) in
      let! amount := milliunits (RevolutCsv.Amount row) in
      let! fee := milliunits (RevolutCsv.Fee row) in
      inr (Some {| account_id := account_id;
                   var_date := datetime.date_part started;
                   payee_name := Some payee_name;
                   amount := amount - fee;
                   cleared := Some (if String.eqb (RevolutCsv.State row) "COMPLETED"
                                    then CLEARED else UNCLEARED);
                   import_id := None |}).

Definition revolut_transactions (account_id : string) (rows : list RevolutCsv.row)
    : exception + list NewTransaction :=
  for_each (λ (transactions : list NewTransaction) row,
              let! t := revolut_transaction account_id row in
              inr (match t with
                   | Some t => (transactions ++ [t])
                   | None => transactions
                   end))
           [] rows.

Definition importRevolutCsv (rows : list RevolutCsv.row) (budget_id account_id : string)
    (dry_run : bool) : outcome :=
  match revolut_transactions account_id rows with
  | inl e => Outcome [] (Some e)
  | inr transactions =>
      (* Revolut CSV is old-to-new but _populateImportIds need new-to-old *)
      let transactions := reverse transactions in
      let transactions := _populateImportIds transactions in
      Outcome (_createYnabTransactions budget_id transactions dry_run) None
  end.

(** ** [importUbsFromEmail]

    The model starts from the list [notifications], which the program
    builds from the mailbox: one entry per message whose HTML holds the
    notification markers, with the delivery time and the stripped text
    between the markers. *)

Record Notification := { date : datetime.datetime; message : string }.

(** Maximum time between an outflow notification from a debit account and
    an inflow notification to a credit card: [timedelta(minutes=1)]. *)
Definition MAX_CREDIT_CARD_TRANSFT_TIMEDELTA : datetime.timedelta := datetime.minutes 1.

(** [float(g.replace('’', ''))] *)
Definition float_amount (g : string) : exception + spec_float :=
  float (remove_apostrophes g).

(** [t.account_id = account_map[alias]] and the check that follows it:
    a missing key raises [KeyError(alias)], an empty account the
    [KeyError] with the message of the source. *)
Definition account_of (account_map : gmap string string) (kind alias : string)
    : exception + string :=
  match account_map !! alias with
  | None => inl (KeyError alias)
  | Some account_id =>
      if nonempty account_id then inr account_id
      else inl (KeyError (kind +:+ " " +:+ quoted (alias +:+ quoted " not specified in account_map")))
  end.

(** The condition on a neighbour [nn] of the inflow notification [n]:
    [p1 and abs(nn.date - n.date) < MAX_CREDIT_CARD_TRANSFT_TIMEDELTA
     and p1.group(2) == 'debited']. *)
Definition debit_nearby (n nn : Notification)
    (p1 : option (string * string * string)) : bool :=
  match p1 with
  | Some (_, g2, _) =>
      (Z.abs (datetime.sub (date nn) (date n)) <? MAX_CREDIT_CARD_TRANSFT_TIMEDELTA)
      && String.eqb g2 "debited"
  | None => false
  end.

(** The look at one neighbour: [debit_sum] is replaced by the neighbour's
    amount when the condition holds. *)
Definition look_at (n nn : Notification) (debit_sum : spec_float)
    : exception + spec_float :=
  let p1 := UBS_DEBIT_CARD_REGEXP (message nn) in
  if debit_nearby n nn p1 then
    match p1 with
    | Some (_, _, g3) => float_amount g3
    | None => inr debit_sum
    end
  else inr debit_sum.

(** The amount guessed for the inflow notification [n] at index [i]:
    from the notification before it, else from the one after it. *)
Definition guess_debit_sum (notifications : list Notification) (i : nat)
    (n : Notification) : exception + spec_float :=
  let debit_sum := S754_zero false in
  let! debit_sum :=
    if (0 <? i)%nat then
      match notifications !! (i - 1)%nat with
      | Some nn => look_at n nn debit_sum
      | None => inr debit_sum
      end
    else inr debit_sum in
  if float_is_zero debit_sum && (i <? length notifications - 1)%nat then
    match notifications !! (i + 1)%nat with
    | Some nn => look_at n nn debit_sum
    | None => inr debit_sum
    end
  else inr debit_sum.

(** One round of the loop over [enumerate(notifications)]: the
    transaction that is appended, if any. *)
Definition notification_transaction (account_map : gmap string string)
    (notifications : list Notification) (i : nat) (n : Notification)
    : exception + option NewTransaction :=
  match UBS_CREDIT_CARD_OUTFLOW_REGEXP (message n) with
  | Some (g1, card, payee) =>
      (* Notifications are for charged amounts only -- so the sum is negative *)
      let! sum := float_amount g1 in
      let sum := SFopp sum in
      let! account_id := account_of account_map "Card" card in
      let! payee_name := validated PAYEE_NAME_MAX_LENGTH payee in
      let! amount := int (float_mul sum (float_of_Z 1000)) in
      inr (Some {| account_id := account_id;
                   var_date := datetime.date_part (date n);
                   payee_name := Some payee_name; amount := amount;
                   cleared := None; import_id := None |})
  | None =>
  match UBS_CREDIT_CARD_INFLOW_REGEXP (message n) with
  | Some card =>
      let! debit_sum := guess_debit_sum notifications i n in
      if float_is_positive debit_sum then
        let! account_id := account_of account_map "Card" card in
        let! amount := int (float_mul debit_sum (float_of_Z 1000)) in
        inr (Some {| account_id := account_id;
                     var_date := datetime.date_part (date n);
                     payee_name := None; amount := amount;
                     cleared := None; import_id := None |})
      else inr None
  | None =>
  match UBS_DEBIT_CARD_REGEXP (message n) with
  | Some (account, action, g3) =>
      let! sum := float_amount g3 in
      let sum := if String.eqb action "debited" then SFopp sum else sum in
      let! account_id := account_of account_map "Account" account in
      let! amount := int (float_mul sum (float_of_Z 1000)) in
      inr (Some {| account_id := account_id;
                   var_date := datetime.date_part (date n);
                   payee_name := None; amount := amount;
                   cleared := None; import_id := None |})
  | None => inr None
  end end end.

(** The body of the loop, on the list [transactions] built so far. *)
Definition notification_step (account_map : gmap string string)
    (notifications : list Notification) (transactions : list NewTransaction)
    (p : nat * Notification) : exception + list NewTransaction :=
  let! t := notification_transaction account_map notifications p.1 p.2 in
  inr (match t with
       | Some t => (transactions ++ [t])
       | None => transactions
       end).

Definition importUbsFromEmail (notifications : list Notification) (budget_id : string)
    (account_map : gmap string string) (dry_run : bool) : outcome :=
  match notifications with
  | [] => Outcome [] None
  | _ =>
      match for_each (notification_step account_map notifications) []
                     (enumerate notifications) with
      | inl e => Outcome [] (Some e)
      | inr transactions =>
          (* IMAP returns is old-to-new but _populateImportIds need new-to-old *)
          let transactions := reverse transactions in
          let transactions := _populateImportIds transactions in
          Outcome (_createYnabTransactions budget_id transactions dry_run) None
      end
  end.

(** ** [importDebitCsv] *)

(** A row of the data table, after the nine information lines. *)
Module DebitCsv.
Record row := Row {
  Trade_date : string;
  Description1 : string;
  Credit : string;
  Debit : string
}.
End DebitCsv.

(** The body of the loop. *)
Definition debit_transaction (account_id : string) (row : DebitCsv.row)
    : exception + NewTransaction :=
  let! traded := fromisoformat (DebitCsv.Trade_date row) in
  let! payee_name := validated PAYEE_NAME_MAX_LENGTH (DebitCsv.Description1 row) in
  (* In UBS CSV credit amount is positive and debit amount is negative *)
  let str_amount :=
    if nonempty (DebitCsv.Credit row) then DebitCsv.Credit row else DebitCsv.Debit row in
  let! amount := milliunits str_amount in
  inr {| account_id := account_id; var_date := datetime.date_part traded;
         payee_name := Some payee_name; amount := amount;
         cleared := Some CLEARED; import_id := None |}.

Definition debit_transactions (account_id : string) (rows : list DebitCsv.row)
    : exception + list NewTransaction :=
  for_each (λ (transactions : list NewTransaction) row,
              let! t := debit_transaction account_id row in
              inr (transactions ++ [t]))
           [] rows.

Definition importDebitCsv (rows : list DebitCsv.row) (budget_id account_id : string)
    (dry_run : bool) : outcome :=
  match debit_transactions account_id rows with
  | inl e => Outcome [] (Some e)
  | inr transactions =>
      let transactions := _populateImportIds transactions in
      Outcome (_createYnabTransactions budget_id transactions dry_run) None
  end.

(** ** The check of the identifiers

    The client library checks the assignment [other_t.import_id = ...] of
    [_populateImportIds] as it checks every assignment: an identifier of
    more than 36 characters raises [ValueError] and ends the loops.
    [_populateImportIds] above is the function without that check, which
    is what a run that completes writes.  The definitions of this part
    follow the same lines of the source with the check in place. *)

Definition assign_import_id_validated
    (transactions : list NewTransaction) (p : nat * nat)
    : exception + list NewTransaction :=
  let '(ordinal, t_index) := p in
  match transactions !! t_index with
  | Some other_t =>
      let! import_id := validated IMPORT_ID_MAX_LENGTH (format_import_id other_t ordinal) in
      inr (<[t_index := set_import_id other_t import_id]> transactions)
  | None => inr transactions
  end.

Definition populate_at_validated
    (transactions : list NewTransaction) (index : nat)
    : exception + list NewTransaction :=
  match transactions !! index with
  | Some t =>
      if truthy (import_id t) then inr transactions
      else
        let same_date_amount_indicies := same_date_amount_indicies transactions t in
        (* .reverse(): new-to-old becomes old-to-new *)
        let same_date_amount_indicies := reverse same_date_amount_indicies in
        for_each assign_import_id_validated transactions
                 (enumerate same_date_amount_indicies)
  | None => inr transactions
  end.

Definition _populateImportIds_validated (transactions : list NewTransaction)
    : exception + list NewTransaction :=
  for_each populate_at_validated transactions (seq 0 (length transactions)).

Definition importCreditCsv_validated (rows : list CreditCsv.row)
    (budget_id account_id : string) (dry_run : bool) : outcome :=
  match (let! transactions := credit_transactions account_id rows [] in
         _populateImportIds_validated transactions) with
  | inl e => Outcome [] (Some e)
  | inr transactions =>
      Outcome (_createYnabTransactions budget_id transactions dry_run) None
  end.

Definition importDebitCsv_validated (rows : list DebitCsv.row)
    (budget_id account_id : string) (dry_run : bool) : outcome :=
  match (let! transactions := debit_transactions account_id rows in
         _populateImportIds_validated transactions) with
  | inl e => Outcome [] (Some e)
  | inr transactions =>
      Outcome (_createYnabTransactions budget_id transactions dry_run) None
  end.

Definition importRevolutCsv_validated (rows : list RevolutCsv.row)
    (budget_id account_id : string) (dry_run : bool) : outcome :=
  match (let! transactions := revolut_transactions account_id rows in
         (* Revolut CSV is old-to-new but _populateImportIds need new-to-old *)
         let transactions := reverse transactions in
         _populateImportIds_validated transactions) with
  | inl e => Outcome [] (Some e)
  | inr transactions =>
      Outcome (_createYnabTransactions budget_id transactions dry_run) None
  end.

Definition importUbsFromEmail_validated (notifications : list Notification)
    (budget_id : string) (account_map : gmap string string) (dry_run : bool) : outcome :=
  match notifications with
  | [] => Outcome [] None
  | _ =>
      match (let! transactions := for_each (notification_step account_map notifications)
                                           [] (enumerate notifications) in
             (* IMAP returns is old-to-new but _populateImportIds need new-to-old *)
             let transactions := reverse transactions in
             _populateImportIds_validated transactions) with
      | inl e => Outcome [] (Some e)
      | inr transactions =>
          Outcome (_createYnabTransactions budget_id transactions dry_run) None
      end
  end.

(** ** The messages of the mailbox

    The first part of [importUbsFromEmail]: every fetched message whose
    HTML holds the two markers gives a notification. *)

Module Mail.
Record message := Message { date : datetime.datetime; html : string }.
End Mail.

Definition NOTIFICATION_CONTENT_BEGIN : string := "<!-- NOTIFICATION_CONTENT_BEGIN -->".
Definition NOTIFICATION_CONTENT_END : string := "<!-- NOTIFICATION_CONTENT_END -->".

(** What follows the first occurrence of [p] in [s]. *)
Fixpoint find_after (p s : string) : option string :=
  match strip_prefix p s with
  | Some r => Some r
  | None =>
      match s with
      | String _ s' => find_after p s'
      | EmptyString => None
      end
  end.

(** What precedes the last occurrence of [p] in [s]. *)
Fixpoint before_last (p s : string) : option string :=
  match s with
  | String c s' =>
      match before_last p s' with
      | Some g => Some (String c g)
      | None => if bool_decide (is_Some (strip_prefix p s)) then Some "" else None
      end
  | EmptyString => if bool_decide (p = "") then Some "" else None
  end.

(** [re.search(UBS_NOTIFICATION_REGEXP, html, re.DOTALL)] with group 1.
    The pattern is the begin marker, a greedy group of any characters
    (newlines too) and the end marker: the match starts at the first begin
    marker that an end marker follows, and the group runs to the last end
    marker. *)
Definition UBS_NOTIFICATION_REGEXP (html : string) : option string :=
  r ← find_after NOTIFICATION_CONTENT_BEGIN html;
  before_last NOTIFICATION_CONTENT_END r.

(** White space of [str.strip]: the characters for which [str.isspace]
    holds.  In UTF-8 these are the bytes 9 to 13 and 28 to 32, the
    two-byte characters U+0085 and U+00A0, and the three-byte characters
    U+1680, U+2000 to U+200A, U+2028, U+2029, U+202F, U+205F and U+3000. *)
Definition space1 (a : ascii) : bool :=
  let x := nat_of_ascii a in
  ((9 <=? x) && (x <=? 13) || (28 <=? x) && (x <=? 32))%nat.

Definition space2 (a b : ascii) : bool :=
  let x := nat_of_ascii a in
  let y := nat_of_ascii b in
  ((x =? 194) && ((y =? 133) || (y =? 160)))%nat.

Definition space3 (a b c : ascii) : bool :=
  let x := nat_of_ascii a in
  let y := nat_of_ascii b in
  let z := nat_of_ascii c in
  ((x =? 225) && (y =? 154) && (z =? 128)
   || (x =? 226) && (y =? 128)
      && ((128 <=? z) && (z <=? 138) || (z =? 168) || (z =? 169) || (z =? 175))
   || (x =? 226) && (y =? 129) && (z =? 159)
   || (x =? 227) && (y =? 128) && (z =? 128))%nat.

(** What follows the white-space character that [s] starts with, if it
    starts with one. *)
Definition strip_space (s : string) : option string :=
  match s with
  | String a r =>
      if space1 a then Some r
      else
        match r with
        | String b r' =>
            if space2 a b then Some r'
            else
              match r' with
              | String c r'' => if space3 a b c then Some r'' else None
              | EmptyString => None
              end
        | EmptyString => None
        end
  | EmptyString => None
  end.

(** [s.lstrip()] *)
Fixpoint lstrip (s : string) : string :=
  match s with
  | String a r =>
      if space1 a then lstrip r
      else
        match r with
        | String b r' =>
            if space2 a b then lstrip r'
            else
              match r' with
              | String c r'' => if space3 a b c then lstrip r'' else s
              | EmptyString => s
              end
        | EmptyString => s
        end
  | EmptyString => s
  end.

(** [s.rstrip()]: the text ends where only white space follows. *)
Fixpoint rstrip (s : string) : string :=
  match s with
  | String c s' => if bool_decide (lstrip s = "") then "" else String c (rstrip s')
  | EmptyString => s
  end.

(** [s.strip()] *)
Definition strip (s : string) : string := rstrip (lstrip s).

(** The loop over the fetched messages: a message without notification is
    skipped with a warning. *)
Definition mailbox_notifications (msgs : list Mail.message) : list Notification :=
  omap (λ m, x ← UBS_NOTIFICATION_REGEXP (Mail.html m);
             Some {| date := Mail.date m; message := strip x |}) msgs.

(** [importUbsFromEmail] from the fetched messages on. *)
Definition importUbsFromMailbox (msgs : list Mail.message) (budget_id : string)
    (account_map : gmap string string) (dry_run : bool) : outcome :=
  importUbsFromEmail (mailbox_notifications msgs) budget_id account_map dry_run.

(** ** The account map of the command line *)

(** [s.split(sep)] for a separator of one character. *)
Fixpoint split (sep : ascii) (s : string) : list string :=
  match s with
  | String c s' =>
      if bool_decide (c = sep) then "" :: split sep s'
      else
        match split sep s' with
        | part :: parts => String c part :: parts
        | [] => [String c ""]
        end
  | EmptyString => [""]
  end.

(** [dict(item.split('=') for item in account_map.split(';'))]: an item
    that does not split in two is a [ValueError], a later item replaces an
    earlier one with the same key. *)
Definition parse_account_map (account_map : string) : exception + gmap string string :=
  for_each (λ (acc_map : gmap string string) item,
              match split "=" item with
              | [key; value] => inr (<[key := value]> acc_map)
              | _ => inl ValueError
              end)
           ∅ (split ";" account_map).

(** ** Notions used to state the properties *)

(** How many items of [l] share the date and amount of [t]. *)
Definition count_same (t : NewTransaction) (l : list NewTransaction) : nat :=
  length (filter (λ x, same_date_amount t x = true) l).

(** What one pass over the group of [t] leaves: every member carries the
    identifier whose ordinal is [start] plus the number of members after it. *)
Fixpoint renumber_from (start : nat) (t : NewTransaction) (l : list NewTransaction)
    : list NewTransaction :=
  match l with
  | [] => []
  | x :: l' =>
      (if same_date_amount t x
       then set_import_id x (format_import_id x (start + count_same t l'))
       else x) :: renumber_from start t l'
  end.

(** Some item of [l] with the date and amount of [t] has no identifier. *)
Definition pending (l : list NewTransaction) (t : NewTransaction) : bool :=
  bool_decide (Exists (λ u, same_date_amount t u = true ∧ truthy (import_id u) = false) l).

(** The transaction at index [i] of [ts] with the identifier of its rank:
    the number of items after it that share its date and amount. *)
Definition ranked (ts : list NewTransaction) (i : nat) (x : NewTransaction)
    : NewTransaction :=
  set_import_id x (format_import_id x (count_same x (drop (S i) ts))).

(** The alias that the round for [n] looks up in the account map: the
    card of an outflow notification, the account of an account
    notification, and the card of an inflow notification once a sum
    above zero was guessed for it. *)
Definition looks_up (notifications : list Notification) (i : nat) (n : Notification)
    (alias : string) : Prop :=
  (∃ g1 payee, UBS_CREDIT_CARD_OUTFLOW_REGEXP (message n) = Some (g1, alias, payee))
  ∨ (∃ action g3, UBS_DEBIT_CARD_REGEXP (message n) = Some (alias, action, g3))
  ∨ (UBS_CREDIT_CARD_INFLOW_REGEXP (message n) = Some alias
     ∧ ∃ x, guess_debit_sum notifications i n = inr x ∧ float_is_positive x = true).

Definition correlated_transaction (account_id : string) (n : Notification) (a : Z)
    : NewTransaction :=
  {| account_id := account_id; var_date := datetime.date_part (date n);
     payee_name := None; amount := a; cleared := None; import_id := None |}.

(** A float that is plus infinity, or positive with a mantissa of at
    least [2^52] and an exponent of at least [k]. *)
Definition at_least (k : Z) (x : spec_float) : Prop :=
  match x with
  | S754_finite false m e => 2 ^ 52 ≤ Zpos m ∧ k ≤ e
  | S754_infinity false => True
  | _ => False
  end.

(** A run of digits and thousands separators, with the digits in it. *)
Inductive amount_run : string → string → Prop :=
  | run_empty : amount_run "" ""
  | run_digit c g ds :
      is_digit c = true → amount_run g ds → amount_run (String c g) (String c ds)
  | run_separator g ds :
      amount_run g ds → amount_run (apostrophe +:+ g) ds.

Fixpoint all_digits (s : string) : bool :=
  match s with
  | String c s' => is_digit c && all_digits s'
  | EmptyString => true
  end.

(** ** Inputs taken from the test suite *)

(** A transaction of a CSV import with the identifier [i]. *)
Definition tx (d : datetime.date) (a : Z) (p : string) (i : option string) : NewTransaction :=
  {| account_id := "acc"; var_date := d; payee_name := Some p; amount := a;
     cleared := Some CLEARED; import_id := i |}.

(** The notification texts of the test suite. *)
Definition card_inflow_text (card : string) : string :=
  "Amount available on card " +:+ quoted (card +:+ quoted ": CHF  1234.56.").

Definition card_outflow_text (amount card payee : string) : string :=
  "CHF " +:+ amount +:+ " have been charged to card " +:+
  quoted (card +:+ quoted (". " +:+ payee +:+ ". Available amount: CHF 1234.56")).

Definition account_text (account action amount : string) : string :=
  "Your account " +:+ quoted (account +:+ quoted (" has been " +:+ action +:+
  " CHF " +:+ amount +:+ "." +:+ String newline (String newline
  "The new account balance is CHF 1234.56."))).

Definition at_10h (m s : Z) : datetime.datetime :=
  datetime.Datetime (datetime.Date 2025 1 2) 10 m s 0.

Definition two_accounts : gmap string string :=
  {[ "1234" := "credit_account_id"; "Acc" := "debit_account_id" ]}.

(** Batches of same-day, same-amount transactions, in new-to-old order. *)
Definition jan13 : datetime.date := datetime.Date 2000 1 13.

Definition batch_fresh : list NewTransaction :=
  [tx jan13 (-100000) "Third" None; tx jan13 5000 "Other" None;
   tx jan13 (-100000) "Second" None; tx jan13 (-100000) "First" None].

Definition batch_assigned : list NewTransaction :=
  [tx jan13 (-100000) "Second" (Some "UBS2YNAB:-100000:2000-01-13:1");
   tx jan13 (-100000) "First" (Some "UBS2YNAB:-100000:2000-01-13:0")].

Definition batch_mixed : list NewTransaction :=
  [tx jan13 (-100000) "Second" (Some "kept?");
   tx jan13 (-100000) "First" None].

(** The rows of the tests of the credit card importer. *)
Definition credit_row (booking_text credit debit amount : string) : CreditCsv.row :=
  CreditCsv.Row "ACC1" "13.01.2000" booking_text credit debit amount.

Definition just_amount_row : CreditCsv.row :=
  credit_row "Some payee not denoting a transfer" "" "" "150.00".

Definition just_amount_transaction : NewTransaction :=
  {| account_id := "some_account_id"; var_date := jan13;
     payee_name := Some "Some payee not denoting a transfer";
     amount := -150000; cleared := Some UNCLEARED; import_id := None |}.

(** The rows of the tests of the Revolut importer. *)
Definition revolut_row (description amount fee : string) : RevolutCsv.row :=
  RevolutCsv.Row "Card Payment" "Current" "2020-01-13 19:20:21" description
                 amount fee "COMPLETED".

Definition jan13_2020 : datetime.date := datetime.Date 2020 1 13.

Definition fee_row : RevolutCsv.row := revolut_row "Test payee" "-50.00" "2.00".

Definition fee_transaction : NewTransaction :=
  {| account_id := "some_account_id"; var_date := jan13_2020;
     payee_name := Some "Test payee"; amount := -52000;
     cleared := Some CLEARED; import_id := None |}.


(** A fee that is not a whole number of tenths. *)
Definition cent_fee_row : RevolutCsv.row := revolut_row "Test payee" "-50.00" "2.01".

Definition cent_fee_transaction : NewTransaction :=
  {| account_id := "some_account_id"; var_date := jan13_2020;
     payee_name := Some "Test payee"; amount := -52009;
     cleared := Some CLEARED; import_id := None |}.



Definition inflow_at_10h : Notification :=
  {| date := at_10h 0 0; message := card_inflow_text "1234" |}.

Definition debit_at (m s : Z) : Notification :=
  {| date := at_10h m s; message := account_text "Acc" "debited" "123.45" |}.

Definition inflow_then_late_debit : list Notification :=
  [inflow_at_10h; debit_at 1 0].

Definition lone_inflow : list Notification := [inflow_at_10h].

Definition lone_outflow : list Notification :=
  [ {| date := at_10h 0 0; message := card_outflow_text "56.78" "1234" "PAYEE" |} ].

Definition companion_before : list Notification := [debit_at 0 59; inflow_at_10h].

(** ** Further notions used to state the properties *)

(** The character [c] does not occur in [s]. *)
Fixpoint without (c : ascii) (s : string) : bool :=
  match s with
  | String c' s' => negb (Ascii.eqb c' c) && without c s'
  | EmptyString => true
  end.

(** What a run leaves at the API: nothing in a dry run or after an
    exception; else one call for the budget, with a batch in which every
    transaction has an identifier and no identifier comes twice. *)
Definition submits_once (budget_id : string) (dry_run : bool) (o : outcome) : Prop :=
  if dry_run || bool_decide (is_Some (raised o)) then api_calls o = []
  else ∃ ts, api_calls o = [(budget_id, ts)]
             ∧ Forall (λ t, truthy (import_id t) = true) ts
             ∧ NoDup (import_id <$> ts).

(** A transaction as the loops of the importers build it: no identifier
    yet, and a date of the calendar. *)
Definition new_transaction (t : NewTransaction) : Prop :=
  import_id t = None ∧ datetime.valid_date (var_date t) = true.

(** A row that the Revolut importer passes over: another product, or a
    transfer to a pocket or for a balance migration. *)
Definition passed_over (row : RevolutCsv.row) : Prop :=
  RevolutCsv.Product row ≠ "Current"
  ∨ (RevolutCsv.Type_ row = "Transfer"
     ∧ ((∃ s, RevolutCsv.Description row = "To pocket " +:+ s)
        ∨ RevolutCsv.Description row
          = "Balance migration to another region or legal entity")).

(** The float of an amount of a notification: zero, or at least [2^-7]
    (or plus infinity). *)
Definition zero_or_at_least (x : spec_float) : Prop :=
  x = S754_zero false ∨ at_least (-59) x.

(** A notification that none of the three patterns matches. *)
Definition unknown (n : Notification) : Prop :=
  UBS_CREDIT_CARD_OUTFLOW_REGEXP (message n) = None
  ∧ UBS_CREDIT_CARD_INFLOW_REGEXP (message n) = None
  ∧ UBS_DEBIT_CARD_REGEXP (message n) = None.

(** The text of an account map on the command line. *)
Fixpoint account_map_text (items : list (string * string)) : string :=
  match items with
  | [] => ""
  | (key, value) :: items' =>
      key +:+ "=" +:+ value +:+
      match items' with
      | [] => ""
      | _ => ";" +:+ account_map_text items'
      end
  end.

(** A key or a value that holds neither separator. *)
Definition plain (s : string) : bool := without ";" s && without "=" s.

(** The number of hundredths that the digits of an amount with two
    decimals stand for. *)
Definition hundredths (ds : string) (d1 d2 : ascii) : Z :=
  (read_digits (ds +:+ String d1 (String d2 "")) 0 0).1.1.

(** The identifier fits the field [import_id]. *)
Definition fits (s : string) : bool := (characters s <=? IMPORT_ID_MAX_LENGTH)%nat.

(** The identifiers that one pass over the group of [t] writes all fit. *)
Fixpoint group_fits (start : nat) (t : NewTransaction) (l : list NewTransaction) : bool :=
  match l with
  | [] => true
  | x :: l' =>
      implb (same_date_amount t x) (fits (format_import_id x (start + count_same t l')))
      && group_fits start t l'
  end.

(** The identifiers of rank of the transactions of [ts] whose group has a
    member without identifier in [l] all fit. *)
Definition writes_fit (l ts : list NewTransaction) : bool :=
  forallb (λ p, implb (pending l p.2)
                      (fits (format_import_id p.2 (count_same p.2 (drop (S p.1) ts)))))
          (enumerate ts).

(** Every identifier that the assigner has to write into [ts] fits. *)
Definition accepted (ts : list NewTransaction) : bool := writes_fit ts ts.


(** A text with two decimals, and a number with the sign of such a text. *)
Definition two_decimals (neg : bool) (ds : string) (d1 d2 : ascii) : string :=
  (if neg then "-" else "") +:+ ds +:+ String "." (String d1 (String d2 "")).

Definition signed (neg : bool) (z : Z) : Z := if neg then - z else z.

(** ** Further inputs, in the manner of the test suite *)

(** The rows of the tests of the debit card importer. *)
Definition debit_row (description1 : string) : DebitCsv.row :=
  DebitCsv.Row "2000-01-13" description1 "1.00" "".

Definition debit_fresh (payee : string) : NewTransaction :=
  {| account_id := "some_account_id"; var_date := jan13;
     payee_name := Some payee; amount := 1000;
     cleared := Some CLEARED; import_id := None |}.

Definition debit_tx (payee id : string) : NewTransaction :=
  {| account_id := "some_account_id"; var_date := jan13;
     payee_name := Some payee; amount := 1000;
     cleared := Some CLEARED; import_id := Some id |}.

(** A row with a date that is not in ISO form. *)
Definition undated_row : DebitCsv.row := DebitCsv.Row "13.01.2000" "Third" "1.00" "".

(** A row with an amount of fourteen digits: its identifier has 37
    characters. *)
Definition large_row : DebitCsv.row :=
  DebitCsv.Row "2000-01-13" "Large" "" "-99999999999.99".

(** A row with a payee of 201 characters. *)
Definition long_payee_row : DebitCsv.row := debit_row (zeros 201).

(** A row of the summary that ends a credit card export. *)
Definition summary_row : CreditCsv.row := CreditCsv.Row "" "" "" "" "" "1234.56".

(** A row of another product, with fields that are no date and no numbers. *)
Definition savings_row : RevolutCsv.row :=
  RevolutCsv.Row "Card Payment" "Savings" "not a date" "Interest" "x" "y" "COMPLETED".

(** A notification with a text that no pattern matches. *)
Definition some_notification : Notification :=
  {| date := at_10h 0 0; message := "Some notification" |}.

(** A card charge with a payee of 201 characters, and one with an amount
    of fourteen digits. *)
Definition long_payee_outflow : list Notification :=
  [ {| date := at_10h 0 0; message := card_outflow_text "56.78" "1234" (zeros 201) |} ].

Definition large_outflow : list Notification :=
  [ {| date := at_10h 0 0;
       message := card_outflow_text "99999999999.99" "1234" "PAYEE" |} ].

(** A card inflow between two debits of the account. *)
Definition two_companions : list Notification :=
  [debit_at 0 59; inflow_at_10h;
   {| date := at_10h 0 1; message := account_text "Acc" "debited" "999.99" |}].

(** The HTML of the messages of the test suite: the text between the
    markers, on a line of its own. *)
Definition good_notification (notification_text : string) : string :=
  NOTIFICATION_CONTENT_BEGIN +:+ String newline notification_text +:+
  String newline NOTIFICATION_CONTENT_END.

(** U+00A0, the no-break space, and U+2003, the em space, in UTF-8. *)
Definition no_break_space : string :=
  String (ascii_of_nat 194) (String (ascii_of_nat 160) "").

Definition em_space : string :=
  String (ascii_of_nat 226) (String (ascii_of_nat 128) (String (ascii_of_nat 131) "")).

(** A message that is no notification of the bank. *)
Definition random_email : Mail.message :=
  Mail.Message (at_10h 0 0) "Some random email content".

(** * Properties *)

(** ** The model on inputs of the test suite *)

Example populate_two :
  import_id <$> _populateImportIds
     [tx (datetime.Date 2000 1 13) (-100000) "First" None;
      tx (datetime.Date 2000 1 13) (-100000) "Second" None]
  = [Some "UBS2YNAB:-100000:2000-01-13:1"; Some "UBS2YNAB:-100000:2000-01-13:0"].
Proof. vm_compute. reflexivity. Qed.

Example regexp_examples :
  UBS_CREDIT_CARD_OUTFLOW_REGEXP
    ("CHF 1’256.78 have been charged to card " +:+ quoted ("1234" +:+ quoted
     ". PAYEE. Inc. Available amount: CHF 1234.56"))
  = Some ("1’256.78", "1234", "PAYEE. Inc") ∧
  UBS_CREDIT_CARD_INFLOW_REGEXP
    ("Amount available on card " +:+ quoted ("1234" +:+ quoted ": CHF  1234.56."))
  = Some "1234" ∧
  UBS_DEBIT_CARD_REGEXP
    ("Your account " +:+ quoted ("Checking" +:+ quoted
     (" has been debited CHF 56.78." +:+ String newline "The new account balance")))
  = Some ("Checking", "debited", "56.78") ∧
  UBS_DEBIT_CARD_REGEXP
    ("Your account " +:+ quoted ("A" +:+ quoted (" has been credited CHF 1.00." +:+
      quoted (" has been debited CHF 2.00. tail"))))
  = Some ("A" +:+ quoted " has been credited CHF 1.00.", "debited", "2.00") ∧
  remove_apostrophes "1’256.78" = "1256.78".
Proof. vm_compute. repeat split. Qed.

Example date_examples :
  strptime_dmY "13.01.2000" = inr (datetime.Date 2000 1 13) ∧
  strptime_dmY "3.1.2000" = inr (datetime.Date 2000 1 3) ∧
  strptime_dmY "31.02.2000" = inl ValueError ∧
  strptime_dmY "13.01.2000 " = inl ValueError ∧
  fromisoformat "2020-01-13 19:20:21"
    = inr (datetime.Datetime (datetime.Date 2020 1 13) 19 20 21 0) ∧
  fromisoformat "2025-07-12" = inr (datetime.Datetime (datetime.Date 2025 7 12) 0 0 0 0) ∧
  datetime.toordinal (datetime.Date 2025 1 2) = 739253.
Proof. vm_compute. repeat split. Qed.

Example milliunits_examples :
  milliunits "-50.00" = inr (-50000) ∧ milliunits "2.00" = inr 2000 ∧
  milliunits "56.78" = inr 56780 ∧ milliunits "  12.5 " = inr 12500 ∧
  milliunits "2.01" = inr 2009 ∧
  milliunits "1e400" = inl OverflowError ∧ milliunits "nan" = inl ValueError ∧
  milliunits "abc" = inl ValueError.
Proof. vm_compute. repeat split. Qed.

Example credit_gets_amount_from_debit_email_after :
  importUbsFromEmail
    [ {| date := at_10h 0 0; message := card_inflow_text "1234" |};
      {| date := at_10h 0 59; message := account_text "Acc" "debited" "123.45" |} ]
    "some_budget_id" two_accounts false
  = Outcome [("some_budget_id",
      [ {| account_id := "debit_account_id"; var_date := datetime.Date 2025 1 2;
           payee_name := None; amount := -123450; cleared := None;
           import_id := Some "UBS2YNAB:-123450:2025-01-02:0" |};
        {| account_id := "credit_account_id"; var_date := datetime.Date 2025 1 2;
           payee_name := None; amount := 123450; cleared := None;
           import_id := Some "UBS2YNAB:123450:2025-01-02:0" |} ])] None.
Proof. vm_compute. reflexivity. Qed.

Example credit_not_created_when_debit_email_is_too_after :
  importUbsFromEmail
    [ {| date := at_10h 0 0; message := card_inflow_text "1234" |};
      {| date := at_10h 1 0; message := account_text "Acc" "debited" "123.45" |} ]
    "some_budget_id" two_accounts false
  = Outcome [("some_budget_id",
      [ {| account_id := "debit_account_id"; var_date := datetime.Date 2025 1 2;
           payee_name := None; amount := -123450; cleared := None;
           import_id := Some "UBS2YNAB:-123450:2025-01-02:0" |} ])] None.
Proof. vm_compute. reflexivity. Qed.

(** ** The identifier assigner *)

Section assigner.

Implicit Types (t u x : NewTransaction) (ts l : list NewTransaction).

Lemma same_date_amount_refl t : same_date_amount t t = true.
Proof. unfold same_date_amount. by rewrite !bool_decide_eq_true_2. Qed.

Lemma same_date_amount_keys t x :
  same_date_amount t x = true ↔ var_date x = var_date t ∧ amount x = amount t.
Proof.
  unfold same_date_amount.
  rewrite andb_true_iff, !bool_decide_eq_true. tauto.
Qed.

Lemma same_date_amount_trans t u x :
  same_date_amount t u = true → same_date_amount u x = same_date_amount t x.
Proof.
  intros [Hd Ha]%same_date_amount_keys.
  unfold same_date_amount. by rewrite Hd, Ha.
Qed.

Lemma same_date_amount_sym t u :
  same_date_amount t u = same_date_amount u t.
Proof.
  unfold same_date_amount.
  apply eq_true_iff_eq.
  rewrite !andb_true_iff, !bool_decide_eq_true. split; intros [-> ->]; done.
Qed.

Lemma same_date_amount_set_r t x s :
  same_date_amount t (set_import_id x s) = same_date_amount t x.
Proof. reflexivity. Qed.

Lemma count_same_app t l1 l2 :
  count_same t (l1 ++ l2) = (count_same t l1 + count_same t l2)%nat.
Proof. unfold count_same. by rewrite filter_app, length_app. Qed.

Lemma count_same_cons t x l :
  count_same t (x :: l)
  = ((if same_date_amount t x then 1 else 0) + count_same t l)%nat.
Proof.
  unfold count_same. rewrite filter_cons.
  destruct (same_date_amount t x); case_decide; simpl; congruence.
Qed.

Lemma count_same_nil t : count_same t [] = 0%nat.
Proof. reflexivity. Qed.

Lemma renumber_from_snoc start t l x :
  renumber_from start t (l ++ [x])
  = renumber_from (start + (if same_date_amount t x then 1 else 0)) t l
    ++ [if same_date_amount t x
        then set_import_id x (format_import_id x start) else x].
Proof.
  induction l as [|y l IH]; cbn [renumber_from app].
  - rewrite count_same_nil, Nat.add_0_r. done.
  - rewrite IH. f_equal.
    destruct (same_date_amount t y); [|done].
    do 2 f_equal. rewrite count_same_app, count_same_cons, count_same_nil.
    destruct (same_date_amount t x); lia.
Qed.

Lemma renumber_from_lookup start t l i :
  renumber_from start t l !! i
  = (λ x, if same_date_amount t x
          then set_import_id x
                 (format_import_id x (start + count_same t (drop (S i) l)))
          else x) <$> l !! i.
Proof.
  revert i. induction l as [|y l IH]; intros [|i]; simpl; auto.
Qed.

Lemma enumerate_from_snoc {A} (k : nat) (l : list A) (x : A) :
  enumerate_from k (l ++ [x]) = enumerate_from k l ++ [((k + length l)%nat, x)].
Proof.
  revert k. induction l as [|y l IH]; intros k; simpl.
  - by rewrite Nat.add_0_r.
  - rewrite IH. by replace (S k + length l)%nat with (k + S (length l))%nat by lia.
Qed.

(** The inner loop, run on the reversed indices of a group, numbers the
    group from its last member back to its first. *)
Lemma assign_group pre suf post start t :
  foldl assign_import_id (pre ++ suf ++ post)
    (enumerate_from start
       (reverse (filter (λ p, same_date_amount t p.2 = true)
                        (enumerate_from (length pre) suf)).*1))
  = pre ++ renumber_from start t suf ++ post.
Proof.
  revert post start.
  induction suf as [|x suf IH] using rev_ind; intros post start; [done|].
  rewrite enumerate_from_snoc, filter_app, fmap_app, reverse_app.
  rewrite renumber_from_snoc, filter_cons, filter_nil. cbn [snd].
  rewrite <- !(assoc_L (++)). cbn [app].
  destruct (same_date_amount t x) eqn:Hx; case_decide; try congruence.
  - cbn [fmap list_fmap fst reverse rev_append app enumerate_from foldl].
    assert ((pre ++ suf ++ x :: post) !! (length pre + length suf)%nat = Some x)
      as Hl.
    { rewrite (assoc_L (++)), <- length_app. by apply list_lookup_middle. }
    assert (∀ y, <[(length pre + length suf)%nat := y]> (pre ++ suf ++ x :: post)
                 = pre ++ suf ++ y :: post) as Hi.
    { intros y. rewrite (assoc_L (++)), <- length_app.
      rewrite <- (Nat.add_0_r (length (pre ++ suf))), insert_app_r.
      by rewrite <- (assoc_L (++)). }
    unfold assign_import_id at 2. rewrite Hl, Hi.
    rewrite (IH (_ :: post) (S start)).
    by replace (start + 1)%nat with (S start) by lia.
  - cbn [fmap list_fmap reverse rev_append app].
    rewrite (IH (x :: post) start).
    by rewrite Nat.add_0_r.
Qed.

Lemma populate_at_unassigned ts i t :
  ts !! i = Some t → truthy (import_id t) = false →
  populate_at ts i = renumber_from 0 t ts.
Proof.
  intros Hi Ht. unfold populate_at. rewrite Hi, Ht.
  pose proof (assign_group [] ts [] 0 t) as H.
  rewrite !app_nil_r in H. exact H.
Qed.

Lemma populate_at_assigned ts i t :
  ts !! i = Some t → truthy (import_id t) = true → populate_at ts i = ts.
Proof. intros Hi Ht. unfold populate_at. by rewrite Hi, Ht. Qed.

Lemma pending_nil t : pending [] t = false.
Proof. unfold pending. apply bool_decide_eq_false_2. by intros H%Exists_nil. Qed.

Lemma pending_snoc l u t :
  pending (l ++ [u]) t
  = pending l t || (same_date_amount t u && negb (truthy (import_id u))).
Proof.
  unfold pending. apply eq_true_iff_eq.
  rewrite orb_true_iff, andb_true_iff, negb_true_iff, !bool_decide_eq_true.
  rewrite Exists_app, Exists_cons, Exists_nil. tauto.
Qed.

Lemma pending_same l t u :
  same_date_amount t u = true → pending l u = pending l t.
Proof.
  intros Htu. unfold pending. apply bool_decide_ext.
  split; intros H; eapply Exists_impl; try exact H; intros x; simpl;
    by rewrite (same_date_amount_trans t u x Htu).
Qed.

Lemma count_same_same t u l :
  same_date_amount t u = true → count_same u l = count_same t l.
Proof.
  intros Htu. induction l as [|x l IH]; [done|].
  by rewrite !count_same_cons, IH, (same_date_amount_trans t u x Htu).
Qed.

(** Lists that agree on dates and amounts have the same counts. *)
Lemma count_same_keys t l1 l2 :
  Forall2 (λ a b, same_date_amount t a = same_date_amount t b) l1 l2 →
  count_same t l1 = count_same t l2.
Proof.
  induction 1 as [|a b l1 l2 Hab _ IH]; [done|].
  by rewrite !count_same_cons, Hab, IH.
Qed.

Lemma renumber_from_imap t l :
  renumber_from 0 t l
  = imap (λ i x, if same_date_amount t x then ranked l i x else x) l.
Proof.
  apply list_eq. intros i.
  rewrite renumber_from_lookup, list_lookup_imap.
  destruct (l !! i) as [x|]; [|done]. simpl.
  destruct (same_date_amount t x) eqn:Hx; [|done].
  unfold ranked. by rewrite (count_same_same t x).
Qed.

(** The state of the list after the first [k] rounds of the outer loop. *)
Lemma populate_prefix ts k :
  (k ≤ length ts)%nat →
  foldl populate_at ts (seq 0 k)
  = imap (λ i x, if pending (take k ts) x then ranked ts i x else x) ts.
Proof.
  induction k as [|k IH]; intros Hk.
  - simpl. apply list_eq. intros i. rewrite list_lookup_imap.
    by destruct (ts !! i) as [x|].
  - rewrite seq_S, foldl_app, IH by lia. simpl.
    destruct (lookup_lt_is_Some_2 ts k) as [tk Htk]; [lia|].
    rewrite (take_S_r _ _ _ Htk).
    set (st := imap _ ts).
    assert (HS : ∀ i, st !! i = (λ x, if pending (take k ts) x
                                     then ranked ts i x else x) <$> ts !! i).
    { intros i. unfold st. by rewrite list_lookup_imap. }
    assert (Hkeys : ∀ t, Forall2 (λ a b, same_date_amount t a = same_date_amount t b) st ts).
    { intros t. apply Forall2_lookup. intros i. rewrite HS.
      destruct (ts !! i) as [x|]; constructor.
      by destruct (pending (take k ts) x). }
    apply list_eq. intros i. rewrite list_lookup_imap.
    destruct (pending (take k ts) tk) eqn:Hpk.
    + (* the transaction at [k] is already assigned: nothing changes *)
      rewrite (populate_at_assigned st k (ranked ts k tk)); cycle 1.
      { by rewrite HS, Htk; simpl; rewrite Hpk. }
      { done. }
      rewrite HS. destruct (ts !! i) as [x|]; [|done]. simpl.
      rewrite pending_snoc.
      destruct (same_date_amount x tk) eqn:Hx; [|by rewrite orb_false_r].
      by rewrite <- (pending_same _ _ _ Hx), Hpk.
    + destruct (truthy (import_id tk)) eqn:Htr.
      * rewrite (populate_at_assigned st k tk); cycle 1.
        { by rewrite HS, Htk; simpl; rewrite Hpk. }
        { done. }
        rewrite HS. destruct (ts !! i) as [x|]; [|done]. simpl.
        by rewrite pending_snoc, Htr, andb_false_r, orb_false_r.
      * rewrite (populate_at_unassigned st k tk); cycle 1.
        { by rewrite HS, Htk; simpl; rewrite Hpk. }
        { done. }
        rewrite renumber_from_lookup, HS.
        destruct (ts !! i) as [x|]; [|done]. simpl.
        rewrite pending_snoc, Htr, andb_true_r.
        rewrite (same_date_amount_sym x tk).
        destruct (same_date_amount tk x) eqn:Hx.
        -- rewrite (pending_same _ _ _ Hx), Hpk. simpl.
           rewrite Hx. unfold ranked. do 3 f_equal.
           rewrite (count_same_same tk x) by done.
           apply count_same_keys, Forall2_drop, Hkeys.
        -- rewrite orb_false_r.
           destruct (pending (take k ts) x); [|by rewrite Hx].
           change (same_date_amount tk (ranked ts i x))
             with (same_date_amount tk x).
           by rewrite Hx.
Qed.

(** What [_populateImportIds] does to a batch: a transaction whose
    group has a member without identifier gets the identifier of its
    rank, every other transaction stays as it is. *)
Lemma populate_spec ts :
  _populateImportIds ts
  = imap (λ i x, if pending ts x then ranked ts i x else x) ts.
Proof.
  unfold _populateImportIds.
  rewrite populate_prefix by done. by rewrite firstn_all.
Qed.

Lemma populate_lookup ts i x :
  ts !! i = Some x →
  _populateImportIds ts !! i
  = Some (if pending ts x then ranked ts i x else x).
Proof. intros Hi. by rewrite populate_spec, list_lookup_imap, Hi. Qed.

Lemma populate_length ts : length (_populateImportIds ts) = length ts.
Proof. by rewrite populate_spec, length_imap. Qed.

(** Only [import_id] is written. *)
Lemma populate_frame ts :
  (λ x, set_import_id x "") <$> _populateImportIds ts
  = (λ x, set_import_id x "") <$> ts.
Proof.
  apply list_eq. intros i. rewrite !list_lookup_fmap.
  destruct (ts !! i) as [x|] eqn:Hi.
  - rewrite (populate_lookup _ _ _ Hi). simpl. by destruct (pending ts x).
  - apply lookup_ge_None in Hi.
    rewrite (lookup_ge_None_2 (_populateImportIds ts)); [done|].
    by rewrite populate_length.
Qed.

Lemma filter_imap_ext {A} (P : A → Prop) `{∀ a, Decision (P a)}
    (f g : nat → A → A) (al : list A) :
  (∀ i a, al !! i = Some a → (P (f i a) ↔ P (g i a)) ∧ (P (f i a) → f i a = g i a)) →
  filter P (imap f al) = filter P (imap g al).
Proof.
  revert f g. induction al as [|a al IH]; intros f g Hfg; [done|].
  cbn [imap]. rewrite !filter_cons.
  destruct (Hfg 0%nat a eq_refl) as [Hiff Heq].
  rewrite (IH (f ∘ S) (g ∘ S)) by (intros i y Hy; apply (Hfg (S i) y Hy)).
  destruct (decide (P (f 0%nat a))) as [Hf|Hf];
    destruct (decide (P (g 0%nat a))) as [Hg|Hg]; try tauto.
  by rewrite (Heq Hf).
Qed.

Lemma format_import_id_same t x n :
  same_date_amount t x = true → format_import_id x n = format_import_id t n.
Proof.
  intros [Hd Ha]%same_date_amount_keys.
  unfold format_import_id. by rewrite Hd, Ha.
Qed.

(** A pass over one group, read in list order, numbers it downwards. *)
Lemma renumber_from_ids t l :
  import_id <$> filter (λ x, same_date_amount t x = true) (renumber_from 0 t l)
  = (λ o, Some (format_import_id t o)) <$> reverse (seq 0 (count_same t l)).
Proof.
  induction l as [|x l IH]; [done|].
  cbn [renumber_from]. rewrite filter_cons, count_same_cons.
  destruct (same_date_amount t x) eqn:Hx.
  - rewrite same_date_amount_set_r, Hx.
    case_decide; [|done]. cbn [fmap list_fmap import_id set_import_id].
    rewrite IH. replace (1 + count_same t l)%nat with (S (count_same t l)) by lia.
    rewrite seq_S, reverse_app. cbn [reverse rev_append app fmap list_fmap].
    by rewrite (format_import_id_same t x).
  - rewrite Hx. case_decide; [done|]. by rewrite IH.
Qed.

End assigner.

Lemma append_inj_l (s a b : string) : s +:+ a = s +:+ b → a = b.
Proof. induction s as [|c s IH]; simpl; [done|]. intros [=]. auto. Qed.

(** Two ordinals give two identifiers. *)
Lemma format_import_id_inj t n m :
  format_import_id t n = format_import_id t m → n = m.
Proof.
  unfold format_import_id. intros H.
  do 5 apply append_inj_l in H. by apply (inj pretty) in H.
Qed.

(** C1. For a batch in new-to-old order and a group of transactions with
    the same date and amount that the assigner numbers (some member has no
    identifier yet), the identifiers of the group, read in batch order,
    carry the ordinals [n-1, ..., 1, 0], where [n] is the size of the
    group: the oldest member gets 0, each newer one the next integer,
    without gap or repeat; two ordinals never give the same identifier. *)
Theorem populateImportIds_ordinals (ts : list NewTransaction) (t : NewTransaction) :
  (∃ u, u ∈ ts ∧ same_date_amount t u = true ∧ truthy (import_id u) = false) →
  import_id <$> filter (λ x, same_date_amount t x = true) (_populateImportIds ts)
  = (λ o, Some (format_import_id t o)) <$> reverse (seq 0 (count_same t ts))
  ∧ (∀ n m, format_import_id t n = format_import_id t m → n = m).
Proof.
  intros Hpending. split; [|apply format_import_id_inj].
  assert (pending ts t = true) as Hp.
  { apply bool_decide_eq_true_2, Exists_exists. destruct Hpending as (u & ? & ?).
    by exists u. }
  rewrite <- renumber_from_ids. f_equal.
  rewrite populate_spec, renumber_from_imap.
  apply filter_imap_ext. intros i x Hx.
  destruct (same_date_amount t x) eqn:Htx.
  - rewrite (pending_same _ _ _ Htx), Hp. done.
  - destruct (pending ts x); [|done].
    change (same_date_amount t (ranked ts i x)) with (same_date_amount t x).
    rewrite Htx. split; [done|]. intros [=].
Qed.

Lemma populateImportIds_ordinals_witness :
  (∃ u, u ∈ batch_fresh ∧ same_date_amount (tx jan13 (-100000) "First" None) u = true
        ∧ truthy (import_id u) = false)
  ∧ import_id <$> filter (λ x, same_date_amount (tx jan13 (-100000) "First" None) x = true)
                         (_populateImportIds batch_fresh)
    = [Some "UBS2YNAB:-100000:2000-01-13:2"; Some "UBS2YNAB:-100000:2000-01-13:1";
       Some "UBS2YNAB:-100000:2000-01-13:0"].
Proof.
  assert (∃ u, u ∈ batch_fresh ∧ same_date_amount (tx jan13 (-100000) "First" None) u = true
               ∧ truthy (import_id u) = false) as H.
  { exists (tx jan13 (-100000) "First" None). split; [|done].
    unfold batch_fresh. set_solver. }
  split; [exact H|].
  exact (proj1 (populateImportIds_ordinals batch_fresh _ H)).
Defined.

(** C6. Running the assigner over a batch in which every transaction
    already has an identifier changes nothing. *)
Theorem populateImportIds_idempotent (ts : list NewTransaction) :
  Forall (λ t, truthy (import_id t) = true) ts →
  _populateImportIds ts = ts.
Proof.
  intros Hall. rewrite populate_spec.
  apply list_eq. intros i. rewrite list_lookup_imap.
  destruct (ts !! i) as [x|] eqn:Hi; [|done]. simpl.
  replace (pending ts x) with false; [done|].
  symmetry. apply bool_decide_eq_false_2. intros (u & Hu & _ & Hf)%Exists_exists.
  rewrite Forall_forall in Hall. specialize (Hall u Hu). congruence.
Qed.

Lemma populateImportIds_idempotent_witness :
  Forall (λ t, truthy (import_id t) = true) batch_assigned
  ∧ _populateImportIds batch_assigned = batch_assigned.
Proof.
  assert (Forall (λ t, truthy (import_id t) = true) batch_assigned) as H.
  { repeat constructor. }
  split; [exact H|]. exact (populateImportIds_idempotent batch_assigned H).
Defined.

(** C4, as stated, fails: an identifier that is there before the run is
    overwritten when another transaction of the same date and amount has
    none. *)
Lemma assigned_is_revisited :
  batch_mixed !! 0%nat = Some (tx jan13 (-100000) "Second" (Some "kept?"))
  ∧ truthy (Some "kept?") = true
  ∧ import_id <$> _populateImportIds batch_mixed !! 0%nat
    = Some (Some "UBS2YNAB:-100000:2000-01-13:1")
  ∧ import_id <$> _populateImportIds batch_mixed !! 0%nat
    ≠ Some (Some "kept?").
Proof. vm_compute. repeat split; congruence. Qed.

(** C4, amended. A transaction that has an identifier before the run
    keeps it (and all its fields) when every transaction of the batch with
    its date and amount has one too; when one of them has none, the whole
    group is numbered anew and the transaction gets the identifier of its
    rank in the group. *)
Theorem populateImportIds_keeps_assigned
    (ts : list NewTransaction) (i : nat) (t : NewTransaction) :
  ts !! i = Some t →
  truthy (import_id t) = true →
  ((∀ u, u ∈ ts → same_date_amount t u = true → truthy (import_id u) = true) →
   _populateImportIds ts !! i = Some t)
  ∧ ((∃ u, u ∈ ts ∧ same_date_amount t u = true ∧ truthy (import_id u) = false) →
     _populateImportIds ts !! i = Some (ranked ts i t)).
Proof.
  intros Hi _. rewrite (populate_lookup _ _ _ Hi). split.
  - intros Hgroup. replace (pending ts t) with false; [done|].
    symmetry. apply bool_decide_eq_false_2.
    intros (u & Hu & Hs & Hf)%Exists_exists.
    specialize (Hgroup u Hu Hs). congruence.
  - intros (u & Hu). replace (pending ts t) with true; [done|].
    symmetry. apply bool_decide_eq_true_2, Exists_exists. by exists u.
Qed.

Lemma populateImportIds_keeps_assigned_witness :
  batch_assigned !! 1%nat = Some (tx jan13 (-100000) "First" (Some "UBS2YNAB:-100000:2000-01-13:0"))
  ∧ truthy (Some "UBS2YNAB:-100000:2000-01-13:0") = true
  ∧ _populateImportIds batch_assigned !! 1%nat
    = Some (tx jan13 (-100000) "First" (Some "UBS2YNAB:-100000:2000-01-13:0")).
Proof.
  split; [reflexivity|]. split; [reflexivity|].
  refine (proj1 (populateImportIds_keeps_assigned batch_assigned 1 _ eq_refl eq_refl) _).
  intros u Hu _. unfold batch_assigned in Hu.
  apply elem_of_cons in Hu as [->|Hu]; [reflexivity|].
  apply elem_of_cons in Hu as [->|Hu]; [reflexivity|].
  by apply elem_of_nil in Hu.
Defined.

(** ** The CSV importers *)

Lemma populate_cleared (ts : list NewTransaction) :
  cleared <$> _populateImportIds ts = cleared <$> ts.
Proof.
  pose proof (populate_frame ts) as H.
  apply (f_equal (fmap cleared)) in H.
  by rewrite <- !list_fmap_compose in H.
Qed.

(** C10. A credit card row whose Credit and Debit fields are both empty
    gives an uncleared transaction, whatever its booking text, and the
    assigner, which is all that runs between the rows and the API call,
    leaves that mark as it is. *)
Theorem sign_inferred_row_is_uncleared
    (account_id : string) (row : CreditCsv.row) (t : NewTransaction) :
  CreditCsv.Credit row = "" →
  CreditCsv.Debit row = "" →
  credit_transaction account_id row = inr t →
  cleared t = Some UNCLEARED
  ∧ (∀ ts, cleared <$> _populateImportIds ts = cleared <$> ts).
Proof.
  intros Hc Hd Ht. split; [|apply populate_cleared].
  unfold credit_transaction in Ht. rewrite Hc, Hd in Ht. simpl in Ht.
  destruct (strptime_dmY _) as [|d]; simpl in Ht; [done|].
  destruct (validated _ _) as [|payee]; simpl in Ht; [done|].
  destruct (milliunits _) as [|a]; simpl in Ht; [done|].
  by injection Ht as <-.
Qed.

Lemma sign_inferred_row_is_uncleared_witness :
  CreditCsv.Credit just_amount_row = ""
  ∧ CreditCsv.Debit just_amount_row = ""
  ∧ credit_transaction "some_account_id" just_amount_row = inr just_amount_transaction
  ∧ cleared just_amount_transaction = Some UNCLEARED.
Proof.
  split; [reflexivity|]. split; [reflexivity|].
  assert (credit_transaction "some_account_id" just_amount_row
          = inr just_amount_transaction) as H by (vm_compute; reflexivity).
  split; [exact H|].
  exact (proj1 (sign_inferred_row_is_uncleared
                  "some_account_id" just_amount_row just_amount_transaction
                  eq_refl eq_refl H)).
Defined.

(** C8. The amount of a Revolut transaction is the milliunits of the
    Amount field minus the milliunits of the Fee field, each computed by
    [int(float(...) * 1000)].  The row of the test suite, with amount
    -50.00 and fee 2.00, gives -52000, the minor units of amount minus
    fee.  The row with amount -50.00 and fee 2.01 gives -52009: the float
    of 2.01 times 1000 lies just below 2010 and [int] cuts it to 2009,
    while amount minus fee is -52.01, that is -52010 minor units. *)
Theorem revolut_amount_minus_fee :
  revolut_transaction "some_account_id" fee_row = inr (Some fee_transaction)
  ∧ amount fee_transaction = 10 * (- hundredths "50" "0" "0" - hundredths "2" "0" "0")
  ∧ revolut_transaction "some_account_id" cent_fee_row = inr (Some cent_fee_transaction)
  ∧ amount cent_fee_transaction = -52009
  ∧ 10 * (- hundredths "50" "0" "0" - hundredths "2" "0" "1") = -52010
  ∧ milliunits (RevolutCsv.Amount cent_fee_row) = inr (-50000)
  ∧ milliunits (RevolutCsv.Fee cent_fee_row) = inr 2009.
Proof. repeat split; vm_compute; reflexivity. Qed.







(** ** The notification importer *)

Lemma strip_prefix_head (a : ascii) (p s r : string) :
  strip_prefix (String a p) s = Some r → ∃ s', s = String a s'.
Proof.
  destruct s as [|b s]; simpl; [done|].
  case_bool_decide; [|done]. subst. eauto.
Qed.

(** A text that matches the inflow pattern does not match the outflow
    pattern, which is tried first. *)
Lemma inflow_is_not_outflow (text card : string) :
  UBS_CREDIT_CARD_INFLOW_REGEXP text = Some card →
  UBS_CREDIT_CARD_OUTFLOW_REGEXP text = None.
Proof.
  unfold UBS_CREDIT_CARD_INFLOW_REGEXP.
  destruct (strip_prefix _ text) as [r|] eqn:Hp; [|done]. intros _.
  apply strip_prefix_head in Hp as [s' ->]. reflexivity.
Qed.

Lemma look_at_far (n nn : Notification) (debit_sum : spec_float) :
  debit_nearby n nn (UBS_DEBIT_CARD_REGEXP (message nn)) = false →
  look_at n nn debit_sum = inr debit_sum.
Proof. intros H. unfold look_at. by rewrite H. Qed.

Lemma look_at_near (n nn : Notification) (debit_sum : spec_float) (g1 g2 g3 : string) :
  UBS_DEBIT_CARD_REGEXP (message nn) = Some (g1, g2, g3) →
  debit_nearby n nn (UBS_DEBIT_CARD_REGEXP (message nn)) = true →
  look_at n nn debit_sum = float_amount g3.
Proof. intros Hre H. unfold look_at. rewrite H. by rewrite Hre. Qed.

(** C2. For an inflow notification [n] and a neighbour [nn] that is a
    debit notification of an account, the neighbour counts as companion
    exactly when the two times differ by less than 60 seconds: at 60
    seconds it does not, at 59 seconds it does.  When it counts, its
    amount becomes the guessed sum; when not, the sum stays. *)
Theorem companion_within_60_seconds
    (n nn : Notification) (g1 g3 : string) (debit_sum : spec_float) :
  UBS_DEBIT_CARD_REGEXP (message nn) = Some (g1, "debited", g3) →
  let delta := Z.abs (datetime.sub (date nn) (date n)) in
  let companion := debit_nearby n nn (UBS_DEBIT_CARD_REGEXP (message nn)) in
  (companion = true ↔ delta < datetime.seconds 60)
  ∧ (delta = datetime.seconds 60 → companion = false)
  ∧ (delta = datetime.seconds 59 → companion = true)
  ∧ look_at n nn debit_sum = (if companion then float_amount g3 else inr debit_sum).
Proof.
  intros Hre delta companion.
  assert (companion = (delta <? 60000000)) as Hc.
  { unfold companion, debit_nearby. rewrite Hre. simpl. by rewrite andb_true_r. }
  unfold datetime.seconds. rewrite Hc.
  split; [apply Z.ltb_lt|]. split; [intros ->; reflexivity|].
  split; [intros ->; reflexivity|].
  destruct (delta <? 60000000) eqn:Hd.
  - apply (look_at_near n nn debit_sum g1 "debited" g3 Hre). fold companion. by rewrite Hc.
  - apply look_at_far. fold companion. by rewrite Hc.
Qed.

Lemma companion_within_60_seconds_witness :
  UBS_DEBIT_CARD_REGEXP (message (debit_at 0 59)) = Some ("Acc", "debited", "123.45")
  ∧ debit_nearby inflow_at_10h (debit_at 0 59)
      (UBS_DEBIT_CARD_REGEXP (message (debit_at 0 59))) = true
  ∧ UBS_DEBIT_CARD_REGEXP (message (debit_at 1 0)) = Some ("Acc", "debited", "123.45")
  ∧ debit_nearby inflow_at_10h (debit_at 1 0)
      (UBS_DEBIT_CARD_REGEXP (message (debit_at 1 0))) = false.
Proof.
  assert (UBS_DEBIT_CARD_REGEXP (message (debit_at 0 59))
          = Some ("Acc", "debited", "123.45")) as H59 by (vm_compute; reflexivity).
  assert (UBS_DEBIT_CARD_REGEXP (message (debit_at 1 0))
          = Some ("Acc", "debited", "123.45")) as H60 by (vm_compute; reflexivity).
  split; [exact H59|]. split.
  - apply (companion_within_60_seconds inflow_at_10h (debit_at 0 59)
             "Acc" "123.45" (S754_zero false) H59).
    vm_compute. reflexivity.
  - split; [exact H60|].
    apply (companion_within_60_seconds inflow_at_10h (debit_at 1 0)
             "Acc" "123.45" (S754_zero false) H60).
    vm_compute. reflexivity.
Defined.

(** With no companion on either side the guessed sum stays zero. *)
Lemma guess_debit_sum_none (notifications : list Notification) (i : nat)
    (n : Notification) :
  (∀ nn, (0 < i)%nat → notifications !! (i - 1)%nat = Some nn →
         debit_nearby n nn (UBS_DEBIT_CARD_REGEXP (message nn)) = false) →
  (∀ nn, notifications !! (i + 1)%nat = Some nn →
         debit_nearby n nn (UBS_DEBIT_CARD_REGEXP (message nn)) = false) →
  guess_debit_sum notifications i n = inr (S754_zero false).
Proof.
  intros Hbefore Hafter. unfold guess_debit_sum.
  assert ((if (0 <? i)%nat
           then match notifications !! (i - 1)%nat with
                | Some nn => look_at n nn (S754_zero false)
                | None => inr (S754_zero false)
                end
           else inr (S754_zero false)) = inr (S754_zero false)) as ->.
  { destruct (0 <? i)%nat eqn:Hi; [|done].
    apply Nat.ltb_lt in Hi.
    destruct (notifications !! (i - 1)%nat) as [nn|] eqn:Hnn; [|done].
    apply look_at_far. by apply Hbefore. }
  simpl. destruct (i <? length notifications - 1)%nat; [|done].
  destruct (notifications !! (i + 1)%nat) as [nn|] eqn:Hnn; [|done].
  apply look_at_far. by apply Hafter.
Qed.

(** C5. An inflow notification with no companion, neither right before
    nor right after it, adds no transaction (so none with a zero or
    made-up amount), raises nothing, whatever the account map holds, and
    the loop goes on with the notifications that remain. *)
Theorem uncorrelated_inflow_is_dropped
    (account_map : gmap string string) (notifications : list Notification)
    (i : nat) (n : Notification) (card : string)
    (transactions : list NewTransaction) (rest : list (nat * Notification)) :
  UBS_CREDIT_CARD_INFLOW_REGEXP (message n) = Some card →
  (∀ nn, (0 < i)%nat → notifications !! (i - 1)%nat = Some nn →
         debit_nearby n nn (UBS_DEBIT_CARD_REGEXP (message nn)) = false) →
  (∀ nn, notifications !! (i + 1)%nat = Some nn →
         debit_nearby n nn (UBS_DEBIT_CARD_REGEXP (message nn)) = false) →
  notification_transaction account_map notifications i n = inr None
  ∧ for_each (notification_step account_map notifications) transactions ((i, n) :: rest)
    = for_each (notification_step account_map notifications) transactions rest.
Proof.
  intros Hin Hbefore Hafter.
  assert (notification_transaction account_map notifications i n = inr None) as Hnone.
  { unfold notification_transaction.
    rewrite (inflow_is_not_outflow _ _ Hin), Hin.
    by rewrite (guess_debit_sum_none _ _ _ Hbefore Hafter). }
  split; [exact Hnone|].
  cbn [for_each]. unfold notification_step at 1. cbn [fst snd].
  by rewrite Hnone.
Qed.

Lemma uncorrelated_inflow_is_dropped_witness :
  UBS_CREDIT_CARD_INFLOW_REGEXP (message inflow_at_10h) = Some "1234"
  ∧ notification_transaction ∅ inflow_then_late_debit 0 inflow_at_10h = inr None.
Proof.
  split; [vm_compute; reflexivity|].
  refine (proj1 (uncorrelated_inflow_is_dropped
                   ∅ inflow_then_late_debit 0 inflow_at_10h "1234" [] [] _ _ _)).
  - vm_compute. reflexivity.
  - intros nn Hi. lia.
  - intros nn [= <-]. vm_compute. reflexivity.
Defined.

Lemma enumerate_from_lookup {A} (k : nat) (l : list A) (i : nat) :
  enumerate_from k l !! i = (λ x, ((k + i)%nat, x)) <$> l !! i.
Proof.
  revert k i. induction l as [|x l IH]; intros k [|i]; simpl; [done..| |].
  - by rewrite Nat.add_0_r.
  - rewrite IH. by replace (S k + i)%nat with (k + S i)%nat by lia.
Qed.

(** A loop whose body raises at some item, whatever the state then is,
    ends with an exception. *)
Lemma for_each_raises {S A} (body : S → A → exception + S) (l : list A) (x : A) :
  x ∈ l → (∀ s, ∃ e, body s x = inl e) →
  ∀ s, ∃ e, for_each body s l = inl e.
Proof.
  intros Hx Hraise. induction l as [|y l IH]; intros s.
  - by apply elem_of_nil in Hx.
  - simpl. destruct (body s y) as [e|s'] eqn:Hy; simpl; [by exists e|].
    apply elem_of_cons in Hx as [->|Hx].
    + destruct (Hraise s) as [e He]. congruence.
    + by apply IH.
Qed.

Lemma account_of_unmapped (account_map : gmap string string) (kind alias : string) :
  account_map !! alias = None →
  account_of account_map kind alias = inl (KeyError alias).
Proof. intros H. unfold account_of. by rewrite H. Qed.

(** A text that matches the account pattern matches neither card pattern. *)
Lemma account_is_not_card (text : string) (g : string * string * string) :
  UBS_DEBIT_CARD_REGEXP text = Some g →
  UBS_CREDIT_CARD_OUTFLOW_REGEXP text = None
  ∧ UBS_CREDIT_CARD_INFLOW_REGEXP text = None.
Proof.
  unfold UBS_DEBIT_CARD_REGEXP.
  destruct (strip_prefix _ text) as [r|] eqn:Hp; [|done]. intros _.
  apply strip_prefix_head in Hp as [s' ->]. split; reflexivity.
Qed.

Lemma lookup_of_unmapped_raises (account_map : gmap string string)
    (notifications : list Notification) (i : nat) (n : Notification) (alias : string) :
  looks_up notifications i n alias →
  account_map !! alias = None →
  ∃ e, notification_transaction account_map notifications i n = inl e.
Proof.
  intros Hlook Hmap. unfold notification_transaction.
  destruct Hlook as [(g1 & payee & Hout)|[(action & g3 & Hacc)|(Hin & x & Hx & Hpos)]].
  - rewrite Hout. destruct (float_amount g1) as [e|sum]; simpl; [by exists e|].
    rewrite (account_of_unmapped _ _ _ Hmap). simpl. eauto.
  - destruct (account_is_not_card _ _ Hacc) as [-> ->]. rewrite Hacc.
    destruct (float_amount g3) as [e|sum]; simpl; [by exists e|].
    rewrite (account_of_unmapped _ _ _ Hmap). simpl. eauto.
  - rewrite (inflow_is_not_outflow _ _ Hin), Hin, Hx. simpl. rewrite Hpos.
    rewrite (account_of_unmapped _ _ _ Hmap). simpl. eauto.
Qed.

(** C9, as stated, fails: an inflow notification without companion whose
    card is not in the account map is skipped, and the (empty) batch is
    still sent to the API. *)
Lemma unmapped_inflow_is_skipped :
  UBS_CREDIT_CARD_INFLOW_REGEXP (message inflow_at_10h) = Some "1234"
  ∧ (∅ : gmap string string) !! "1234" = None
  ∧ importUbsFromEmail lone_inflow "some_budget_id" ∅ false
    = Outcome [("some_budget_id", [])] None.
Proof. vm_compute. repeat split. Qed.

(** C9, amended. When the round for some notification looks up an alias
    that is not a key of the account map (the card of an outflow
    notification, the account of an account notification, or the card of
    an inflow notification for which a sum was found), the import ends
    with an exception and makes no call to the API. *)
Theorem unmapped_alias_is_fatal
    (notifications : list Notification) (budget_id : string)
    (account_map : gmap string string) (dry_run : bool)
    (i : nat) (n : Notification) (alias : string) :
  notifications !! i = Some n →
  looks_up notifications i n alias →
  account_map !! alias = None →
  ∃ e, importUbsFromEmail notifications budget_id account_map dry_run
       = Outcome [] (Some e).
Proof.
  intros Hi Hlook Hmap.
  destruct (lookup_of_unmapped_raises account_map _ _ _ _ Hlook Hmap) as [e He].
  assert ((i, n) ∈ enumerate notifications) as Hin.
  { apply list_elem_of_lookup. exists i.
    unfold enumerate. by rewrite enumerate_from_lookup, Hi. }
  destruct (for_each_raises (notification_step account_map notifications)
              (enumerate notifications) (i, n) Hin) with (s := @nil NewTransaction)
    as [e' He'].
  { intros s. exists e. unfold notification_step. cbn [fst snd]. by rewrite He. }
  exists e'. unfold importUbsFromEmail.
  destruct notifications as [|n0 ns]; [done|]. by rewrite He'.
Qed.

Lemma unmapped_alias_is_fatal_witness :
  lone_outflow !! 0%nat
  = Some {| date := at_10h 0 0; message := card_outflow_text "56.78" "1234" "PAYEE" |}
  ∧ (∅ : gmap string string) !! "1234" = None
  ∧ ∃ e, importUbsFromEmail lone_outflow "some_budget_id" ∅ false = Outcome [] (Some e).
Proof.
  split; [reflexivity|]. split; [reflexivity|].
  apply (unmapped_alias_is_fatal lone_outflow "some_budget_id" ∅ false 0 _ "1234" eq_refl);
    [|reflexivity].
  left. exists "56.78", "PAYEE". vm_compute. reflexivity.
Defined.

(** ** Size of the amounts read from a notification

    A notification amount has two decimals, so one that is not zero is at
    least 0.01; the lemmas below follow it through the rounding of
    [float] and of the product with 1000 to show that it gives at least
    one milliunit. *)

Lemma digits2_pos_bounds (p : positive) :
  2 ^ (Zpos (digits2_pos p) - 1) ≤ Zpos p < 2 ^ Zpos (digits2_pos p).
Proof.
  induction p as [p IH|p IH|]; cbn [digits2_pos].
  - rewrite Pos2Z.inj_succ.
    replace (Z.succ (Zpos (digits2_pos p)) - 1) with (Z.succ (Zpos (digits2_pos p) - 1)) by lia.
    rewrite !Z.pow_succ_r by lia. lia.
  - rewrite Pos2Z.inj_succ.
    replace (Z.succ (Zpos (digits2_pos p)) - 1) with (Z.succ (Zpos (digits2_pos p) - 1)) by lia.
    rewrite !Z.pow_succ_r by lia. lia.
  - simpl. lia.
Qed.

Lemma digits2_pos_ge (p : positive) (k : Z) :
  0 ≤ k → 2 ^ k ≤ Zpos p → k + 1 ≤ Zpos (digits2_pos p).
Proof.
  intros Hk Hp. destruct (digits2_pos_bounds p) as [_ Hlt].
  assert (2 ^ k < 2 ^ Zpos (digits2_pos p)) as H by lia.
  apply Z.pow_lt_mono_r_iff in H; lia.
Qed.

Lemma shr_1_m (mrs : shr_record) :
  0 ≤ shr_m mrs → shr_m (shr_1 mrs) = shr_m mrs / 2.
Proof.
  destruct mrs as [m r s]. cbn [shr_m]. intros Hm.
  destruct m as [|[p|p|]|p]; cbn [shr_1 shr_m]; try lia.
  - reflexivity.
  - apply Z.div_unique with (r := 1); lia.
  - apply Z.div_unique with (r := 0); lia.
  - reflexivity.
Qed.

Lemma pow2_double (n : positive) : 2 ^ Zpos n~0 = 2 ^ Zpos n * 2 ^ Zpos n.
Proof. rewrite Pos2Z.inj_xO, <- Z.pow_add_r by lia. f_equal. lia. Qed.

Lemma iter_shr_1_m (n : positive) (mrs : shr_record) :
  0 ≤ shr_m mrs →
  shr_m (SpecFloat.iter_pos shr_1 n mrs) = shr_m mrs / 2 ^ Zpos n.
Proof.
  revert mrs. induction n as [n IH|n IH|]; intros mrs Hm; cbn [SpecFloat.iter_pos].
  - assert (0 ≤ shr_m (shr_1 mrs)) as H1.
    { rewrite shr_1_m by done. apply Z.div_pos; lia. }
    assert (0 ≤ shr_m (SpecFloat.iter_pos shr_1 n (shr_1 mrs))) as H2.
    { rewrite IH by done. apply Z.div_pos; lia. }
    rewrite IH, IH, shr_1_m by done.
    rewrite !Z.div_div by lia. f_equal.
    rewrite Pos2Z.inj_xI, Z.pow_add_r by lia.
    change (2 * Zpos n) with (Zpos n~0). rewrite pow2_double. lia.
  - assert (0 ≤ shr_m (SpecFloat.iter_pos shr_1 n mrs)) as H2.
    { rewrite IH by done. apply Z.div_pos; lia. }
    rewrite IH, IH by done.
    rewrite !Z.div_div by lia. f_equal. by rewrite pow2_double.
  - rewrite shr_1_m by done. reflexivity.
Qed.

Lemma shr_record_of_loc_m (m : Z) (l : location) :
  shr_m (shr_record_of_loc m l) = m.
Proof. by destruct l as [|[]]. Qed.

(** Shifting to the exponent [fexp] asks for: the mantissa is divided by
    the power of two of the shift. *)
Lemma shr_fexp_m (m e : Z) (l : location) :
  0 ≤ m →
  let n := Z.max 0 (fexp prec emax (Zdigits2 m + e) - e) in
  shr_m (shr_fexp prec emax m e l).1 = m / 2 ^ n
  ∧ (shr_fexp prec emax m e l).2 = e + n.
Proof.
  intros Hm n. unfold shr_fexp, shr. subst n.
  destruct (fexp prec emax (Zdigits2 m + e) - e) as [|p|p] eqn:Hn; cbn [fst snd].
  - rewrite shr_record_of_loc_m, Z.div_1_r. split; [done|lia].
  - rewrite iter_shr_1_m by (by rewrite shr_record_of_loc_m).
    rewrite shr_record_of_loc_m. replace (Z.max 0 (Zpos p)) with (Zpos p) by lia. done.
  - rewrite shr_record_of_loc_m. replace (Z.max 0 (Zneg p)) with 0 by lia.
    rewrite Z.div_1_r. split; [done|lia].
Qed.

Lemma round_nearest_even_bounds (m : Z) (l : location) :
  m ≤ round_nearest_even m l ≤ m + 1.
Proof.
  destruct l as [|[]]; cbn [round_nearest_even]; try lia.
  destruct (Z.even m); lia.
Qed.

Lemma fexp_normal (z : Z) : -1074 ≤ z - 53 → fexp prec emax z = z - 53.
Proof. unfold fexp, emin, prec, emax. lia. Qed.

(** Dropping all but the 53 leading bits of a number of [d] bits. *)
Lemma leading_53_bits (p : positive) :
  53 ≤ Zpos (digits2_pos p) →
  2 ^ 52 ≤ Zpos p / 2 ^ (Zpos (digits2_pos p) - 53) < 2 ^ 53.
Proof.
  intros Hd. destruct (digits2_pos_bounds p) as [Hlo Hhi].
  set (d := Zpos (digits2_pos p)) in *.
  assert (0 < 2 ^ (d - 53)) as Hpos by (apply Z.pow_pos_nonneg; lia).
  split.
  - apply Z.div_le_lower_bound; [done|].
    rewrite <- Z.pow_add_r by lia. by replace (d - 53 + 52) with (d - 1) by lia.
  - apply Z.div_lt_upper_bound; [done|].
    rewrite <- Z.pow_add_r by lia. by replace (d - 53 + 53) with d by lia.
Qed.

(** Rounding a positive number of at least 53 bits, above the range of
    the subnormal numbers, keeps 53 bits and does not lower the exponent. *)
Lemma binary_round_aux_at_least (mx : positive) (ex : Z) (lx : location) :
  53 ≤ Zpos (digits2_pos mx) →
  -1074 ≤ Zpos (digits2_pos mx) + ex - 53 →
  at_least (Zpos (digits2_pos mx) + ex - 53)
           (binary_round_aux prec emax false (Zpos mx) ex lx).
Proof.
  intros Hd Hemin. unfold binary_round_aux.
  destruct (shr_fexp_m (Zpos mx) ex lx) as [Hm1 He1]; [lia|].
  destruct (shr_fexp prec emax (Zpos mx) ex lx) as [mrs1 e1]. cbn [fst snd] in *.
  cbn [Zdigits2] in Hm1, He1.
  rewrite fexp_normal in Hm1, He1 by lia.
  replace (Z.max 0 (Zpos (digits2_pos mx) + ex - 53 - ex))
    with (Zpos (digits2_pos mx) - 53) in Hm1, He1 by lia.
  pose proof (leading_53_bits mx Hd) as Hb1. rewrite <- Hm1 in Hb1.
  pose proof (round_nearest_even_bounds (shr_m mrs1) (loc_of_shr_record mrs1)) as Hr.
  set (r := round_nearest_even (shr_m mrs1) (loc_of_shr_record mrs1)) in *.
  destruct r as [|pr|pr] eqn:Hpr; [lia| |lia].
  destruct (shr_fexp_m (Zpos pr) e1 loc_Exact) as [Hm2 He2]; [lia|].
  destruct (shr_fexp prec emax (Zpos pr) e1 loc_Exact) as [mrs2 e2]. cbn [fst snd] in *.
  cbn [Zdigits2] in Hm2, He2.
  assert (53 ≤ Zpos (digits2_pos pr)) as Hdr by (apply (digits2_pos_ge pr 52); lia).
  rewrite fexp_normal in Hm2, He2 by lia.
  replace (Z.max 0 (Zpos (digits2_pos pr) + e1 - 53 - e1))
    with (Zpos (digits2_pos pr) - 53) in Hm2, He2 by lia.
  pose proof (leading_53_bits pr Hdr) as Hb2. rewrite <- Hm2 in Hb2.
  destruct (shr_m mrs2) as [|m2|m2]; [lia| |lia].
  destruct (e2 <=? emax - prec); cbn [at_least]; [|done].
  split; lia.
Qed.

Lemma at_least_mono (k k' : Z) (x : spec_float) :
  k' ≤ k → at_least k x → at_least k' x.
Proof. intros Hk. destruct x as [| [] | | [] m e]; simpl; try done. lia. Qed.

(** A number of hundredths above zero becomes a float of at least [2^-7]. *)
Lemma float_of_hundredths_at_least (p : positive) :
  at_least (-59) (float_of_decimal false (Zpos p) (-2)).
Proof.
  unfold float_of_decimal. cbn [Z.leb Z.compare Z.opp].
  change (Z.to_pos (10 ^ (- (-2)))) with 100%positive.
  unfold SFdiv, SFdiv_core_binary. cbn [xorb].
  pose proof (digits2_pos_bounds p) as [Hlo _].
  assert (1 ≤ Zpos (digits2_pos p)) as Hd1 by lia.
  change (Zdigits2 (Zpos 100)) with 7. cbn [Zdigits2].
  replace (Zpos (digits2_pos p) + 0 - (7 + 0)) with (Zpos (digits2_pos p) - 7) by lia.
  rewrite fexp_normal by lia.
  set (d1 := Zpos (digits2_pos p)) in *.
  set (e' := Z.min (d1 - 7 - 53) (0 - 0)).
  set (m' := match 0 - 0 - e' with
             | Z0 => Zpos p
             | Zpos _ => Z.shiftl (Zpos p) (0 - 0 - e')
             | Zneg _ => 0
             end).
  assert (2 ^ 59 ≤ m') as Hm'.
  { unfold m'. destruct (0 - 0 - e') as [|s|s] eqn:Hs.
    - assert (60 ≤ d1) by lia.
      transitivity (2 ^ (d1 - 1)); [apply Z.pow_le_mono_r; lia|done].
    - rewrite Z.shiftl_mul_pow2 by lia.
      assert (Zpos s = 60 - d1) as -> by lia.
      replace 59 with ((d1 - 1) + (60 - d1)) by lia.
      rewrite Z.pow_add_r by lia.
      apply Z.mul_le_mono_nonneg_r; [|done]. apply Z.pow_nonneg. lia.
    - lia. }
  destruct (Z.div_eucl m' 100) as [q r] eqn:Hqr.
  assert (q = m' / 100) as Hq by (unfold Z.div; by rewrite Hqr).
  assert (2 ^ 52 ≤ q) as Hq52.
  { rewrite Hq. apply Z.div_le_lower_bound; [lia|].
    transitivity (2 ^ 59); [by vm_compute|done]. }
  destruct q as [|pq|pq]; [by vm_compute in Hq52| |by vm_compute in Hq52].
  assert (53 ≤ Zpos (digits2_pos pq)) as Hdq by (apply (digits2_pos_ge pq 52); lia).
  apply (at_least_mono (Zpos (digits2_pos pq) + e' - 53)); [lia|].
  apply binary_round_aux_at_least; lia.
Qed.

Lemma float_of_Z_1000 :
  float_of_Z 1000 = S754_finite false 8796093022208000 (-43).
Proof. vm_compute. reflexivity. Qed.

(** Such a float times 1000 is at least [2^2]. *)
Lemma times_1000_at_least (x : spec_float) :
  at_least (-59) x → at_least (-50) (float_mul x (float_of_Z 1000)).
Proof.
  rewrite float_of_Z_1000. unfold float_mul.
  destruct x as [| [] | | [] m e]; cbn [at_least]; try done.
  intros [Hm He]. unfold SFmul. cbn [xorb].
  assert (105 ≤ Zpos (digits2_pos (m * 8796093022208000))) as Hd.
  { apply (digits2_pos_ge _ 104); [lia|].
    rewrite Pos2Z.inj_mul.
    transitivity (2 ^ 52 * 2 ^ 52); [by vm_compute|].
    apply Z.mul_le_mono_nonneg; [by vm_compute|done|by vm_compute|by vm_compute]. }
  eapply at_least_mono; [|apply binary_round_aux_at_least]; lia.
Qed.

Lemma int_at_least (y : spec_float) (a : Z) :
  at_least (-50) y → int y = inr a → 0 < a.
Proof.
  destruct y as [| [] | | [] m e]; cbn [at_least int]; try done.
  intros [Hm He] [= <-]. cbn [cond_Zopp].
  destruct e as [|e|e].
  - lia.
  - assert (0 < 2 ^ Zpos e) by (apply Z.pow_pos_nonneg; lia). nia.
  - assert (0 < 2 ^ Zpos e) by (apply Z.pow_pos_nonneg; lia).
    assert (2 ^ Zpos e ≤ 2 ^ 50) by (apply Z.pow_le_mono_r; lia).
    assert (2 ^ 50 ≤ 2 ^ 52) by (by vm_compute).
    apply Z.div_str_pos. lia.
Qed.


(** What an ASCII digit is not. *)
Lemma digit_facts (c : ascii) :
  is_digit c = true →
  (∃ v, digit_value c = Some v ∧ 0 ≤ v)
  ∧ is_space c = false
  ∧ (∀ s, read_sign (String c s) = (false, String c s))
  ∧ c ≠ ascii_of_nat 226.
Proof.
  destruct c as [[] [] [] [] [] [] [] []]; intros H; vm_compute in H;
    try discriminate H;
    (split; [eexists; split; [reflexivity|by vm_compute]|]);
    (split; [reflexivity|]); (split; [reflexivity|]); by vm_compute.
Qed.

Lemma read_amount_chars_run (s : string) :
  ∃ ds, amount_run (read_amount_chars s).1 ds.
Proof.
  remember (String.length s) as k eqn:Hk.
  revert s Hk. induction (lt_wf k) as [k _ IH]. intros s ->.
  destruct s as [|c s1]; [exists ""; constructor|].
  cbn [read_amount_chars]. destruct (is_digit c) eqn:Hc.
  - destruct (IH (String.length s1)) with (s := s1) as [ds Hds]; [simpl; lia|done|].
    destruct (read_amount_chars s1) as [g r]. exists (String c ds). by constructor.
  - destruct s1 as [|c2 [|c3 s3]]; try (exists ""; constructor).
    case_bool_decide as Heq; [|exists ""; constructor].
    destruct (IH (String.length s3)) with (s := s3) as [ds Hds]; [simpl; lia|done|].
    destruct (read_amount_chars s3) as [g r]. exists ds. cbn [fst].
    injection Heq as -> -> ->. by apply (run_separator g ds).
Qed.

Lemma amount_run_digits (g ds : string) : amount_run g ds → all_digits ds = true.
Proof. induction 1 as [|c g ds Hc _ IH|]; simpl; [done| |done]. by rewrite Hc. Qed.

Lemma append_nil_l (s : string) : "" +:+ s = s.
Proof. reflexivity. Qed.

Lemma append_cons_l (c : ascii) (s t : string) :
  String c s +:+ t = String c (s +:+ t).
Proof. reflexivity. Qed.

Lemma remove_apostrophes_run (g ds : string) (d1 d2 : ascii) :
  amount_run g ds → is_digit d1 = true → is_digit d2 = true →
  remove_apostrophes (g +:+ String "." (String d1 (String d2 "")))
  = ds +:+ String "." (String d1 (String d2 "")).
Proof.
  intros Hrun H1 H2. induction Hrun as [|c g ds Hc _ IH|g ds _ IH].
  - rewrite append_nil_l. cbn [remove_apostrophes].
    case_bool_decide as Heq; [discriminate Heq|]. reflexivity.
  - rewrite !append_cons_l. cbn [remove_apostrophes]. rewrite IH.
    destruct (digit_facts c Hc) as (_ & _ & _ & Hne).
    destruct (g +:+ _) as [|c2 [|c3 s3]]; try reflexivity.
    case_bool_decide as Heq; [|reflexivity].
    injection Heq as Heq _ _. by destruct Hne.
  - unfold apostrophe. rewrite !append_cons_l, append_nil_l.
    cbn [remove_apostrophes]. rewrite bool_decide_eq_true_2 by reflexivity.
    exact IH.
Qed.

Lemma read_digits_run (ds rest : string) (acc n : Z) :
  all_digits ds = true → 0 ≤ acc → 0 ≤ n →
  ∃ acc' n', 0 ≤ acc' ∧ 0 ≤ n'
             ∧ read_digits (ds +:+ rest) acc n = read_digits rest acc' n'.
Proof.
  revert acc n. induction ds as [|c ds IH]; intros acc n Hds Hacc Hn.
  - exists acc, n. by rewrite append_nil_l.
  - cbn [all_digits] in Hds. apply andb_true_iff in Hds as [Hc Hds].
    destruct (digit_facts c Hc) as ((v & Hv & Hv0) & _).
    rewrite append_cons_l. cbn [read_digits]. rewrite Hv.
    apply IH; [done|lia|lia].
Qed.

(** [float] reads digits, a full stop and two digits as that many
    hundredths. *)
Lemma float_two_decimals (ds : string) (d1 d2 : ascii) :
  all_digits ds = true → is_digit d1 = true → is_digit d2 = true →
  ∃ m, 0 ≤ m
       ∧ float (ds +:+ String "." (String d1 (String d2 "")))
         = inr (float_of_decimal false m (-2)).
Proof.
  intros Hds H1 H2.
  destruct (digit_facts d1 H1) as ((v1 & Hv1 & Hv10) & _).
  destruct (digit_facts d2 H2) as ((v2 & Hv2 & Hv20) & _).
  set (s := ds +:+ String "." (String d1 (String d2 ""))).
  assert (skip_spaces s = s ∧ read_sign s = (false, s)) as [Hskip Hsign].
  { unfold s. destruct ds as [|c ds].
    - rewrite append_nil_l. split; reflexivity.
    - cbn [all_digits] in Hds. apply andb_true_iff in Hds as [Hc _].
      destruct (digit_facts c Hc) as (_ & Hsp & Hsg & _).
      rewrite append_cons_l. split; [|apply Hsg].
      cbn [skip_spaces]. by rewrite Hsp. }
  destruct (read_digits_run ds (String "." (String d1 (String d2 ""))) 0 0 Hds)
    as (i & ni & Hi & Hni & Hread); [lia|lia|].
  fold s in Hread.
  assert (read_digits (String "." (String d1 (String d2 ""))) i ni
          = (i, ni, String "." (String d1 (String d2 "")))) as Hstop by reflexivity.
  rewrite Hstop in Hread.
  unfold float. rewrite Hskip, Hsign, Hread.
  cbn [read_digits]. rewrite Hv1, Hv2.
  exists (10 * (10 * i + v1) + v2). split; [lia|].
  replace (ni + (0 + 1 + 1) =? 0) with false by (symmetry; apply Z.eqb_neq; lia).
  cbn [read_exponent skip_spaces]. rewrite bool_decide_eq_true_2 by done.
  reflexivity.
Qed.

Lemma match_amount_two_decimals (s g r : string) :
  match_amount s = Some (g, r) →
  ∃ m, 0 ≤ m ∧ float_amount g = inr (float_of_decimal false m (-2)).
Proof.
  unfold match_amount. intros H.
  destruct (read_amount_chars_run s) as [ds Hrun].
  destruct (read_amount_chars s) as [g0 r0]. cbn [fst] in Hrun.
  destruct g0 as [|c0 g0]; [done|].
  destruct r0 as [|dot [|d1 [|d2 r']]]; try done;
    destruct dot as [[] [] [] [] [] [] [] []]; try done.
  destruct (is_digit d1) eqn:H1; [|by cbn [andb] in H].
  destruct (is_digit d2) eqn:H2; [|by cbn [andb] in H].
  cbn [andb] in H. injection H as <- <-.
  unfold float_amount.
  rewrite (remove_apostrophes_run _ _ d1 d2 Hrun H1 H2).
  apply float_two_decimals; [|done..]. by eapply amount_run_digits.
Qed.

(** The amount the account pattern extracts comes from [match_amount]. *)
Lemma match_greedy_rest {B} (rest : string → option B) (s g : string) (b : B) :
  match_greedy rest s = Some (g, b) → ∃ s', rest s' = Some b.
Proof.
  revert g. induction s as [|c s IH]; intros g; cbn [match_greedy]; [done|].
  case_bool_decide; [done|].
  destruct (match_greedy rest s) as [[g' b']|] eqn:Hg.
  - intros [= <- <-]. by eapply IH.
  - destruct (rest s) as [b'|] eqn:Hr; [|done]. intros [= <- <-]. eauto.
Qed.

Lemma account_amount_two_decimals (text g1 g2 g3 : string) :
  UBS_DEBIT_CARD_REGEXP text = Some (g1, g2, g3) →
  ∃ m, 0 ≤ m ∧ float_amount g3 = inr (float_of_decimal false m (-2)).
Proof.
  unfold UBS_DEBIT_CARD_REGEXP. intros H.
  apply bind_Some in H as (s & _ & H).
  apply bind_Some in H as ([g [a b]] & Hg & H).
  injection H as <- <- <-.
  apply match_greedy_rest in Hg as [s' Htail].
  unfold match_debit_tail in Htail.
  apply bind_Some in Htail as (s1 & _ & Htail).
  apply bind_Some in Htail as ([a' s2] & _ & Htail).
  apply bind_Some in Htail as (s3 & _ & Htail).
  apply bind_Some in Htail as ([g3' s4] & Hamt & Htail).
  apply bind_Some in Htail as (s5 & _ & Htail).
  injection Htail as <- <-.
  by eapply match_amount_two_decimals.
Qed.

Lemma binary_round_aux_negb (s : bool) (m e : Z) (l : location) :
  binary_round_aux prec emax (negb s) m e l
  = SFopp (binary_round_aux prec emax s m e l).
Proof.
  unfold binary_round_aux.
  destruct (shr_fexp prec emax m e l) as [mrs1 e1].
  destruct (shr_fexp prec emax _ e1 loc_Exact) as [mrs2 e2].
  destruct (shr_m mrs2); [done| |done]. by destruct (e2 <=? emax - prec).
Qed.

Lemma float_mul_opp (x : spec_float) :
  float_mul (SFopp x) (float_of_Z 1000) = SFopp (float_mul x (float_of_Z 1000)).
Proof.
  rewrite float_of_Z_1000. unfold float_mul.
  destruct x as [s|s| |s m e]; cbn [SFopp SFmul]; try done; try by destruct s.
  rewrite <- binary_round_aux_negb. by rewrite !xorb_false_r.
Qed.

Lemma int_opp (y : spec_float) (a : Z) :
  int y = inr a → int (SFopp y) = inr (- a).
Proof.
  destruct y as [s|s| |s m e]; cbn [SFopp int]; try done.
  - by intros [= <-].
  - intros [= <-]. by destruct s; cbn [negb cond_Zopp]; rewrite ?Z.opp_involutive.
Qed.


(** The sum guessed from a companion right before the notification. *)
Lemma guess_debit_sum_before (notifications : list Notification) (i : nat)
    (n c : Notification) (x : spec_float) :
  (0 < i)%nat → notifications !! (i - 1)%nat = Some c →
  look_at n c (S754_zero false) = inr x → float_is_zero x = false →
  guess_debit_sum notifications i n = inr x.
Proof.
  intros Hi Hc Hlook Hx. unfold guess_debit_sum.
  apply Nat.ltb_lt in Hi. rewrite Hi, Hc, Hlook. cbn [bind_exc].
  by rewrite Hx.
Qed.




(** * Further properties of the code *)

(** ** More on the identifier assigner *)

Lemma not_pending_unassigned (ts : list NewTransaction) (x : NewTransaction) :
  x ∈ ts → pending ts x = false → truthy (import_id x) = true.
Proof.
  intros Hx Hp. destruct (truthy (import_id x)) eqn:Hid; [done|].
  apply bool_decide_eq_false_1 in Hp. destruct Hp.
  apply Exists_exists. exists x. by rewrite same_date_amount_refl.
Qed.

(** After the assigner, no transaction is left without identifier. *)
Lemma populate_all_assigned (ts : list NewTransaction) :
  Forall (λ t, truthy (import_id t) = true) (_populateImportIds ts).
Proof.
  apply Forall_lookup. intros i y Hy.
  destruct (ts !! i) as [x|] eqn:Hx.
  - rewrite (populate_lookup _ _ _ Hx) in Hy. injection Hy as <-.
    destruct (pending ts x) eqn:Hp; [done|].
    apply (not_pending_unassigned ts); [|done]. by eapply list_elem_of_lookup_2.
  - apply lookup_ge_None in Hx. apply lookup_lt_Some in Hy.
    rewrite populate_length in Hy. lia.
Qed.

Lemma populate_assigned (ts : list NewTransaction) :
  Forall (λ t, truthy (import_id t) = true) ts → _populateImportIds ts = ts.
Proof.
  intros Hall. rewrite populate_spec.
  apply list_eq. intros i. rewrite list_lookup_imap.
  destruct (ts !! i) as [x|] eqn:Hi; [|done]. simpl.
  destruct (pending ts x) eqn:Hp; [|done].
  apply bool_decide_eq_true_1, Exists_exists in Hp as (u & Hu & _ & Hf).
  rewrite Forall_forall in Hall. specialize (Hall u Hu). congruence.
Qed.

(** X1. The assigner keeps the length and the order of the batch and
    writes no field but [import_id]. *)
Theorem populateImportIds_writes_only_import_id
    (ts : list NewTransaction) (i : nat) (t : NewTransaction) :
  ts !! i = Some t →
  length (_populateImportIds ts) = length ts
  ∧ ∃ t', _populateImportIds ts !! i = Some t'
          ∧ account_id t' = account_id t ∧ var_date t' = var_date t
          ∧ payee_name t' = payee_name t ∧ amount t' = amount t
          ∧ cleared t' = cleared t.
Proof.
  intros Hi. split; [apply populate_length|].
  rewrite (populate_lookup _ _ _ Hi). eexists. split; [done|].
  by destruct (pending ts t).
Qed.

Lemma populateImportIds_writes_only_import_id_witness :
  batch_mixed !! 0%nat = Some (tx jan13 (-100000) "Second" (Some "kept?"))
  ∧ length (_populateImportIds batch_mixed) = length batch_mixed.
Proof.
  split; [reflexivity|].
  exact (proj1 (populateImportIds_writes_only_import_id batch_mixed 0 _ eq_refl)).
Defined.

(** X2. Whatever the batch, every transaction has a non-empty identifier
    once the assigner has run. *)
Theorem populateImportIds_assigns_all (ts : list NewTransaction) (t : NewTransaction) :
  t ∈ _populateImportIds ts → truthy (import_id t) = true.
Proof.
  intros Ht. pose proof (populate_all_assigned ts) as H.
  rewrite Forall_forall in H. by apply H.
Qed.

Lemma populateImportIds_assigns_all_witness :
  tx jan13 5000 "Other" (Some "UBS2YNAB:5000:2000-01-13:0") ∈ _populateImportIds batch_fresh
  ∧ truthy (import_id (tx jan13 5000 "Other" (Some "UBS2YNAB:5000:2000-01-13:0"))) = true.
Proof.
  assert (tx jan13 5000 "Other" (Some "UBS2YNAB:5000:2000-01-13:0")
          ∈ _populateImportIds batch_fresh) as H.
  { apply list_elem_of_lookup. exists 1%nat. vm_compute. reflexivity. }
  split; [exact H|]. exact (populateImportIds_assigns_all batch_fresh _ H).
Defined.

(** X3. Running the assigner a second time changes nothing, whatever the
    batch was at the start. *)
Theorem populateImportIds_twice (ts : list NewTransaction) :
  _populateImportIds (_populateImportIds ts) = _populateImportIds ts.
Proof. apply populate_assigned, populate_all_assigned. Qed.

Lemma populate_unassigned (ts : list NewTransaction) :
  Forall (λ t, truthy (import_id t) = false) ts →
  _populateImportIds ts = imap (ranked ts) ts.
Proof.
  intros Hfresh. rewrite populate_spec.
  apply list_eq. intros i. rewrite !list_lookup_imap.
  destruct (ts !! i) as [x|] eqn:Hi; [|done]. simpl.
  replace (pending ts x) with true; [done|].
  symmetry. apply bool_decide_eq_true_2, Exists_exists.
  exists x. split; [by eapply list_elem_of_lookup_2|].
  split; [apply same_date_amount_refl|].
  rewrite Forall_forall in Hfresh. apply Hfresh. by eapply list_elem_of_lookup_2.
Qed.

Lemma without_app (c : ascii) (a b : string) :
  without c (a +:+ b) = without c a && without c b.
Proof.
  induction a as [|x a IH]; [done|].
  rewrite append_cons_l. cbn [without]. by rewrite IH, andb_assoc.
Qed.

(** A text is cut in one way only at the first occurrence of [c]. *)
Lemma split_at_char (c : ascii) (a a' r r' : string) :
  without c a = true → without c a' = true →
  a +:+ String c r = a' +:+ String c r' → a = a' ∧ r = r'.
Proof.
  revert a'. induction a as [|x a IH]; intros [|x' a'] Ha Ha'; cbn [without] in *.
  - by intros [= ->].
  - rewrite append_nil_l, append_cons_l. intros [= <- _].
    by rewrite Ascii.eqb_refl in Ha'.
  - rewrite append_nil_l, append_cons_l. intros [= -> _].
    by rewrite Ascii.eqb_refl in Ha.
  - rewrite !append_cons_l. intros [= -> H].
    apply andb_true_iff in Ha as [_ Ha]. apply andb_true_iff in Ha' as [_ Ha'].
    destruct (IH a' Ha Ha' H) as [-> ->]. done.
Qed.

(** The decimal text of a number holds digits only. *)
Lemma pretty_N_go_without (c : ascii) (x : N) (s : string) :
  (∀ d, pretty_N_char d ≠ c) →
  without c s = true → without c (pretty_N_go x s) = true.
Proof.
  intros Hc. revert s. induction (N.lt_wf_0 x) as [x _ IH]. intros s Hs.
  destruct (decide (x = 0%N)) as [->|Hx]; [by rewrite pretty_N_go_0|].
  rewrite pretty_N_go_step by lia.
  apply IH; [apply N.div_lt; lia|].
  cbn [without]. rewrite Hs, andb_true_r.
  apply negb_true_iff, Ascii.eqb_neq, Hc.
Qed.

Lemma pretty_N_without (c : ascii) (x : N) :
  (∀ d, pretty_N_char d ≠ c) → without c (pretty x) = true.
Proof.
  intros Hc. unfold pretty, pretty_N. case_decide.
  - cbn [without]. rewrite andb_true_r. apply negb_true_iff, Ascii.eqb_neq, (Hc 0%N).
  - by apply pretty_N_go_without.
Qed.

Lemma colon_is_no_digit (d : N) : pretty_N_char d ≠ ":"%char.
Proof. unfold pretty_N_char. by repeat case_match. Qed.

Lemma dash_is_no_digit (d : N) : pretty_N_char d ≠ "-"%char.
Proof. unfold pretty_N_char. by repeat case_match. Qed.

Lemma pretty_Z_no_colon (z : Z) : without ":" (pretty z) = true.
Proof.
  destruct z as [|p|p]; [done|apply pretty_N_without, colon_is_no_digit|].
  change (pretty (Zneg p)) with ("-" +:+ pretty (Npos p)).
  by rewrite without_app, (pretty_N_without _ _ colon_is_no_digit).
Qed.

Lemma zeros_without (c : ascii) (n : nat) : c ≠ "0"%char → without c (zeros n) = true.
Proof.
  intros Hc. induction n as [|n IH]; [done|]. cbn [zeros].
  rewrite without_app, IH, andb_true_r. cbn [without]. rewrite andb_true_r.
  apply negb_true_iff, Ascii.eqb_neq. congruence.
Qed.

Lemma isoformat_no_colon (d : datetime.date) : without ":" (isoformat d) = true.
Proof.
  unfold isoformat, zero_pad.
  by rewrite !without_app, !zeros_without, !pretty_Z_no_colon.
Qed.

(** The three parts of an identifier can be read back from it. *)
Lemma format_import_id_parts (t u : NewTransaction) (n m : nat) :
  format_import_id t n = format_import_id u m →
  amount t = amount u ∧ isoformat (var_date t) = isoformat (var_date u) ∧ n = m.
Proof.
  unfold format_import_id. intros H. apply append_inj_l in H.
  apply split_at_char in H as [Ha H]; [|apply pretty_Z_no_colon..].
  apply split_at_char in H as [Hd H]; [|apply isoformat_no_colon..].
  split; [by apply (inj pretty)|]. split; [done|]. by apply (inj pretty) in H.
Qed.

Lemma append_nil_r (s : string) : s +:+ "" = s.
Proof. induction s as [|c s IH]; [done|]. by rewrite append_cons_l, IH. Qed.

(** The decimal text of a number above zero starts with a digit that is
    not zero. *)
Lemma pretty_N_go_head (x : N) (s : string) :
  (0 < x)%N → ∃ c r, pretty_N_go x s = String c r ∧ c ≠ "0"%char.
Proof.
  revert s. induction (N.lt_wf_0 x) as [x _ IH]. intros s Hx.
  rewrite pretty_N_go_step by done.
  destruct (decide (x `div` 10 = 0)%N) as [Hq|Hq].
  - rewrite Hq, pretty_N_go_0. eexists _, _. split; [done|].
    assert (x `mod` 10 = x)%N as -> by (apply N.mod_small, N.div_small_iff; lia).
    assert (x < 10)%N as Hlt by (apply N.div_small_iff; lia).
    unfold pretty_N_char. repeat case_match; try done; lia.
  - apply IH; [apply N.div_lt; lia|]. by apply N.neq_0_lt_0.
Qed.

Lemma pretty_pos_head (v : Z) :
  1 ≤ v → ∃ c r, pretty v = String c r ∧ c ≠ "0"%char ∧ without "-" (pretty v) = true.
Proof.
  intros Hv. destruct v as [|p|p]; [lia| |lia].
  change (pretty (Zpos p)) with (pretty (Npos p)).
  destruct (pretty_N_go_head (Npos p) "") as (c & r & Hc & Hne); [lia|].
  exists c, r. unfold pretty at 1, pretty_N. case_decide; [done|].
  split; [done|]. split; [done|]. apply pretty_N_without, dash_is_no_digit.
Qed.

(** Padding with zeros can be undone. *)
Lemma zeros_inj (k k' : nat) (c c' : ascii) (r r' : string) :
  c ≠ "0"%char → c' ≠ "0"%char →
  zeros k +:+ String c r = zeros k' +:+ String c' r' → String c r = String c' r'.
Proof.
  intros Hc Hc'. revert k'. induction k as [|k IH]; intros [|k']; cbn [zeros].
  - done.
  - rewrite append_nil_l. intros [= -> _]. done.
  - rewrite append_nil_l. intros [= <- _]. done.
  - change ("0" +:+ ?z) with (String "0" z). rewrite !append_cons_l.
    intros [= H]. by apply (IH k').
Qed.

Lemma zero_pad_inj (width : nat) (v w : Z) :
  1 ≤ v → 1 ≤ w → zero_pad width (pretty v) = zero_pad width (pretty w) → v = w.
Proof.
  intros (c & r & Hv & Hc & _)%pretty_pos_head (c' & r' & Hw & Hc' & _)%pretty_pos_head.
  unfold zero_pad. intros H. apply (inj pretty). rewrite Hv, Hw in H |- *.
  by apply zeros_inj in H.
Qed.

Lemma zero_pad_no_dash (width : nat) (v : Z) :
  1 ≤ v → without "-" (zero_pad width (pretty v)) = true.
Proof.
  intros (c & r & _ & _ & Hd)%pretty_pos_head. unfold zero_pad.
  by rewrite without_app, zeros_without, Hd.
Qed.

Lemma valid_date_positive (d : datetime.date) :
  datetime.valid_date d = true →
  1 ≤ datetime.year d ∧ 1 ≤ datetime.month d ∧ 1 ≤ datetime.day d.
Proof.
  unfold datetime.valid_date. rewrite !andb_true_iff, !Z.leb_le. tauto.
Qed.

(** Two valid dates with the same text are the same date. *)
Lemma isoformat_inj (d d' : datetime.date) :
  datetime.valid_date d = true → datetime.valid_date d' = true →
  isoformat d = isoformat d' → d = d'.
Proof.
  intros (Hy & Hm & Hd)%valid_date_positive (Hy' & Hm' & Hd')%valid_date_positive.
  unfold isoformat. intros H.
  apply (split_at_char "-") in H as [Ey H]; [|by apply zero_pad_no_dash..].
  apply (split_at_char "-") in H as [Em Ed]; [|by apply zero_pad_no_dash..].
  apply zero_pad_inj in Ey, Em, Ed; [|done..].
  destruct d, d'; simpl in *; congruence.
Qed.

Lemma count_same_later (ts : list NewTransaction) (i j : nat) (t u : NewTransaction) :
  (i < j)%nat → ts !! j = Some u → same_date_amount t u = true →
  (count_same t (drop (S j) ts) < count_same t (drop (S i) ts))%nat.
Proof.
  intros Hij Hj Htu.
  rewrite <- (take_drop (j - S i) (drop (S i) ts)), drop_drop.
  replace (S i + (j - S i))%nat with j by lia.
  rewrite (drop_S _ _ _ Hj), count_same_app, count_same_cons, Htu. lia.
Qed.

(** In a batch without identifiers, of transactions with calendar dates,
    the assigner gives no identifier twice. *)
Lemma populate_distinct (ts : list NewTransaction) :
  Forall (λ t, truthy (import_id t) = false) ts →
  Forall (λ t, datetime.valid_date (var_date t) = true) ts →
  NoDup (import_id <$> _populateImportIds ts).
Proof.
  intros Hfresh Hvalid. rewrite populate_unassigned by done.
  assert (∀ i j t u, (i < j)%nat → ts !! i = Some t → ts !! j = Some u →
            format_import_id t (count_same t (drop (S i) ts))
            ≠ format_import_id u (count_same u (drop (S j) ts))) as Hlt.
  { intros i j t u Hij Hi Hj (Ha & Hd & Hn)%format_import_id_parts.
    rewrite Forall_lookup in Hvalid.
    apply isoformat_inj in Hd; [|by eapply Hvalid..].
    assert (same_date_amount t u = true) as Htu.
    { apply same_date_amount_keys. done. }
    pose proof (count_same_later ts i j t u Hij Hj Htu) as Hc.
    rewrite (count_same_same t u) in Hn by done. lia. }
  apply NoDup_alt. intros i j x. rewrite !list_lookup_fmap, !list_lookup_imap.
  destruct (ts !! i) as [t|] eqn:Hi; [|done].
  destruct (ts !! j) as [u|] eqn:Hj; [|done].
  unfold ranked. cbn [fmap option_fmap option_map import_id set_import_id].
  intros <- Heq. do 2 apply (inj Some) in Heq.
  destruct (Nat.lt_trichotomy i j) as [Hij|[->|Hji]]; [|done|].
  - by destruct (Hlt i j t u Hij Hi Hj).
  - by destruct (Hlt j i u t Hji Hj Hi).
Qed.

(** X4. In a batch of transactions that have no identifier yet and carry
    dates of the calendar (as every [datetime.date] of Python is), the
    assigner gives no identifier twice: amount, date and ordinal can be
    read back from an identifier, and two transactions with the same date
    and amount get different ordinals. *)
Theorem populateImportIds_distinct (ts : list NewTransaction) :
  Forall (λ t, truthy (import_id t) = false) ts →
  Forall (λ t, datetime.valid_date (var_date t) = true) ts →
  NoDup (import_id <$> _populateImportIds ts)
  ∧ ∀ t u n m, t ∈ ts → u ∈ ts →
      format_import_id t n = format_import_id u m →
      amount t = amount u ∧ var_date t = var_date u ∧ n = m.
Proof.
  intros Hfresh Hvalid. split; [by apply populate_distinct|].
  intros t u n m Ht Hu (Ha & Hd & Hn)%format_import_id_parts.
  rewrite Forall_forall in Hvalid.
  split; [done|]. split; [|done]. apply isoformat_inj; auto.
Qed.

Lemma populateImportIds_distinct_witness :
  Forall (λ t, truthy (import_id t) = false) batch_fresh
  ∧ Forall (λ t, datetime.valid_date (var_date t) = true) batch_fresh
  ∧ NoDup (import_id <$> _populateImportIds batch_fresh).
Proof.
  assert (Forall (λ t, truthy (import_id t) = false) batch_fresh) as H1
    by (repeat constructor).
  assert (Forall (λ t, datetime.valid_date (var_date t) = true) batch_fresh) as H2
    by (repeat constructor).
  split; [exact H1|]. split; [exact H2|].
  exact (proj1 (populateImportIds_distinct batch_fresh H1 H2)).
Defined.

(** X5. Newer transactions put in front of a batch (the batch is new-to-old)
    do not change the identifiers of the older ones: the ordinal counts
    the transactions after a transaction, so an export taken later gives
    the same identifiers to the transactions it shares with an earlier one. *)
Theorem populateImportIds_stable_under_newer (new old : list NewTransaction) :
  Forall (λ t, truthy (import_id t) = false) old →
  drop (length new) (_populateImportIds (new ++ old)) = _populateImportIds old.
Proof.
  intros Hfresh. rewrite (populate_unassigned old) by done. rewrite populate_spec.
  apply list_eq. intros i.
  rewrite lookup_drop, !list_lookup_imap, lookup_app_r by lia.
  replace (length new + i - length new)%nat with i by lia.
  destruct (old !! i) as [x|] eqn:Hi; [|done]. cbn.
  replace (pending (new ++ old) x) with true.
  - unfold ranked. do 3 f_equal.
    replace (S (length new + i)) with (length new + S i)%nat by lia.
    by rewrite drop_app_add.
  - symmetry. apply bool_decide_eq_true_2, Exists_app. right.
    apply Exists_exists. exists x. split; [by eapply list_elem_of_lookup_2|].
    split; [apply same_date_amount_refl|].
    rewrite Forall_forall in Hfresh. apply Hfresh. by eapply list_elem_of_lookup_2.
Qed.

Lemma populateImportIds_stable_under_newer_witness :
  Forall (λ t, truthy (import_id t) = false) batch_fresh
  ∧ drop 1 (_populateImportIds (tx jan13 (-100000) "Fourth" None :: batch_fresh))
    = _populateImportIds batch_fresh.
Proof.
  assert (Forall (λ t, truthy (import_id t) = false) batch_fresh) as H
    by (repeat constructor).
  split; [exact H|].
  exact (populateImportIds_stable_under_newer [tx jan13 (-100000) "Fourth" None] batch_fresh H).
Defined.

(** ** What the importers hand to the API *)

(** One step through a sequence of computations that may raise. *)
Tactic Notation "exc_step" hyp(H) "as" simple_intropattern(x) ident(Hx) :=
  match type of H with
  | bind_exc ?m _ = inr _ =>
      destruct m as [?|x] eqn:Hx; cbn [bind_exc] in H; [discriminate H|]
  end.

(** A text that a field accepts is stored as it is, and is short enough. *)
Lemma validated_inr (max_length : nat) (s p : string) :
  validated max_length s = inr p → p = s ∧ (characters s ≤ max_length)%nat.
Proof.
  unfold validated. destruct (characters s <=? max_length)%nat eqn:H; [|done].
  intros [= <-]. split; [done|]. by apply Nat.leb_le.
Qed.

Lemma validated_inl (max_length : nat) (s : string) (e : exception) :
  validated max_length s = inl e → e = ValueError ∧ (max_length < characters s)%nat.
Proof.
  unfold validated. destruct (characters s <=? max_length)%nat eqn:H; [done|].
  intros [= <-]. split; [done|]. by apply Nat.leb_gt.
Qed.

Lemma for_each_app {S A} (body : S → A → exception + S) (s : S) (l1 l2 : list A) :
  for_each body s (l1 ++ l2)
  = let! s' := for_each body s l1 in for_each body s' l2.
Proof.
  revert s. induction l1 as [|x l1 IH]; intros s; [done|].
  cbn [app for_each]. destruct (body s x) as [e|s']; cbn [bind_exc]; [done|apply IH].
Qed.

Lemma for_each_invariant {S A} (P : S → Prop) (body : S → A → exception + S)
    (l : list A) (s s' : S) :
  (∀ s x s', x ∈ l → P s → body s x = inr s' → P s') →
  P s → for_each body s l = inr s' → P s'.
Proof.
  revert s. induction l as [|x l IH]; intros s Hbody Hs; cbn [for_each].
  - by intros [= <-].
  - destruct (body s x) as [e|s1] eqn:Hx; cbn [bind_exc]; [done|].
    apply IH.
    + intros s2 y s3 Hy. apply Hbody. by right.
    + apply (Hbody s x s1); [by left|done..].
Qed.

Lemma enumerate_elem {A} (l : list A) (i : nat) (x : A) :
  (i, x) ∈ enumerate l → l !! i = Some x.
Proof.
  intros [k Hk]%list_elem_of_lookup. unfold enumerate in Hk.
  rewrite enumerate_from_lookup in Hk.
  destruct (l !! k) as [y|] eqn:Hy; [|done]. by injection Hk as <- <-.
Qed.

(** A loop that ends with an exception got it from its body. *)
Lemma for_each_raised {S A} (body : S → A → exception + S) (l : list A) (s : S)
    (e : exception) :
  for_each body s l = inl e → ∃ s' x, x ∈ l ∧ body s' x = inl e.
Proof.
  revert s. induction l as [|y l IH]; intros s; cbn [for_each]; [done|].
  destruct (body s y) as [e'|s1] eqn:Hy; cbn [bind_exc].
  - intros [= <-]. exists s, y. split; [by left|done].
  - intros (s' & x & Hx & Hb)%IH. exists s', x. split; [by right|done].
Qed.

(** ** The assigner with the check of the identifiers *)

Section validated_assigner.

Implicit Types (t u x : NewTransaction) (ts l : list NewTransaction).

Lemma validated_fits (s : string) :
  validated IMPORT_ID_MAX_LENGTH s = if fits s then inr s else inl ValueError.
Proof. reflexivity. Qed.

Lemma group_fits_snoc start t l x :
  group_fits start t (l ++ [x])
  = group_fits (start + (if same_date_amount t x then 1 else 0)) t l
    && implb (same_date_amount t x) (fits (format_import_id x start)).
Proof.
  induction l as [|y l IH]; cbn [group_fits app].
  - rewrite count_same_nil, Nat.add_0_r. by rewrite andb_true_r.
  - rewrite IH, <- andb_assoc. f_equal.
    rewrite count_same_app, count_same_cons, count_same_nil.
    destruct (same_date_amount t y); [|done]. cbn [implb]. do 2 f_equal.
    destruct (same_date_amount t x); lia.
Qed.

Lemma group_fits_spec start t l :
  group_fits start t l = true
  ↔ ∀ i x, l !! i = Some x → same_date_amount t x = true →
           fits (format_import_id x (start + count_same t (drop (S i) l))) = true.
Proof.
  induction l as [|y l IH]; cbn [group_fits].
  - split; [|done]. by intros _ i x.
  - rewrite andb_true_iff, IH. split.
    + intros [Hy Hl] [|i] x; cbn [lookup list_lookup drop].
      * intros [= ->] Hx. by rewrite Hx in Hy.
      * apply Hl.
    + intros H. split.
      * destruct (same_date_amount t y) eqn:Hy; [|done]. by apply (H 0%nat y).
      * intros i x. apply (H (S i) x).
Qed.

(** The inner loop with the check: it numbers the group as the loop
    without check does, unless one of the identifiers does not fit. *)
Lemma assign_group_validated pre suf post start t :
  for_each assign_import_id_validated (pre ++ suf ++ post)
    (enumerate_from start
       (reverse (filter (λ p, same_date_amount t p.2 = true)
                        (enumerate_from (length pre) suf)).*1))
  = if group_fits start t suf then inr (pre ++ renumber_from start t suf ++ post)
    else inl ValueError.
Proof.
  revert post start.
  induction suf as [|x suf IH] using rev_ind; intros post start; [done|].
  rewrite enumerate_from_snoc, filter_app, fmap_app, reverse_app.
  rewrite renumber_from_snoc, group_fits_snoc, filter_cons, filter_nil. cbn [snd].
  rewrite <- !(assoc_L (++)). cbn [app].
  destruct (same_date_amount t x) eqn:Hx; case_decide; try congruence.
  - cbn [fmap list_fmap fst reverse rev_append app enumerate_from for_each implb].
    assert ((pre ++ suf ++ x :: post) !! (length pre + length suf)%nat = Some x)
      as Hl.
    { rewrite (assoc_L (++)), <- length_app. by apply list_lookup_middle. }
    assert (∀ y, <[(length pre + length suf)%nat := y]> (pre ++ suf ++ x :: post)
                 = pre ++ suf ++ y :: post) as Hi.
    { intros y. rewrite (assoc_L (++)), <- length_app.
      rewrite <- (Nat.add_0_r (length (pre ++ suf))), insert_app_r.
      by rewrite <- (assoc_L (++)). }
    unfold assign_import_id_validated at 1. rewrite Hl, validated_fits.
    destruct (fits (format_import_id x start)); cbn [bind_exc].
    + rewrite Hi, (IH (_ :: post) (S start)), andb_true_r.
      by replace (start + 1)%nat with (S start) by lia.
    + by rewrite andb_false_r.
  - cbn [fmap list_fmap reverse rev_append app implb].
    rewrite (IH (x :: post) start).
    by rewrite Nat.add_0_r, andb_true_r.
Qed.

Lemma populate_at_validated_unassigned ts i t :
  ts !! i = Some t → truthy (import_id t) = false →
  populate_at_validated ts i
  = if group_fits 0 t ts then inr (populate_at ts i) else inl ValueError.
Proof.
  intros Hi Ht. rewrite (populate_at_unassigned ts i t Hi Ht).
  unfold populate_at_validated. rewrite Hi, Ht.
  pose proof (assign_group_validated [] ts [] 0 t) as H.
  rewrite !app_nil_r in H. exact H.
Qed.

Lemma populate_at_validated_assigned ts i t :
  ts !! i = Some t → truthy (import_id t) = true →
  populate_at_validated ts i = inr (populate_at ts i).
Proof.
  intros Hi Ht. rewrite (populate_at_assigned ts i t Hi Ht).
  unfold populate_at_validated. by rewrite Hi, Ht.
Qed.

Lemma enumerate_lookup {A} (l : list A) (i : nat) (x : A) :
  l !! i = Some x → (i, x) ∈ enumerate l.
Proof.
  intros Hi. apply list_elem_of_lookup. exists i. unfold enumerate.
  by rewrite enumerate_from_lookup, Hi.
Qed.

Lemma writes_fit_spec l ts :
  writes_fit l ts = true
  ↔ ∀ i x, ts !! i = Some x → pending l x = true →
           fits (format_import_id x (count_same x (drop (S i) ts))) = true.
Proof.
  unfold writes_fit. rewrite forallb_forall. split.
  - intros H i x Hi Hp. apply enumerate_lookup, list_elem_of_In in Hi.
    specialize (H _ Hi). cbn [fst snd] in H. by rewrite Hp in H.
  - intros H [i x] Hin. apply list_elem_of_In, enumerate_elem in Hin. cbn [fst snd].
    destruct (pending l x) eqn:Hp; [|done]. by apply H.
Qed.

Lemma writes_fit_ext l l' ts :
  (∀ x, pending l x = pending l' x) → writes_fit l ts = writes_fit l' ts.
Proof.
  intros H. apply eq_true_iff_eq. rewrite !writes_fit_spec.
  split; intros Hw i x Hi Hp; apply (Hw i x Hi).
  - by rewrite H.
  - by rewrite <- H.
Qed.

(** The first [k] rounds of the outer loop with the check. *)
Lemma populate_prefix_validated ts k :
  (k ≤ length ts)%nat →
  for_each populate_at_validated ts (seq 0 k)
  = if writes_fit (take k ts) ts then inr (foldl populate_at ts (seq 0 k))
    else inl ValueError.
Proof.
  induction k as [|k IH]; intros Hk.
  - replace (writes_fit (take 0 ts) ts) with true; [done|].
    symmetry. apply writes_fit_spec. intros i x _. cbn [take]. by rewrite pending_nil.
  - rewrite seq_S, for_each_app, foldl_app, IH by lia. cbn [for_each foldl Nat.add].
    destruct (lookup_lt_is_Some_2 ts k) as [tk Htk]; [lia|].
    rewrite (take_S_r _ _ _ Htk).
    destruct (writes_fit (take k ts) ts) eqn:Hw; cbn [bind_exc].
    2:{ replace (writes_fit (take k ts ++ [tk]) ts) with false; [done|].
        symmetry. apply not_true_is_false. intros Hw'.
        apply not_true_iff_false in Hw. apply Hw.
        apply writes_fit_spec. intros i x Hi Hp.
        apply (proj1 (writes_fit_spec _ _) Hw' i x Hi).
        by rewrite pending_snoc, Hp. }
    rewrite populate_prefix by lia.
    set (st := imap _ ts).
    assert (HS : ∀ i, st !! i = (λ x, if pending (take k ts) x
                                     then ranked ts i x else x) <$> ts !! i).
    { intros i. unfold st. by rewrite list_lookup_imap. }
    assert (Hkeys : ∀ t, Forall2 (λ a b, same_date_amount t a = same_date_amount t b) st ts).
    { intros t. apply Forall2_lookup. intros i. rewrite HS.
      destruct (ts !! i) as [x|]; constructor.
      by destruct (pending (take k ts) x). }
    destruct (pending (take k ts) tk) eqn:Hpk.
    + rewrite (populate_at_validated_assigned st k (ranked ts k tk)); cycle 1.
      { by rewrite HS, Htk; simpl; rewrite Hpk. }
      { done. }
      rewrite (writes_fit_ext _ (take k ts)), Hw; [done|].
      intros x. rewrite pending_snoc.
      destruct (same_date_amount x tk) eqn:Hx; [|by rewrite orb_false_r].
      by rewrite <- (pending_same _ _ _ Hx), Hpk.
    + destruct (truthy (import_id tk)) eqn:Htr.
      * rewrite (populate_at_validated_assigned st k tk); cycle 1.
        { by rewrite HS, Htk; simpl; rewrite Hpk. }
        { done. }
        rewrite (writes_fit_ext _ (take k ts)), Hw; [done|].
        intros x. by rewrite pending_snoc, Htr, andb_false_r, orb_false_r.
      * rewrite (populate_at_validated_unassigned st k tk); cycle 1.
        { by rewrite HS, Htk; simpl; rewrite Hpk. }
        { done. }
        assert (∀ i x, ts !! i = Some x → same_date_amount tk x = true →
                       st !! i = Some x
                       ∧ count_same tk (drop (S i) st) = count_same x (drop (S i) ts))
          as Hgroup.
        { intros i x Hi Hx. rewrite HS, Hi. cbn [fmap option_fmap option_map].
          rewrite (pending_same _ _ _ Hx), Hpk. split; [done|].
          rewrite (count_same_same tk x) by done.
          apply count_same_keys, Forall2_drop, Hkeys. }
        replace (group_fits 0 tk st) with (writes_fit (take k ts ++ [tk]) ts);
          [by destruct (writes_fit (take k ts ++ [tk]) ts)|].
        apply eq_true_iff_eq. rewrite writes_fit_spec, group_fits_spec. split.
        -- intros H i y Hy Hty. rewrite HS in Hy.
           destruct (ts !! i) as [x|] eqn:Hi; [|done].
           assert (same_date_amount tk x = true) as Hx.
           { injection Hy as <-. by destruct (pending (take k ts) x). }
           destruct (Hgroup i x Hi Hx) as [Hst Hc].
           rewrite HS, Hi in Hst. cbn [fmap option_fmap option_map] in Hst, Hy.
           rewrite Hst in Hy. injection Hy as <-.
           rewrite Nat.add_0_l, Hc. apply (H i x Hi).
           rewrite pending_snoc, (same_date_amount_sym x tk), Hx, Htr.
           by rewrite orb_true_r.
        -- intros H i x Hi. rewrite pending_snoc.
           intros [Hp|[Hx _]%andb_true_iff]%orb_true_iff.
           ++ by apply (proj1 (writes_fit_spec _ _) Hw i x Hi).
           ++ rewrite same_date_amount_sym in Hx.
              destruct (Hgroup i x Hi Hx) as [Hst Hc].
              specialize (H i x Hst Hx). by rewrite Nat.add_0_l, Hc in H.
Qed.

(** What the assigner with the check does: it raises [ValueError] when an
    identifier it has to write does not fit, and else leaves the batch as
    the assigner without check does. *)
Lemma populate_validated_spec ts :
  _populateImportIds_validated ts
  = if accepted ts then inr (_populateImportIds ts) else inl ValueError.
Proof.
  unfold _populateImportIds_validated, accepted, _populateImportIds.
  rewrite populate_prefix_validated by done. by rewrite firstn_all.
Qed.

End validated_assigner.

(** ** The rows of the importers *)

Lemma checked_date_valid (y m d : Z) (date : datetime.date) :
  checked_date y m d = inr date → datetime.valid_date date = true.
Proof.
  unfold checked_date. destruct (datetime.valid_date _) eqn:Hv; [|done].
  by intros [= <-].
Qed.

Lemma strptime_dmY_valid (s : string) (d : datetime.date) :
  strptime_dmY s = inr d → datetime.valid_date d = true.
Proof.
  unfold strptime_dmY. intros H.
  exc_step H as [dd s1] H1. exc_step H as s2 H2.
  exc_step H as [mm s3] H3. exc_step H as s4 H4.
  exc_step H as [yy s5] H5.
  case_bool_decide; [|done]. by eapply checked_date_valid.
Qed.

Lemma fromisoformat_valid (s : string) (t : datetime.datetime) :
  fromisoformat s = inr t → datetime.valid_date (datetime.date_part t) = true.
Proof.
  unfold fromisoformat. intros H.
  exc_step H as [yy s1] H1. exc_step H as s2 H2.
  exc_step H as [mm s3] H3. exc_step H as s4 H4.
  exc_step H as [dd s5] H5. exc_step H as date Hdate.
  apply checked_date_valid in Hdate.
  destruct s5 as [|c s5]; [by injection H as <-|].
  exc_step H as [hh s6] H6. exc_step H as s7 H7.
  exc_step H as [mi s8] H8. exc_step H as s9 H9.
  exc_step H as [ss s10] H10.
  destruct (_ && _); [|done]. by injection H as <-.
Qed.

Lemma credit_transaction_fresh (account_id : string) (row : CreditCsv.row)
    (t : NewTransaction) :
  credit_transaction account_id row = inr t → new_transaction t.
Proof.
  unfold credit_transaction. intros H.
  exc_step H as d Hd. apply strptime_dmY_valid in Hd.
  exc_step H as p Hp. exc_step H as [a c] Ha. by injection H as <-.
Qed.

Lemma debit_transaction_fresh (account_id : string) (row : DebitCsv.row)
    (t : NewTransaction) :
  debit_transaction account_id row = inr t → new_transaction t.
Proof.
  unfold debit_transaction. intros H.
  exc_step H as d Hd. apply fromisoformat_valid in Hd.
  exc_step H as p Hp. exc_step H as a Ha. by injection H as <-.
Qed.

Lemma revolut_transaction_is_fresh (account_id : string) (row : RevolutCsv.row)
    (t : NewTransaction) :
  revolut_transaction account_id row = inr (Some t) → new_transaction t.
Proof.
  unfold revolut_transaction. intros H.
  destruct (negb _); [done|]. destruct (_ && _); [done|].
  exc_step H as d Hd. apply fromisoformat_valid in Hd.
  exc_step H as p Hp. exc_step H as a Ha. exc_step H as f Hf. by injection H as <-.
Qed.

Lemma credit_transactions_fresh (account_id : string) (rows : list CreditCsv.row)
    (acc ts : list NewTransaction) :
  Forall new_transaction acc → credit_transactions account_id rows acc = inr ts → Forall new_transaction ts.
Proof.
  revert acc. induction rows as [|row rows IH]; intros acc Hacc; cbn [credit_transactions].
  - by intros [= <-].
  - destruct (negb _); [by intros [= <-]|]. intros H. exc_step H as t Ht.
    apply (IH (acc ++ [t])); [|done].
    apply Forall_app_2; [done|]. apply Forall_singleton.
    by eapply credit_transaction_fresh.
Qed.

Lemma debit_transactions_fresh (account_id : string) (rows : list DebitCsv.row)
    (ts : list NewTransaction) :
  debit_transactions account_id rows = inr ts → Forall new_transaction ts.
Proof.
  intros Hloop.
  apply (for_each_invariant (Forall new_transaction) _ _ _ _) with (3 := Hloop); [|done].
  intros s row s' _ Hs H. exc_step H as t Ht. injection H as <-.
  apply Forall_app_2; [done|]. apply Forall_singleton.
  by eapply debit_transaction_fresh.
Qed.

Lemma revolut_transactions_fresh (account_id : string) (rows : list RevolutCsv.row)
    (ts : list NewTransaction) :
  revolut_transactions account_id rows = inr ts → Forall new_transaction ts.
Proof.
  intros Hloop.
  apply (for_each_invariant (Forall new_transaction) _ _ _ _) with (3 := Hloop); [|done].
  intros s row s' _ Hs H. exc_step H as o Ho.
  destruct o as [t|]; injection H as <-; [|done].
  apply Forall_app_2; [done|]. apply Forall_singleton.
  by eapply revolut_transaction_is_fresh.
Qed.

(** A batch of new transactions is submitted as the run should leave it. *)
Lemma fresh_batch_submits_once (budget_id : string) (dry_run : bool)
    (ts : list NewTransaction) :
  Forall new_transaction ts →
  submits_once budget_id dry_run
    (Outcome (_createYnabTransactions budget_id (_populateImportIds ts) dry_run) None).
Proof.
  intros Hfresh. unfold submits_once, _createYnabTransactions. cbn [raised api_calls].
  rewrite bool_decide_eq_false_2 by (by intros [? ?]). rewrite orb_false_r.
  destruct dry_run; [done|].
  exists (_populateImportIds ts). split; [done|]. split; [apply populate_all_assigned|].
  apply populate_distinct.
  - eapply Forall_impl; [exact Hfresh|]. by intros t [-> _].
  - eapply Forall_impl; [exact Hfresh|]. by intros t [_ ?].
Qed.

Lemma raised_submits_once (budget_id : string) (dry_run : bool) (e : exception) :
  submits_once budget_id dry_run (Outcome [] (Some e)).
Proof.
  unfold submits_once. cbn [raised api_calls].
  rewrite bool_decide_eq_true_2 by eauto. by rewrite orb_true_r.
Qed.

(** A batch of new transactions that goes through the assigner with the
    check, in a run that is no dry run: one call with the identifiers of
    rank when they all fit, and else the [ValueError] of the check and no
    call. *)
Lemma validated_batch_outcome (budget_id : string) (ts : list NewTransaction) :
  Forall (λ t, import_id t = None) ts →
  match _populateImportIds_validated ts with
  | inl e => Outcome [] (Some e)
  | inr transactions =>
      Outcome (_createYnabTransactions budget_id transactions false) None
  end
  = if accepted ts then Outcome [(budget_id, imap (ranked ts) ts)] None
    else Outcome [] (Some ValueError).
Proof.
  intros Hnew. rewrite populate_validated_spec.
  destruct (accepted ts); [|done].
  unfold _createYnabTransactions. rewrite populate_unassigned; [done|].
  eapply Forall_impl; [exact Hnew|]. by intros t ->.
Qed.

(** For a batch without identifiers, the check passes exactly when the
    identifier of rank of every transaction has at most 36 characters. *)
Lemma accepted_unassigned (ts : list NewTransaction) :
  Forall (λ t, import_id t = None) ts →
  accepted ts = true
  ↔ Forall (λ t, ∃ s, import_id t = Some s ∧ (characters s ≤ IMPORT_ID_MAX_LENGTH)%nat)
           (imap (ranked ts) ts).
Proof.
  intros Hnew. unfold accepted. rewrite writes_fit_spec, Forall_lookup. split.
  - intros H i t. rewrite list_lookup_imap.
    destruct (ts !! i) as [x|] eqn:Hi; [|done]. intros [= <-].
    eexists. split; [done|]. apply Nat.leb_le. apply (H i x Hi).
    apply bool_decide_eq_true_2, Exists_exists. exists x.
    split; [by eapply list_elem_of_lookup_2|]. split; [apply same_date_amount_refl|].
    rewrite Forall_lookup in Hnew. by rewrite (Hnew i x Hi).
  - intros H i x Hi _. specialize (H i (ranked ts i x)).
    rewrite list_lookup_imap, Hi in H. destruct (H eq_refl) as (s & [= <-] & Hs).
    by apply Nat.leb_le.
Qed.

(** A batch that the check refuses holds a transaction that is to get an
    identifier and whose identifier of rank has more than 36 characters. *)
Lemma not_accepted (ts : list NewTransaction) :
  accepted ts = false →
  ∃ i t, ts !! i = Some t ∧ pending ts t = true
         ∧ (IMPORT_ID_MAX_LENGTH
            < characters (format_import_id t (count_same t (drop (S i) ts))))%nat.
Proof.
  unfold accepted, writes_fit. intros H.
  assert (¬ Forall (λ p, implb (pending ts p.2)
                           (fits (format_import_id p.2
                                    (count_same p.2 (drop (S p.1) ts)))) = true)
                   (enumerate ts)) as Hn.
  { intros Hall. apply not_true_iff_false in H. apply H, forallb_forall.
    intros q Hq%list_elem_of_In. rewrite Forall_forall in Hall. by apply Hall. }
  apply not_Forall_Exists in Hn; [|intros q; apply _].
  apply Exists_exists in Hn as ([i t] & Hin%enumerate_elem & Hf).
  unfold compose in Hf. cbn [fst snd] in Hf. exists i, t. split; [done|].
  destruct (pending ts t); [|by destruct Hf]. cbn [implb] in Hf. split; [done|].
  unfold fits in Hf. apply Nat.leb_gt. by apply not_true_is_false.
Qed.

(** X27. The assigner with the check of the client library.  It raises
    [ValueError] exactly when a transaction that is to get an identifier
    (one whose group has a member without identifier) has an identifier of
    rank of more than 36 characters; else it returns the batch that the
    assigner without check leaves. *)
Theorem populateImportIds_validated_cases (ts : list NewTransaction) :
  (accepted ts = true
   ↔ ∀ i t, ts !! i = Some t → pending ts t = true →
            (characters (format_import_id t (count_same t (drop (S i) ts)))
             ≤ IMPORT_ID_MAX_LENGTH)%nat)
  ∧ (accepted ts = true →
     _populateImportIds_validated ts = inr (_populateImportIds ts))
  ∧ (accepted ts = false →
     _populateImportIds_validated ts = inl ValueError
     ∧ ∃ i t, ts !! i = Some t ∧ pending ts t = true
              ∧ (IMPORT_ID_MAX_LENGTH
                 < characters (format_import_id t
                                 (count_same t (drop (S i) ts))))%nat).
Proof.
  split; [|split].
  - unfold accepted. rewrite writes_fit_spec. unfold fits.
    split; intros H i t Hi Hp; apply Nat.leb_le; by apply H.
  - intros H. by rewrite populate_validated_spec, H.
  - intros H. split; [by rewrite populate_validated_spec, H|by apply not_accepted].
Qed.


(** X6. Each of the three CSV importers, with the checks of the client
    library in place, makes no call to the API in a dry run or after an
    exception, be it of a row or of the check of an identifier; else it
    makes exactly one call, for the given budget, with a batch in which
    every transaction has an identifier and no identifier comes twice (the
    dates come out of the date parsers, so they are dates of the
    calendar). *)
Theorem csv_importers_submit_once (budget_id account_id : string) (dry_run : bool) :
  (∀ rows, submits_once budget_id dry_run
             (importCreditCsv_validated rows budget_id account_id dry_run))
  ∧ (∀ rows, submits_once budget_id dry_run
               (importDebitCsv_validated rows budget_id account_id dry_run))
  ∧ (∀ rows, submits_once budget_id dry_run
               (importRevolutCsv_validated rows budget_id account_id dry_run)).
Proof.
  split; [|split]; intros rows.
  - unfold importCreditCsv_validated.
    destruct (credit_transactions _ _ _) as [e|ts] eqn:H; cbn [bind_exc];
      [apply raised_submits_once|].
    rewrite populate_validated_spec. destruct (accepted ts); [|apply raised_submits_once].
    apply fresh_batch_submits_once. by eapply credit_transactions_fresh.
  - unfold importDebitCsv_validated.
    destruct (debit_transactions _ _) as [e|ts] eqn:H; cbn [bind_exc];
      [apply raised_submits_once|].
    rewrite populate_validated_spec. destruct (accepted ts); [|apply raised_submits_once].
    apply fresh_batch_submits_once. by eapply debit_transactions_fresh.
  - unfold importRevolutCsv_validated.
    destruct (revolut_transactions _ _) as [e|ts] eqn:H; cbn [bind_exc];
      [apply raised_submits_once|].
    rewrite populate_validated_spec.
    destruct (accepted (reverse ts)); [|apply raised_submits_once].
    apply fresh_batch_submits_once, Forall_reverse. by eapply revolut_transactions_fresh.
Qed.

(** The checks at work: an amount of fourteen digits gives an identifier
    of 37 characters, and a payee of 201 characters is refused as well;
    both end the import with [ValueError] and without call. *)
Example checks_of_the_client_library :
  milliunits (DebitCsv.Debit large_row) = inr (-99999999999990)
  ∧ characters "UBS2YNAB:-99999999999990:2000-01-13:0" = 37%nat
  ∧ importDebitCsv_validated [large_row] "some_budget_id" "some_account_id" false
    = Outcome [] (Some ValueError)
  ∧ importDebitCsv_validated [long_payee_row] "some_budget_id" "some_account_id" false
    = Outcome [] (Some ValueError)
  ∧ importDebitCsv [long_payee_row] "some_budget_id" "some_account_id" false
    = Outcome [] (Some ValueError).
Proof. repeat split; vm_compute; reflexivity. Qed.

(** ** More on the CSV importers *)

Lemma credit_transactions_stop (account_id : string) (rows rest : list CreditCsv.row)
    (row : CreditCsv.row) (acc : list NewTransaction) :
  CreditCsv.Account_number row = "" →
  credit_transactions account_id (rows ++ row :: rest) acc
  = credit_transactions account_id rows acc.
Proof.
  intros Hrow. revert acc. induction rows as [|r rows IH]; intros acc.
  - cbn [app credit_transactions]. by rewrite Hrow.
  - cbn [app credit_transactions]. destruct (negb _); [done|].
    destruct (credit_transaction account_id r) as [e|t]; cbn [bind_exc]; [done|].
    apply IH.
Qed.

(** X7. The credit card importer stops at the first row without account
    number: that row and all rows after it are not read, whatever they
    hold, so they can neither add a transaction nor raise. *)
Theorem importCreditCsv_stops_at_summary
    (rows rest : list CreditCsv.row) (row : CreditCsv.row)
    (budget_id account_id : string) (dry_run : bool) :
  CreditCsv.Account_number row = "" →
  importCreditCsv (rows ++ row :: rest) budget_id account_id dry_run
  = importCreditCsv rows budget_id account_id dry_run.
Proof.
  intros Hrow. unfold importCreditCsv.
  by rewrite (credit_transactions_stop account_id rows rest row [] Hrow).
Qed.

Lemma importCreditCsv_stops_at_summary_witness :
  CreditCsv.Account_number summary_row = ""
  ∧ importCreditCsv ([just_amount_row] ++ summary_row :: [summary_row])
                    "some_budget_id" "some_account_id" false
    = importCreditCsv [just_amount_row] "some_budget_id" "some_account_id" false.
Proof.
  split; [reflexivity|].
  exact (importCreditCsv_stops_at_summary [just_amount_row] [summary_row] summary_row
           "some_budget_id" "some_account_id" false eq_refl).
Defined.

Lemma strip_prefix_app (p s : string) : strip_prefix p (p +:+ s) = Some s.
Proof.
  induction p as [|c p IH]; [by destruct s|].
  rewrite append_cons_l. cbn [strip_prefix]. by rewrite bool_decide_eq_true_2.
Qed.

Lemma passed_over_none (account_id : string) (row : RevolutCsv.row) :
  passed_over row → revolut_transaction account_id row = inr None.
Proof.
  unfold revolut_transaction. intros [Hp|[Ht Hd]].
  - destruct (String.eqb _ "Current") eqn:He; [|done].
    by apply String.eqb_eq in He.
  - destruct (negb _); [done|]. rewrite Ht. cbn [String.eqb Ascii.eqb Bool.eqb andb].
    destruct Hd as [[s ->]| ->].
    + unfold startswith. rewrite strip_prefix_app.
      by rewrite bool_decide_eq_true_2 by eauto.
    + by rewrite String.eqb_refl, orb_true_r.
Qed.

(** X8. A Revolut row of another product than Current, or a transfer to a
    pocket or for a balance migration, has no effect on the run: its date,
    amount and fee are not read (so they cannot raise) and the identifiers
    of the other rows are as without it. *)
Theorem importRevolutCsv_passes_over
    (rows1 rows2 : list RevolutCsv.row) (row : RevolutCsv.row)
    (budget_id account_id : string) (dry_run : bool) :
  passed_over row →
  importRevolutCsv (rows1 ++ row :: rows2) budget_id account_id dry_run
  = importRevolutCsv (rows1 ++ rows2) budget_id account_id dry_run.
Proof.
  intros Hrow. unfold importRevolutCsv, revolut_transactions.
  rewrite !for_each_app. cbn [for_each].
  by rewrite (passed_over_none account_id row Hrow).
Qed.

Lemma importRevolutCsv_passes_over_witness :
  passed_over savings_row
  ∧ importRevolutCsv ([fee_row] ++ savings_row :: [fee_row])
                     "some_budget_id" "some_account_id" false
    = importRevolutCsv ([fee_row] ++ [fee_row]) "some_budget_id" "some_account_id" false.
Proof.
  assert (passed_over savings_row) as H by (left; discriminate).
  split; [exact H|].
  exact (importRevolutCsv_passes_over [fee_row] [fee_row] savings_row
           "some_budget_id" "some_account_id" false H).
Defined.

(** The loop of [importDebitCsv] collects one transaction per row, in the
    order of the rows. *)
Lemma debit_loop (account_id : string) (rows : list DebitCsv.row)
    (ts acc : list NewTransaction) :
  Forall2 (λ row t, debit_transaction account_id row = inr t) rows ts →
  for_each (λ (transactions : list NewTransaction) row,
              let! t := debit_transaction account_id row in
              inr (transactions ++ [t]))
           acc rows
  = inr (acc ++ ts).
Proof.
  intros H. revert acc. induction H as [|row t rows ts Hrow _ IH]; intros acc.
  - cbn [for_each]. by rewrite app_nil_r.
  - cbn [for_each]. rewrite Hrow. cbn [bind_exc]. rewrite IH.
    by rewrite <- (assoc_L (++)).
Qed.

Lemma debit_transaction_fields (account_id : string) (row : DebitCsv.row)
    (t : NewTransaction) :
  debit_transaction account_id row = inr t →
  payee_name t = Some (DebitCsv.Description1 row) ∧ cleared t = Some CLEARED.
Proof.
  unfold debit_transaction. intros H.
  exc_step H as d Hd. exc_step H as p Hp. exc_step H as a Ha.
  apply validated_inr in Hp as [-> _]. by injection H as <-.
Qed.

(** X9. When every row of a debit card export is read without error and
    the identifier of every transaction fits the field (at most 36
    characters), the importer hands the transactions to the API in one
    call, in the order of the rows (which is new-to-old), each with the
    identifier of its rank, the payee of its row and the cleared mark.
    When an identifier does not fit, the import ends with the
    [ValueError] of the check and makes no call. *)
Theorem importDebitCsv_submits_in_file_order
    (rows : list DebitCsv.row) (ts : list NewTransaction)
    (budget_id account_id : string) :
  Forall2 (λ row t, debit_transaction account_id row = inr t) rows ts →
  importDebitCsv_validated rows budget_id account_id false
  = (if accepted ts then Outcome [(budget_id, imap (ranked ts) ts)] None
     else Outcome [] (Some ValueError))
  ∧ (accepted ts = true
     ↔ Forall (λ t, ∃ s, import_id t = Some s
                         ∧ (characters s ≤ IMPORT_ID_MAX_LENGTH)%nat)
              (imap (ranked ts) ts))
  ∧ payee_name <$> imap (ranked ts) ts = Some ∘ DebitCsv.Description1 <$> rows
  ∧ Forall (λ t, cleared t = Some CLEARED) (imap (ranked ts) ts).
Proof.
  intros Hrows.
  assert (Forall new_transaction ts) as Hnew.
  { apply Forall_forall. intros t Ht.
    apply list_elem_of_lookup in Ht as [k Hk].
    destruct (Forall2_lookup_r _ _ _ _ _ Hrows Hk) as (row & _ & Hrow).
    by eapply debit_transaction_fresh. }
  assert (Forall (λ t, import_id t = None) ts) as Hnone.
  { eapply Forall_impl; [exact Hnew|]. by intros t [-> _]. }
  split; [|split; [|split]].
  - unfold importDebitCsv_validated, debit_transactions.
    rewrite (debit_loop account_id rows ts [] Hrows). cbn [app bind_exc].
    by apply validated_batch_outcome.
  - by apply accepted_unassigned.
  - apply list_eq. intros k. rewrite !list_lookup_fmap, list_lookup_imap.
    destruct (rows !! k) as [row|] eqn:Hk.
    + destruct (Forall2_lookup_l _ _ _ _ _ Hrows Hk) as (t & -> & Hrow).
      cbn. f_equal. by apply (debit_transaction_fields account_id row t).
    + apply lookup_ge_None in Hk. rewrite (Forall2_length _ _ _ Hrows) in Hk.
      apply lookup_ge_None in Hk. by rewrite Hk.
  - apply Forall_lookup. intros k t'. rewrite list_lookup_imap.
    destruct (ts !! k) as [t|] eqn:Hk; [|done]. intros [= <-].
    destruct (Forall2_lookup_r _ _ _ _ _ Hrows Hk) as (row & _ & Hrow).
    by apply (debit_transaction_fields account_id row t).
Qed.

Lemma importDebitCsv_submits_in_file_order_witness :
  Forall2 (λ row t, debit_transaction "some_account_id" row = inr t)
          [debit_row "First"; debit_row "Second"]
          [debit_fresh "First"; debit_fresh "Second"]
  ∧ importDebitCsv_validated [debit_row "First"; debit_row "Second"]
                             "some_budget_id" "some_account_id" false
    = Outcome [("some_budget_id",
                [debit_tx "First" "UBS2YNAB:1000:2000-01-13:1";
                 debit_tx "Second" "UBS2YNAB:1000:2000-01-13:0"])] None.
Proof.
  assert (Forall2 (λ row t, debit_transaction "some_account_id" row = inr t)
            [debit_row "First"; debit_row "Second"]
            [debit_fresh "First"; debit_fresh "Second"]) as H.
  { repeat constructor; vm_compute; reflexivity. }
  split; [exact H|].
  exact (proj1 (importDebitCsv_submits_in_file_order
                  _ _ "some_budget_id" "some_account_id" H)).
Defined.

(** X10. A row of a debit card export that raises ends the import with that
    exception and nothing is handed to the API, not even the transactions
    of the rows before it; the rows after it are not read. *)
Theorem importDebitCsv_all_or_nothing
    (good rest : list DebitCsv.row) (bad : DebitCsv.row) (ts : list NewTransaction)
    (e : exception) (budget_id account_id : string) (dry_run : bool) :
  Forall2 (λ row t, debit_transaction account_id row = inr t) good ts →
  debit_transaction account_id bad = inl e →
  importDebitCsv (good ++ bad :: rest) budget_id account_id dry_run
  = Outcome [] (Some e).
Proof.
  intros Hgood Hbad. unfold importDebitCsv, debit_transactions.
  rewrite for_each_app, (debit_loop account_id good ts [] Hgood).
  cbn [bind_exc for_each]. by rewrite Hbad.
Qed.

Lemma importDebitCsv_all_or_nothing_witness :
  Forall2 (λ row t, debit_transaction "some_account_id" row = inr t)
          [debit_row "First"; debit_row "Second"]
          [debit_fresh "First"; debit_fresh "Second"]
  ∧ debit_transaction "some_account_id" undated_row = inl ValueError
  ∧ importDebitCsv ([debit_row "First"; debit_row "Second"] ++ undated_row :: [debit_row "Last"])
                   "some_budget_id" "some_account_id" false
    = Outcome [] (Some ValueError).
Proof.
  assert (Forall2 (λ row t, debit_transaction "some_account_id" row = inr t)
            [debit_row "First"; debit_row "Second"]
            [debit_fresh "First"; debit_fresh "Second"]) as H.
  { repeat constructor; vm_compute; reflexivity. }
  assert (debit_transaction "some_account_id" undated_row = inl ValueError) as Hbad
    by (vm_compute; reflexivity).
  split; [exact H|]. split; [exact Hbad|].
  exact (importDebitCsv_all_or_nothing _ [debit_row "Last"] _ _ _
           "some_budget_id" "some_account_id" false H Hbad).
Defined.

(** X11. A filled Credit column decides the amount: the credit card importer
    then reads neither Debit nor Amount, and with an empty Credit and a
    filled Debit it does not read Amount; the debit card importer does not
    read Debit when Credit is filled.  What is not read has no effect,
    not even when it is no number. *)
Theorem filled_column_takes_precedence
    (account_id account_number purchase_date booking_text credit debit amount : string)
    (trade_date description1 : string) (debit' amount' : string) :
  (credit ≠ "" →
   credit_transaction account_id
     (CreditCsv.Row account_number purchase_date booking_text credit debit amount)
   = credit_transaction account_id
       (CreditCsv.Row account_number purchase_date booking_text credit debit' amount'))
  ∧ (debit ≠ "" →
     credit_transaction account_id
       (CreditCsv.Row account_number purchase_date booking_text "" debit amount)
     = credit_transaction account_id
         (CreditCsv.Row account_number purchase_date booking_text "" debit amount'))
  ∧ (credit ≠ "" →
     debit_transaction account_id (DebitCsv.Row trade_date description1 credit debit)
     = debit_transaction account_id (DebitCsv.Row trade_date description1 credit debit')).
Proof.
  assert (∀ s, s ≠ "" → nonempty s = true) as Hne.
  { intros s Hs. unfold nonempty. apply negb_true_iff, String.eqb_neq. done. }
  split; [|split].
  - intros Hc. unfold credit_transaction. cbn [CreditCsv.Credit CreditCsv.Purchase_date
      CreditCsv.Booking_text CreditCsv.Debit CreditCsv.Amount]. by rewrite (Hne _ Hc).
  - intros Hd. unfold credit_transaction. cbn [CreditCsv.Credit CreditCsv.Purchase_date
      CreditCsv.Booking_text CreditCsv.Debit CreditCsv.Amount]. by rewrite (Hne _ Hd).
  - intros Hc. unfold debit_transaction. cbn [DebitCsv.Credit DebitCsv.Debit
      DebitCsv.Trade_date DebitCsv.Description1]. by rewrite (Hne _ Hc).
Qed.

Lemma filled_column_takes_precedence_witness :
  credit_transaction "some_account_id" (credit_row "Test payee" "150.00" "" "100.00")
  = credit_transaction "some_account_id" (credit_row "Test payee" "150.00" "x" "y").
Proof.
  exact (proj1 (filled_column_takes_precedence "some_account_id" "ACC1" "13.01.2000"
                  "Test payee" "150.00" "" "100.00" "" "" "x" "y")
               ltac:(discriminate)).
Defined.

(** ** More on the notification importer *)

Lemma two_decimals_shape (m : Z) :
  0 ≤ m → zero_or_at_least (float_of_decimal false m (-2)).
Proof.
  intros Hm. destruct m as [|p|p]; [by left| |lia].
  right. apply float_of_hundredths_at_least.
Qed.

(** The milliunits of such a float: the conversion overflows or gives a
    number that is not negative, and is above zero when the float is. *)
Lemma int_times_1000 (x : spec_float) :
  zero_or_at_least x →
  int (float_mul x (float_of_Z 1000)) = inl OverflowError
  ∨ ∃ a, int (float_mul x (float_of_Z 1000)) = inr a
         ∧ 0 ≤ a ∧ (float_is_positive x = true → 0 < a).
Proof.
  intros [->|Hx].
  - right. exists 0. split; [by vm_compute|]. split; [done|]. intros [=].
  - pose proof (times_1000_at_least x Hx) as Hy.
    destruct (int (float_mul x (float_of_Z 1000))) as [e|a] eqn:Hint.
    + left. destruct (float_mul x (float_of_Z 1000)) as [| [] | | [] m e']; try done.
    + right. exists a. split; [done|].
      pose proof (int_at_least _ a Hy Hint). split; [lia|done].
Qed.

Lemma int_times_1000_opp (x : spec_float) :
  zero_or_at_least x →
  int (float_mul (SFopp x) (float_of_Z 1000)) = inl OverflowError
  ∨ ∃ a, int (float_mul (SFopp x) (float_of_Z 1000)) = inr a ∧ a ≤ 0.
Proof.
  intros Hx. rewrite float_mul_opp.
  destruct (int_times_1000 x Hx) as [He|(a & Ha & Ha0 & _)].
  - left. by destruct (float_mul x (float_of_Z 1000)) as [| | |].
  - right. exists (- a). split; [by apply int_opp|lia].
Qed.

Lemma card_amount_two_decimals (text g1 g2 g3 : string) :
  UBS_CREDIT_CARD_OUTFLOW_REGEXP text = Some (g1, g2, g3) →
  ∃ m, 0 ≤ m ∧ float_amount g1 = inr (float_of_decimal false m (-2)).
Proof.
  unfold UBS_CREDIT_CARD_OUTFLOW_REGEXP. intros H.
  apply bind_Some in H as (s & _ & H).
  apply bind_Some in H as ([g s1] & Hamt & H).
  apply bind_Some in H as (s2 & _ & H).
  apply bind_Some in H as ([c s3] & _ & H).
  apply bind_Some in H as (s4 & _ & H).
  apply bind_Some in H as ([p s5] & _ & H).
  injection H as <- <- <-.
  by eapply match_amount_two_decimals.
Qed.

Lemma look_at_shape (n nn : Notification) (debit_sum : spec_float) :
  zero_or_at_least debit_sum →
  ∃ x, look_at n nn debit_sum = inr x ∧ zero_or_at_least x.
Proof.
  intros Hd. unfold look_at.
  destruct (debit_nearby _ _ _); [|by exists debit_sum].
  destruct (UBS_DEBIT_CARD_REGEXP (message nn)) as [[[g1 g2] g3]|] eqn:Hre;
    [|by exists debit_sum].
  destruct (account_amount_two_decimals _ _ _ _ Hre) as (m & Hm & ->).
  eexists. split; [done|]. by apply two_decimals_shape.
Qed.

(** Guessing the sum of an inflow notification never raises. *)
Lemma guess_debit_sum_shape (notifications : list Notification) (i : nat)
    (n : Notification) :
  ∃ x, guess_debit_sum notifications i n = inr x ∧ zero_or_at_least x.
Proof.
  unfold guess_debit_sum.
  assert (zero_or_at_least (S754_zero false)) as H0 by (by left).
  assert (∃ x, (if (0 <? i)%nat
                then match notifications !! (i - 1)%nat with
                     | Some nn => look_at n nn (S754_zero false)
                     | None => inr (S754_zero false)
                     end
                else inr (S754_zero false)) = inr x ∧ zero_or_at_least x)
    as (x & -> & Hx).
  { destruct (0 <? i)%nat; [|by eexists].
    destruct (notifications !! (i - 1)%nat) as [nn|]; [|by eexists].
    by apply look_at_shape. }
  cbn [bind_exc]. destruct (_ && _); [|by exists x].
  destruct (notifications !! (i + 1)%nat) as [nn|]; [|by exists x].
  by apply look_at_shape.
Qed.

Lemma account_of_KeyError (account_map : gmap string string) (kind alias : string)
    (e : exception) :
  account_of account_map kind alias = inl e → ∃ arg, e = KeyError arg.
Proof.
  unfold account_of. destruct (account_map !! alias) as [a|]; [|intros [= <-]; eauto].
  destruct (nonempty a); [done|]. intros [= <-]. eauto.
Qed.

(** What a round of the loop can end with. *)
Lemma notification_transaction_cases (account_map : gmap string string)
    (notifications : list Notification) (i : nat) (n : Notification) :
  match notification_transaction account_map notifications i n with
  | inl e =>
      e = OverflowError ∨ (∃ arg, e = KeyError arg)
      ∨ (e = ValueError
         ∧ ∃ g1 card payee,
             UBS_CREDIT_CARD_OUTFLOW_REGEXP (message n) = Some (g1, card, payee)
             ∧ (PAYEE_NAME_MAX_LENGTH < characters payee)%nat)
  | inr None => True
  | inr (Some t) =>
      var_date t = datetime.date_part (date n) ∧ import_id t = None ∧ cleared t = None
      ∧ match UBS_CREDIT_CARD_OUTFLOW_REGEXP (message n),
              UBS_CREDIT_CARD_INFLOW_REGEXP (message n),
              UBS_DEBIT_CARD_REGEXP (message n) with
        | Some (_, _, payee), _, _ => amount t ≤ 0 ∧ payee_name t = Some payee
        | None, Some _, _ => 0 < amount t ∧ payee_name t = None
        | None, None, Some (_, action, _) =>
            (if String.eqb action "debited" then amount t ≤ 0 else 0 ≤ amount t)
            ∧ payee_name t = None
        | None, None, None => False
        end
  end.
Proof.
  unfold notification_transaction.
  destruct (UBS_CREDIT_CARD_OUTFLOW_REGEXP (message n)) as [[[g1 card] payee]|] eqn:Hout.
  - destruct (card_amount_two_decimals _ _ _ _ Hout) as (m & Hm & ->). cbn [bind_exc].
    destruct (account_of account_map "Card" card) as [e|acc] eqn:Hacc; cbn [bind_exc].
    { right. left. by eapply account_of_KeyError. }
    destruct (validated _ payee) as [e|p] eqn:Hp; cbn [bind_exc].
    { apply validated_inl in Hp as [-> Hlen]. right. right. split; [done|].
      by exists g1, card, payee. }
    apply validated_inr in Hp as [-> _].
    destruct (int_times_1000_opp _ (two_decimals_shape m Hm)) as [->|(a & -> & Ha)];
      cbn [bind_exc]; [by left|]. done.
  - destruct (UBS_CREDIT_CARD_INFLOW_REGEXP (message n)) as [card|] eqn:Hin.
    + destruct (guess_debit_sum_shape notifications i n) as (x & -> & Hx). cbn [bind_exc].
      destruct (float_is_positive x) eqn:Hpos; [|done].
      destruct (account_of account_map "Card" card) as [e|acc] eqn:Hacc; cbn [bind_exc].
      { right. left. by eapply account_of_KeyError. }
      destruct (int_times_1000 _ Hx) as [->|(a & -> & _ & Ha)];
        cbn [bind_exc]; [by left|]. cbn. auto 10.
    + destruct (UBS_DEBIT_CARD_REGEXP (message n)) as [[[account action] g3]|] eqn:Hre;
        [|done].
      destruct (account_amount_two_decimals _ _ _ _ Hre) as (m & Hm & ->). cbn [bind_exc].
      destruct (account_of account_map "Account" account) as [e|acc] eqn:Hacc;
        cbn [bind_exc].
      { right. left. by eapply account_of_KeyError. }
      destruct (String.eqb action "debited").
      * destruct (int_times_1000_opp _ (two_decimals_shape m Hm)) as [->|(a & -> & Ha)];
          cbn [bind_exc]; [by left|]. done.
      * destruct (int_times_1000 _ (two_decimals_shape m Hm)) as [->|(a & -> & Ha & _)];
          cbn [bind_exc]; [by left|]. done.
Qed.

(** X12. With no notification the e-mail importer returns at once, without
    call.  With notifications (dated by the calendar) it makes no call in
    a dry run or after an exception, and else exactly one, for the given
    budget, with a batch in which every transaction has an identifier and
    no identifier comes twice. *)
Theorem importUbsFromEmail_submits_once
    (notifications : list Notification) (budget_id : string)
    (account_map : gmap string string) (dry_run : bool) :
  Forall (λ n, datetime.valid_date (datetime.date_part (date n)) = true) notifications →
  match notifications with
  | [] => importUbsFromEmail notifications budget_id account_map dry_run = Outcome [] None
  | _ => submits_once budget_id dry_run
           (importUbsFromEmail notifications budget_id account_map dry_run)
  end.
Proof.
  intros Hvalid. destruct notifications as [|n0 ns]; [done|].
  set (notifications := n0 :: ns) in *. unfold importUbsFromEmail.
  change (match notifications with [] => ?a | _ => ?b end) with b.
  destruct (for_each _ _ _) as [e|ts] eqn:Hloop; [apply raised_submits_once|].
  apply fresh_batch_submits_once, Forall_reverse.
  apply (for_each_invariant (Forall new_transaction) _ _ _ _) with (3 := Hloop); [|done].
  intros s [i n] s' Hin Hs H. unfold notification_step in H. cbn [fst snd] in H.
  apply enumerate_elem in Hin.
  pose proof (notification_transaction_cases account_map notifications i n) as Hcases.
  destruct (notification_transaction account_map notifications i n) as [e|[t|]];
    cbn [bind_exc] in H; [done| |by injection H as <-].
  injection H as <-. apply Forall_app_2; [done|]. apply Forall_singleton.
  destruct Hcases as (Hd & Hid & _). split; [done|]. rewrite Hd.
  rewrite Forall_lookup in Hvalid. by apply (Hvalid i n).
Qed.

Lemma importUbsFromEmail_submits_once_witness :
  Forall (λ n, datetime.valid_date (datetime.date_part (date n)) = true) companion_before
  ∧ submits_once "some_budget_id" false
      (importUbsFromEmail companion_before "some_budget_id" two_accounts false).
Proof.
  assert (Forall (λ n, datetime.valid_date (datetime.date_part (date n)) = true)
            companion_before) as H by (repeat constructor).
  split; [exact H|].
  exact (importUbsFromEmail_submits_once companion_before "some_budget_id"
           two_accounts false H).
Defined.

(** X13. The exceptions of the e-mail importer.  No [ValueError] comes
    from an amount: what a pattern has matched is a number for [float],
    and its product with 1000 is no NaN.  The importer ends with a
    [KeyError], for an alias; with an [OverflowError], for an amount
    beyond the floats; or with the [ValueError] of a check of the client
    library, for the payee of a card charge with more than 200 characters
    or, once the loop over the notifications is through, for an
    identifier with more than 36 characters. *)
Theorem importUbsFromEmail_exceptions
    (notifications : list Notification) (budget_id : string)
    (account_map : gmap string string) (dry_run : bool) (e : exception) :
  raised (importUbsFromEmail_validated notifications budget_id account_map dry_run)
  = Some e →
  e = OverflowError
  ∨ (∃ alias, e = KeyError alias)
  ∨ (e = ValueError
     ∧ ((∃ n g1 card payee,
           n ∈ notifications
           ∧ UBS_CREDIT_CARD_OUTFLOW_REGEXP (message n) = Some (g1, card, payee)
           ∧ (PAYEE_NAME_MAX_LENGTH < characters payee)%nat)
        ∨ (∃ ts i t,
             for_each (notification_step account_map notifications) []
                      (enumerate notifications) = inr ts
             ∧ reverse ts !! i = Some t
             ∧ (IMPORT_ID_MAX_LENGTH
                < characters (format_import_id t
                                (count_same t (drop (S i) (reverse ts)))))%nat))).
Proof.
  unfold importUbsFromEmail_validated. destruct notifications as [|n0 ns]; [done|].
  set (notifications := n0 :: ns).
  destruct (for_each _ _ _) as [e'|ts] eqn:Hloop; cbn [bind_exc].
  - cbn [raised]. intros [= ->].
    apply for_each_raised in Hloop as (s & [i n] & Hin & Hbody).
    unfold notification_step in Hbody. cbn [fst snd] in Hbody.
    pose proof (notification_transaction_cases account_map notifications i n) as Hcases.
    destruct (notification_transaction account_map notifications i n) as [e'|o];
      cbn [bind_exc] in Hbody; [|done].
    injection Hbody as <-.
    destruct Hcases as [He|[He|[He (g1 & card & payee & Hout & Hlen)]]]; [by left|by right; left|].
    right. right. split; [done|]. left. exists n, g1, card, payee.
    split; [|done]. apply enumerate_elem in Hin. by eapply list_elem_of_lookup_2.
  - rewrite populate_validated_spec.
    destruct (accepted (reverse ts)) eqn:Hacc; [done|].
    cbn [raised]. intros [= <-]. right. right. split; [done|]. right.
    destruct (not_accepted _ Hacc) as (i & t & Hi & _ & Hlen). by exists ts, i, t.
Qed.

Lemma importUbsFromEmail_exceptions_witness :
  raised (importUbsFromEmail_validated lone_outflow "some_budget_id" ∅ false)
  = Some (KeyError "1234")
  ∧ raised (importUbsFromEmail_validated long_payee_outflow "some_budget_id"
              {[ "1234" := "some_account_id" ]} false)
    = Some ValueError
  ∧ raised (importUbsFromEmail_validated large_outflow "some_budget_id"
              {[ "1234" := "some_account_id" ]} false)
    = Some ValueError
  ∧ (KeyError "1234" = OverflowError
     ∨ (∃ alias, KeyError "1234" = KeyError alias)
     ∨ (KeyError "1234" = ValueError
        ∧ ((∃ n g1 card payee,
              n ∈ lone_outflow
              ∧ UBS_CREDIT_CARD_OUTFLOW_REGEXP (message n) = Some (g1, card, payee)
              ∧ (PAYEE_NAME_MAX_LENGTH < characters payee)%nat)
           ∨ (∃ ts i t,
                for_each (notification_step ∅ lone_outflow) []
                         (enumerate lone_outflow) = inr ts
                ∧ reverse ts !! i = Some t
                ∧ (IMPORT_ID_MAX_LENGTH
                   < characters (format_import_id t
                                   (count_same t (drop (S i) (reverse ts)))))%nat)))).
Proof.
  assert (raised (importUbsFromEmail_validated lone_outflow "some_budget_id" ∅ false)
          = Some (KeyError "1234")) as H by (vm_compute; reflexivity).
  split; [exact H|]. split; [vm_compute; reflexivity|]. split; [vm_compute; reflexivity|].
  exact (importUbsFromEmail_exceptions lone_outflow "some_budget_id" ∅ false _ H).
Defined.

(** X14. The transaction of a notification carries the date of the
    notification, no cleared mark and no identifier.  A card charge gives
    an amount that is not above zero and the payee of the text; a card
    inflow gives an amount above zero; an account debit an amount not above
    zero and a credit one not below zero, all three without payee. *)
Theorem notification_amount_signs
    (account_map : gmap string string) (notifications : list Notification)
    (i : nat) (n : Notification) (t : NewTransaction) :
  notification_transaction account_map notifications i n = inr (Some t) →
  var_date t = datetime.date_part (date n) ∧ cleared t = None ∧ import_id t = None
  ∧ (∀ g1 card payee,
       UBS_CREDIT_CARD_OUTFLOW_REGEXP (message n) = Some (g1, card, payee) →
       amount t ≤ 0 ∧ payee_name t = Some payee)
  ∧ (∀ card, UBS_CREDIT_CARD_INFLOW_REGEXP (message n) = Some card →
       0 < amount t ∧ payee_name t = None)
  ∧ (∀ account g3, UBS_DEBIT_CARD_REGEXP (message n) = Some (account, "debited", g3) →
       amount t ≤ 0 ∧ payee_name t = None)
  ∧ (∀ account g3, UBS_DEBIT_CARD_REGEXP (message n) = Some (account, "credited", g3) →
       0 ≤ amount t ∧ payee_name t = None).
Proof.
  intros Ht.
  pose proof (notification_transaction_cases account_map notifications i n) as Hcases.
  rewrite Ht in Hcases. destruct Hcases as (Hd & Hid & Hcl & Hcases).
  split; [done|]. split; [done|]. split; [done|].
  split; [|split; [|split]].
  - intros g1 card payee Hout. by rewrite Hout in Hcases.
  - intros card Hin. by rewrite (inflow_is_not_outflow _ _ Hin), Hin in Hcases.
  - intros account g3 Hre. destruct (account_is_not_card _ _ Hre) as [Hout Hin].
    by rewrite Hout, Hin, Hre in Hcases.
  - intros account g3 Hre. destruct (account_is_not_card _ _ Hre) as [Hout Hin].
    by rewrite Hout, Hin, Hre in Hcases.
Qed.

Lemma notification_amount_signs_witness :
  notification_transaction two_accounts companion_before 0 (debit_at 0 59)
  = inr (Some (correlated_transaction "debit_account_id" (debit_at 0 59) (-123450)))
  ∧ amount (correlated_transaction "debit_account_id" (debit_at 0 59) (-123450)) ≤ 0.
Proof.
  assert (notification_transaction two_accounts companion_before 0 (debit_at 0 59)
          = inr (Some (correlated_transaction "debit_account_id" (debit_at 0 59) (-123450))))
    as H by (vm_compute; reflexivity).
  split; [exact H|].
  destruct (notification_amount_signs _ _ _ _ _ H) as (_ & _ & _ & _ & _ & Hdeb & _).
  exact (proj1 (Hdeb "Acc" "123.45" ltac:(vm_compute; reflexivity))).
Defined.

(** X15. When the notification right before an inflow notification is a
    debit of an account within the minute, its amount is the guessed sum
    and the notification after is not looked at, unless that amount is
    zero: then the look at the notification after decides. *)
Theorem preceding_companion_wins
    (notifications : list Notification) (i : nat) (n c : Notification)
    (g1 g3 : string) (x : spec_float) :
  (0 < i)%nat → notifications !! (i - 1)%nat = Some c →
  UBS_DEBIT_CARD_REGEXP (message c) = Some (g1, "debited", g3) →
  Z.abs (datetime.sub (date c) (date n)) < datetime.seconds 60 →
  float_amount g3 = inr x →
  (float_is_zero x = false → guess_debit_sum notifications i n = inr x)
  ∧ (float_is_zero x = true →
     ∀ c', notifications !! (i + 1)%nat = Some c' →
           guess_debit_sum notifications i n = look_at n c' x).
Proof.
  intros Hi Hc Hre Hdelta Hx.
  assert (debit_nearby n c (UBS_DEBIT_CARD_REGEXP (message c)) = true) as Hnear.
  { unfold debit_nearby. rewrite Hre. cbn [String.eqb Ascii.eqb Bool.eqb].
    rewrite andb_true_r. apply Z.ltb_lt. exact Hdelta. }
  assert (look_at n c (S754_zero false) = inr x) as Hlook.
  { by rewrite (look_at_near n c _ _ _ _ Hre Hnear). }
  split.
  - intros Hz. by apply (guess_debit_sum_before notifications i n c x).
  - intros Hz c' Hc'. unfold guess_debit_sum.
    apply Nat.ltb_lt in Hi. rewrite Hi, Hc, Hlook. cbn [bind_exc]. rewrite Hz.
    pose proof (lookup_lt_Some _ _ _ Hc') as Hlen.
    replace (i <? length notifications - 1)%nat with true
      by (symmetry; apply Nat.ltb_lt; lia).
    by rewrite Hc'.
Qed.

Lemma preceding_companion_wins_witness :
  guess_debit_sum two_companions 1 inflow_at_10h
  = inr (S754_finite false 8687021468732621 (-46)).
Proof.
  assert (float_amount "123.45" = inr (S754_finite false 8687021468732621 (-46)))
    as Hx by (vm_compute; reflexivity).
  refine (proj1 (preceding_companion_wins two_companions 1 inflow_at_10h (debit_at 0 59)
                   "Acc" "123.45" _ ltac:(lia) eq_refl
                   ltac:(vm_compute; reflexivity) ltac:(vm_compute; reflexivity) Hx)
                eq_refl).
Defined.

Lemma unknown_none (account_map : gmap string string)
    (notifications : list Notification) (i : nat) (n : Notification) :
  unknown n → notification_transaction account_map notifications i n = inr None.
Proof. intros (Ho & Hi & Hd). unfold notification_transaction. by rewrite Ho, Hi, Hd. Qed.

(** X16. Notifications that none of the three patterns matches are skipped,
    whatever the account map holds; when there is no other notification,
    the API is still called once, with an empty batch. *)
Theorem unknown_notifications_give_empty_batch
    (notifications : list Notification) (budget_id : string)
    (account_map : gmap string string) :
  notifications ≠ [] →
  Forall unknown notifications →
  importUbsFromEmail notifications budget_id account_map false
  = Outcome [(budget_id, [])] None.
Proof.
  intros Hne Hall. unfold importUbsFromEmail.
  destruct notifications as [|n0 ns]; [done|].
  assert (∀ l, Forall (λ p, unknown p.2) l →
               for_each (notification_step account_map (n0 :: ns)) [] l = inr []) as Hloop.
  { induction l as [|[i n] l IH]; [done|]. intros [Hn Hl]%Forall_cons.
    cbn [for_each]. unfold notification_step at 1. cbn [fst snd].
    rewrite (unknown_none _ _ _ _ Hn). cbn [bind_exc]. by apply IH. }
  rewrite Hloop; [done|].
  apply Forall_forall. intros [i n] Hin%enumerate_elem. cbn [snd].
  rewrite Forall_forall in Hall. apply Hall. by eapply list_elem_of_lookup_2.
Qed.

Lemma unknown_notifications_give_empty_batch_witness :
  [some_notification] ≠ []
  ∧ Forall unknown [some_notification]
  ∧ importUbsFromEmail [some_notification] "some_budget_id" ∅ false
    = Outcome [("some_budget_id", [])] None.
Proof.
  assert ([some_notification] ≠ []) as Hne by discriminate.
  assert (Forall unknown [some_notification]) as Hall.
  { repeat constructor. }
  split; [exact Hne|]. split; [exact Hall|].
  exact (unknown_notifications_give_empty_batch _ "some_budget_id" ∅ Hne Hall).
Defined.

(** The loop of [importUbsFromEmail] collects the transactions of the
    rounds, in the order of the notifications. *)
Lemma notification_loop (account_map : gmap string string)
    (notifications : list Notification) (l : list (nat * Notification))
    (os : list (option NewTransaction)) (transactions : list NewTransaction) :
  Forall2 (λ p o, notification_transaction account_map notifications p.1 p.2 = inr o) l os →
  for_each (notification_step account_map notifications) transactions l
  = inr (transactions ++ omap id os).
Proof.
  intros H. revert transactions.
  induction H as [|p o l os Hp _ IH]; intros transactions; cbn [for_each].
  - by rewrite app_nil_r.
  - unfold notification_step at 1. rewrite Hp. cbn [bind_exc]. rewrite IH.
    destruct o as [t|]; cbn [omap list_omap id]; [|done].
    by rewrite <- (assoc_L (++)).
Qed.

(** X17. When every round of the loop ends without exception and the
    identifier of every transaction fits the field, the importer turns
    the list of transactions, which is in the order of the notifications
    (old to new), round once and hands it to the API in one call, each
    transaction with the identifier of its rank.  When an identifier does
    not fit, the import ends with the [ValueError] of the check and makes
    no call. *)
Theorem importUbsFromEmail_submits_newest_first
    (notifications : list Notification) (os : list (option NewTransaction))
    (budget_id : string) (account_map : gmap string string) :
  notifications ≠ [] →
  Forall2 (λ p o, notification_transaction account_map notifications p.1 p.2 = inr o)
          (enumerate notifications) os →
  importUbsFromEmail_validated notifications budget_id account_map false
  = (if accepted (reverse (omap id os))
     then Outcome [(budget_id,
                    imap (ranked (reverse (omap id os))) (reverse (omap id os)))] None
     else Outcome [] (Some ValueError))
  ∧ (accepted (reverse (omap id os)) = true
     ↔ Forall (λ t, ∃ s, import_id t = Some s
                         ∧ (characters s ≤ IMPORT_ID_MAX_LENGTH)%nat)
              (imap (ranked (reverse (omap id os))) (reverse (omap id os)))).
Proof.
  intros Hne Hrounds.
  assert (Forall (λ t, import_id t = None) (reverse (omap id os))) as Hnone.
  { apply Forall_reverse, Forall_forall. intros t Ht.
    apply list_elem_of_omap in Ht as (o & Ho & Hid). simpl in Hid. subst o.
    apply list_elem_of_lookup in Ho as [k Hk].
    destruct (Forall2_lookup_r _ _ _ _ _ Hrounds Hk) as ([i n] & _ & Hround).
    cbn [fst snd] in Hround.
    pose proof (notification_transaction_cases account_map notifications i n) as Hcases.
    rewrite Hround in Hcases. by destruct Hcases as (_ & -> & _). }
  split; [|by apply accepted_unassigned].
  unfold importUbsFromEmail_validated.
  destruct notifications as [|n0 ns]; [done|].
  rewrite (notification_loop _ _ _ os [] Hrounds). cbn [app bind_exc].
  by apply validated_batch_outcome.
Qed.

Lemma importUbsFromEmail_submits_newest_first_witness :
  importUbsFromEmail_validated companion_before "some_budget_id" two_accounts false
  = Outcome [("some_budget_id",
              [set_import_id (correlated_transaction "credit_account_id" inflow_at_10h 123450)
                             "UBS2YNAB:123450:2025-01-02:0";
               set_import_id (correlated_transaction "debit_account_id" (debit_at 0 59) (-123450))
                             "UBS2YNAB:-123450:2025-01-02:0"])] None.
Proof.
  refine (eq_trans (proj1 (importUbsFromEmail_submits_newest_first companion_before
            [Some (correlated_transaction "debit_account_id" (debit_at 0 59) (-123450));
             Some (correlated_transaction "credit_account_id" inflow_at_10h 123450)]
            "some_budget_id" two_accounts _ _)) _).
  - discriminate.
  - repeat constructor; vm_compute; reflexivity.
  - vm_compute. reflexivity.
Defined.

Lemma account_of_empty (account_map : gmap string string) (kind alias : string) :
  account_map !! alias = Some "" →
  ∃ arg, account_of account_map kind alias = inl (KeyError arg).
Proof. intros H. unfold account_of. rewrite H. cbn. eauto. Qed.

(** X18. An alias that the account map sends to the empty text is as fatal as
    one that is no key of the map: the round that looks it up raises, the
    import ends with that exception and makes no call. *)
Theorem alias_mapped_to_nothing_is_fatal
    (notifications : list Notification) (budget_id : string)
    (account_map : gmap string string) (dry_run : bool)
    (i : nat) (n : Notification) (alias : string) :
  notifications !! i = Some n →
  looks_up notifications i n alias →
  account_map !! alias = Some "" →
  ∃ e, importUbsFromEmail notifications budget_id account_map dry_run
       = Outcome [] (Some e).
Proof.
  intros Hi Hlook Hmap.
  assert (∃ e, notification_transaction account_map notifications i n = inl e) as [e He].
  { unfold notification_transaction.
    destruct Hlook as [(g1 & payee & Hout)|[(action & g3 & Hacc)|(Hin & x & Hx & Hpos)]].
    - rewrite Hout. destruct (float_amount g1) as [e|sum]; cbn [bind_exc]; [by exists e|].
      destruct (account_of_empty _ "Card" _ Hmap) as [arg ->]. cbn [bind_exc]. eauto.
    - destruct (account_is_not_card _ _ Hacc) as [-> ->]. rewrite Hacc.
      destruct (float_amount g3) as [e|sum]; cbn [bind_exc]; [by exists e|].
      destruct (account_of_empty _ "Account" _ Hmap) as [arg ->]. cbn [bind_exc]. eauto.
    - rewrite (inflow_is_not_outflow _ _ Hin), Hin, Hx. cbn [bind_exc]. rewrite Hpos.
      destruct (account_of_empty _ "Card" _ Hmap) as [arg ->]. cbn [bind_exc]. eauto. }
  assert ((i, n) ∈ enumerate notifications) as Hin.
  { apply list_elem_of_lookup. exists i.
    unfold enumerate. by rewrite enumerate_from_lookup, Hi. }
  destruct (for_each_raises (notification_step account_map notifications)
              (enumerate notifications) (i, n) Hin) with (s := @nil NewTransaction)
    as [e' He'].
  { intros s. exists e. unfold notification_step. cbn [fst snd]. by rewrite He. }
  exists e'. unfold importUbsFromEmail.
  destruct notifications as [|n0 ns]; [done|]. by rewrite He'.
Qed.

Lemma alias_mapped_to_nothing_is_fatal_witness :
  ∃ e, importUbsFromEmail lone_outflow "some_budget_id" {[ "1234" := "" ]} false
       = Outcome [] (Some e).
Proof.
  apply (alias_mapped_to_nothing_is_fatal lone_outflow "some_budget_id"
           {[ "1234" := "" ]} false 0 _ "1234" eq_refl);
    [|vm_compute; reflexivity].
  left. exists "56.78", "PAYEE". vm_compute. reflexivity.
Defined.

(** ** The messages of the mailbox *)

Lemma append_assoc (a b c : string) : (a +:+ b) +:+ c = a +:+ b +:+ c.
Proof. induction a as [|x a IH]; [done|]. by rewrite !append_cons_l, IH. Qed.

Lemma append_length (a b : string) :
  String.length (a +:+ b) = (String.length a + String.length b)%nat.
Proof. induction a as [|x a IH]; [done|]. rewrite append_cons_l. simpl. by rewrite IH. Qed.

Lemma strip_prefix_Some (p s r : string) : strip_prefix p s = Some r ↔ s = p +:+ r.
Proof.
  split; [|intros ->; apply strip_prefix_app].
  revert s. induction p as [|a p IH]; intros [|b s]; cbn [strip_prefix]; try done.
  - by intros [= <-].
  - by intros [= <-].
  - case_bool_decide; [|done]. subst b. intros ->%IH. done.
Qed.

Lemma find_after_unfold (p s : string) :
  find_after p s
  = match strip_prefix p s with
    | Some r => Some r
    | None => match s with String _ s' => find_after p s' | EmptyString => None end
    end.
Proof. by destruct s. Qed.

Lemma before_last_unfold (p s : string) :
  before_last p s
  = match s with
    | String c s' =>
        match before_last p s' with
        | Some g => Some (String c g)
        | None => if bool_decide (is_Some (strip_prefix p s)) then Some "" else None
        end
    | EmptyString => if bool_decide (p = "") then Some "" else None
    end.
Proof. by destruct s. Qed.

(** What [find_after] returns follows an occurrence of [p]. *)
Lemma find_after_Some (p s r : string) :
  find_after p s = Some r → ∃ pre, s = pre +:+ p +:+ r.
Proof.
  induction s as [|c s IH]; rewrite find_after_unfold.
  - destruct (strip_prefix p "") as [r'|] eqn:Hp; [|done].
    intros [= ->]. apply strip_prefix_Some in Hp. by exists "".
  - destruct (strip_prefix p (String c s)) as [r'|] eqn:Hp.
    + intros [= ->]. apply strip_prefix_Some in Hp. by exists "".
    + intros [pre ->]%IH. by exists (String c pre).
Qed.

Lemma before_last_Some (p s g : string) :
  before_last p s = Some g → ∃ post, s = g +:+ p +:+ post.
Proof.
  revert g. induction s as [|c s IH]; intros g; rewrite before_last_unfold.
  - case_bool_decide; [|done]. intros [= <-]. subst p. by exists "".
  - destruct (before_last p s) as [g'|].
    + intros [= <-]. destruct (IH g' eq_refl) as [post ->]. by exists post.
    + case_bool_decide as Hp; [|done]. intros [= <-].
      destruct Hp as [r Hr]. apply strip_prefix_Some in Hr. by exists r.
Qed.

(** Two ways to cut the same text: the longer tail starts with what the
    shorter head leaves out. *)
Lemma append_tails (a b r r' : string) :
  a +:+ r' = b +:+ r → (String.length a ≤ String.length b)%nat → ∃ k, r' = k +:+ r.
Proof.
  revert b. induction a as [|x a IH]; intros b.
  - rewrite append_nil_l. intros -> _. by exists b.
  - destruct b as [|y b]; [simpl; lia|]. rewrite !append_cons_l.
    intros [= _ H] Hl. apply (IH b H). simpl in Hl. lia.
Qed.

Lemma find_after_occurs (p pre r : string) :
  ∃ k, find_after p (pre +:+ p +:+ r) = Some (k +:+ r).
Proof.
  induction pre as [|c pre IH]; rewrite find_after_unfold.
  - rewrite append_nil_l, strip_prefix_app. by exists "".
  - destruct (strip_prefix p _) as [r'|] eqn:Hp.
    + apply strip_prefix_Some in Hp. rewrite <- append_assoc in Hp. symmetry in Hp.
      apply append_tails in Hp as [k ->]; [by exists k|].
      rewrite append_length. lia.
    + rewrite append_cons_l. exact IH.
Qed.

Lemma before_last_occurs (p a b : string) : is_Some (before_last p (a +:+ p +:+ b)).
Proof.
  induction a as [|c a IH]; rewrite before_last_unfold.
  - rewrite append_nil_l. destruct (p +:+ b) as [|c s] eqn:Hs.
    + destruct p; [by rewrite bool_decide_eq_true_2|done].
    + destruct (before_last p s); [done|].
      rewrite <- Hs, strip_prefix_app. by rewrite bool_decide_eq_true_2 by eauto.
  - rewrite append_cons_l. destruct IH as [g ->]. done.
Qed.

(** X19. The HTML of a message gives a notification exactly when it holds
    the begin marker and, somewhere after it, the end marker; the text
    taken then stands between a begin marker and an end marker of the
    HTML. *)
Theorem notification_regexp_matches_markers (html : string) :
  (is_Some (UBS_NOTIFICATION_REGEXP html)
   ↔ ∃ pre mid post, html = pre +:+ NOTIFICATION_CONTENT_BEGIN +:+ mid +:+
                            NOTIFICATION_CONTENT_END +:+ post)
  ∧ ∀ x, UBS_NOTIFICATION_REGEXP html = Some x →
         ∃ pre post, html = pre +:+ NOTIFICATION_CONTENT_BEGIN +:+ x +:+
                            NOTIFICATION_CONTENT_END +:+ post.
Proof.
  assert (∀ x, UBS_NOTIFICATION_REGEXP html = Some x →
               ∃ pre post, html = pre +:+ NOTIFICATION_CONTENT_BEGIN +:+ x +:+
                                  NOTIFICATION_CONTENT_END +:+ post) as Hsound.
  { intros x. unfold UBS_NOTIFICATION_REGEXP.
    intros (r & [pre ->]%find_after_Some & [post ->]%before_last_Some)%bind_Some.
    by exists pre, post. }
  split; [|exact Hsound]. split.
  - intros [x Hx]. destruct (Hsound x Hx) as (pre & post & ->). by exists pre, x, post.
  - intros (pre & mid & post & ->). unfold UBS_NOTIFICATION_REGEXP.
    destruct (find_after_occurs NOTIFICATION_CONTENT_BEGIN pre
                (mid +:+ NOTIFICATION_CONTENT_END +:+ post)) as [k ->].
    cbn [mbind option_bind]. rewrite <- append_assoc. apply before_last_occurs.
Qed.

Lemma strip_prefix_short (p s r : string) :
  strip_prefix p s = None → (String.length p ≤ String.length s)%nat →
  strip_prefix p (s +:+ r) = None.
Proof.
  revert s. induction p as [|a p IH]; intros [|b s]; cbn [strip_prefix]; try done.
  - simpl. lia.
  - rewrite append_cons_l. cbn [strip_prefix]. case_bool_decide as Hab; [|done].
    intros Hp Hl. apply IH; [done|]. simpl in Hl. lia.
Qed.

Lemma find_after_app (p s t r : string) :
  find_after p s = Some t → find_after p (s +:+ r) = Some (t +:+ r).
Proof.
  induction s as [|c s IH]; intros Ht.
  - rewrite find_after_unfold in Ht.
    destruct (strip_prefix p "") as [r'|] eqn:Hp; [|done].
    injection Ht as ->. apply strip_prefix_Some in Hp.
    destruct p; [|done]. rewrite append_nil_l in Hp. subst t.
    rewrite !append_nil_l. by destruct r.
  - rewrite find_after_unfold in Ht. rewrite find_after_unfold.
    destruct (strip_prefix p (String c s)) as [r'|] eqn:Hp.
    + injection Ht as ->. apply strip_prefix_Some in Hp. rewrite Hp, append_assoc.
      by rewrite strip_prefix_app.
    + rewrite strip_prefix_short; [rewrite append_cons_l; by apply IH|done|].
      apply find_after_Some in Ht as [pre ->].
      cbn [String.length]. rewrite !append_length. lia.
Qed.

Lemma before_last_app (p b s g : string) :
  before_last p s = Some g → before_last p (b +:+ s) = Some (b +:+ g).
Proof.
  intros Hs. induction b as [|c b IH]; [done|].
  rewrite !append_cons_l, before_last_unfold. by rewrite IH.
Qed.

(** X20. When no begin marker starts before the one that ends [pre] and no
    end marker follows the one before [post], the text taken is all that
    stands between the two, newlines and further markers included. *)
Theorem notification_is_text_between_markers (pre body post : string) :
  find_after NOTIFICATION_CONTENT_BEGIN (pre +:+ NOTIFICATION_CONTENT_BEGIN) = Some "" →
  before_last NOTIFICATION_CONTENT_END (NOTIFICATION_CONTENT_END +:+ post) = Some "" →
  UBS_NOTIFICATION_REGEXP (pre +:+ NOTIFICATION_CONTENT_BEGIN +:+ body +:+
                           NOTIFICATION_CONTENT_END +:+ post)
  = Some body.
Proof.
  intros Hpre Hpost. unfold UBS_NOTIFICATION_REGEXP.
  rewrite <- (append_assoc pre).
  rewrite (find_after_app _ _ _ _ Hpre). rewrite append_nil_l. cbn [mbind option_bind].
  rewrite (before_last_app _ body _ _ Hpost). by rewrite append_nil_r.
Qed.

Lemma notification_is_text_between_markers_witness :
  UBS_NOTIFICATION_REGEXP (good_notification "Some notification")
  = Some (String newline ("Some notification" +:+ String newline "")).
Proof.
  exact (notification_is_text_between_markers
           "" (String newline ("Some notification" +:+ String newline "")) ""
           ltac:(vm_compute; reflexivity) ltac:(vm_compute; reflexivity)).
Defined.

Lemma notification_regexp_matches_markers_witness :
  is_Some (UBS_NOTIFICATION_REGEXP (good_notification "Some notification")).
Proof.
  apply (proj1 (notification_regexp_matches_markers _)).
  exists "", (String newline ("Some notification" +:+ String newline "")), "".
  reflexivity.
Defined.

Lemma lstrip_unfold (s : string) :
  lstrip s = match strip_space s with Some r => lstrip r | None => s end.
Proof.
  destruct s as [|a [|b [|c r]]]; cbn [lstrip strip_space]; [done|..].
  - by destruct (space1 a).
  - destruct (space1 a); [done|]. by destruct (space2 a b).
  - destruct (space1 a); [done|]. destruct (space2 a b); [done|].
    by destruct (space3 a b c).
Qed.

Lemma strip_space_shorter (s r : string) :
  strip_space s = Some r → (String.length r < String.length s)%nat.
Proof.
  destruct s as [|a [|b [|c r']]]; cbn [strip_space]; [done|..].
  - destruct (space1 a); [|done]. intros [= <-]. simpl. lia.
  - destruct (space1 a); [intros [= <-]; simpl; lia|].
    destruct (space2 a b); [|done]. intros [= <-]. simpl. lia.
  - destruct (space1 a); [intros [= <-]; simpl; lia|].
    destruct (space2 a b); [intros [= <-]; simpl; lia|].
    destruct (space3 a b c); [|done]. intros [= <-]. simpl. lia.
Qed.

(** A white-space character at the start of a text is one at the start
    of every text that goes on from it. *)
Lemma strip_space_app (s r w : string) :
  strip_space s = Some r → strip_space (s +:+ w) = Some (r +:+ w).
Proof.
  destruct s as [|a [|b [|c r']]]; rewrite ?append_cons_l; cbn [strip_space]; [done|..].
  - destruct (space1 a); [|done]. by intros [= <-].
  - destruct (space1 a); [by intros [= <-]|].
    rewrite append_nil_l. destruct w as [|d w]; [|destruct (space2 a b)];
      destruct (space2 a b); try done; by intros [= <-].
  - destruct (space1 a); [by intros [= <-]|].
    destruct (space2 a b); [by intros [= <-]|].
    destruct (space3 a b c); [|done]. by intros [= <-].
Qed.

Lemma string_length_ind (P : string → Prop) :
  (∀ s, (∀ r, (String.length r < String.length s)%nat → P r) → P s) → ∀ s, P s.
Proof.
  intros Hstep s. remember (String.length s) as n eqn:Hn. revert s Hn.
  induction n as [n IH] using lt_wf_ind. intros s ->.
  apply Hstep. intros r Hr. by apply (IH _ Hr).
Qed.

(** What [lstrip] returns starts with no white space. *)
Lemma lstrip_no_space (s : string) : strip_space (lstrip s) = None.
Proof.
  induction s as [s IH] using string_length_ind. rewrite lstrip_unfold.
  destruct (strip_space s) as [r|] eqn:Hs; [|done].
  by apply IH, strip_space_shorter.
Qed.

(** White space in front of a text is stripped with what the text starts
    with. *)
Lemma lstrip_app (a w : string) : lstrip a = "" → lstrip (a +:+ w) = lstrip w.
Proof.
  induction a as [a IH] using string_length_ind. rewrite lstrip_unfold.
  destruct (strip_space a) as [r|] eqn:Hs.
  - intros Hr. rewrite (lstrip_unfold (a +:+ w)), (strip_space_app _ _ w Hs).
    apply IH; [by apply strip_space_shorter|done].
  - intros ->. by rewrite append_nil_l.
Qed.

Lemma rstrip_unfold (c : ascii) (s : string) :
  rstrip (String c s)
  = if bool_decide (lstrip (String c s) = "") then "" else String c (rstrip s).
Proof. reflexivity. Qed.

(** What [rstrip] cuts off is white space. *)
Lemma rstrip_tail (s : string) : ∃ w, s = rstrip s +:+ w ∧ lstrip w = "".
Proof.
  induction s as [|c s (w & Hs & Hw)]; [by exists ""|]. rewrite rstrip_unfold.
  case_bool_decide as Hc; [by exists (String c s)|].
  exists w. split; [|done]. rewrite append_cons_l. by f_equal.
Qed.

(** A text that is not all white space stays so when the white space at
    its end is cut off. *)
Lemma rstrip_keeps_text (c : ascii) (s : string) :
  lstrip (String c s) ≠ "" → lstrip (String c (rstrip s)) ≠ "".
Proof.
  intros Hc Hr. apply Hc. destruct (rstrip_tail s) as (w & Hs & Hw).
  replace (String c s) with (String c (rstrip s) +:+ w)
    by (rewrite append_cons_l; by f_equal).
  by rewrite (lstrip_app _ w Hr).
Qed.

Lemma rstrip_idem (s : string) : rstrip (rstrip s) = rstrip s.
Proof.
  induction s as [|c s IH]; [done|]. rewrite rstrip_unfold.
  case_bool_decide as Hc; [done|]. rewrite rstrip_unfold, IH.
  by rewrite bool_decide_eq_false_2 by (by apply rstrip_keeps_text).
Qed.

(** What [rstrip] returns ends with no white space: none of its tails
    but the empty one is all white space. *)
Lemma rstrip_no_space (s a w : string) :
  rstrip s = a +:+ w → w ≠ "" → lstrip w ≠ "".
Proof.
  revert a. induction s as [|c s IH]; intros a.
  - cbn [rstrip]. destruct a as [|d a]; [|discriminate].
    change ("" +:+ w) with w. by intros <-.
  - rewrite rstrip_unfold. case_bool_decide as Hc.
    + destruct a as [|d a]; [|discriminate].
      change ("" +:+ w) with w. by intros <-.
    + destruct a as [|d a].
      * change ("" +:+ w) with w. intros <- _. by apply rstrip_keeps_text.
      * change (String d a +:+ w) with (String d (a +:+ w)).
        intros [= _ Hs]. by apply (IH a).
Qed.

(** Cutting white space off the end brings none to the start. *)
Lemma rstrip_lstrip (s : string) : strip_space (rstrip (lstrip s)) = None.
Proof.
  destruct (strip_space (rstrip (lstrip s))) as [r|] eqn:Hr; [|done].
  destruct (rstrip_tail (lstrip s)) as (w & Hs & _).
  apply (strip_space_app _ _ w) in Hr. rewrite <- Hs in Hr.
  by rewrite lstrip_no_space in Hr.
Qed.

(** Stripping a stripped text changes nothing. *)
Lemma strip_idem (s : string) : strip (strip s) = strip s.
Proof.
  unfold strip. rewrite (lstrip_unfold (rstrip (lstrip s))), rstrip_lstrip.
  apply rstrip_idem.
Qed.

(** X21. Every notification read from the mailbox comes from a message with
    the markers, carries the date of that message, and its text is
    stripped of white space, the white space outside ASCII included:
    stripping it again changes nothing, no white-space character stands
    at its start, so the anchored patterns see the first character of the
    text, and none of its tails is all white space. *)
Theorem mailbox_notifications_are_stripped
    (msgs : list Mail.message) (n : Notification) :
  n ∈ mailbox_notifications msgs →
  strip (message n) = message n
  ∧ strip_space (message n) = None
  ∧ (∀ a w, message n = a +:+ w → w ≠ "" → lstrip w ≠ "")
  ∧ ∃ m x, m ∈ msgs ∧ UBS_NOTIFICATION_REGEXP (Mail.html m) = Some x
           ∧ date n = Mail.date m ∧ message n = strip x.
Proof.
  unfold mailbox_notifications. intros (m & Hm & Hn)%list_elem_of_omap.
  apply bind_Some in Hn as (x & Hx & [= <-]). cbn [message date].
  split; [apply strip_idem|]. split; [apply rstrip_lstrip|].
  split; [intros a w; apply rstrip_no_space|]. by exists m, x.
Qed.

Lemma mailbox_notifications_are_stripped_witness :
  {| date := at_10h 0 0; message := "Some notification" |}
  ∈ mailbox_notifications
      [Mail.Message (at_10h 0 0)
         (good_notification (no_break_space +:+ "Some notification" +:+ em_space))]
  ∧ strip "Some notification" = "Some notification".
Proof.
  assert ({| date := at_10h 0 0; message := "Some notification" |}
          ∈ mailbox_notifications
              [Mail.Message (at_10h 0 0)
                 (good_notification
                    (no_break_space +:+ "Some notification" +:+ em_space))]) as H.
  { apply list_elem_of_lookup. exists 0%nat. vm_compute. reflexivity. }
  split; [exact H|].
  exact (proj1 (mailbox_notifications_are_stripped _ _ H)).
Defined.

(** X22. A mailbox in which no message holds the markers gives no
    notification, and the importer returns without call and without
    exception, dry run or not. *)
Theorem mailbox_without_markers_makes_no_call
    (msgs : list Mail.message) (budget_id : string)
    (account_map : gmap string string) (dry_run : bool) :
  Forall (λ m, UBS_NOTIFICATION_REGEXP (Mail.html m) = None) msgs →
  importUbsFromMailbox msgs budget_id account_map dry_run = Outcome [] None.
Proof.
  intros Hall. unfold importUbsFromMailbox.
  replace (mailbox_notifications msgs) with (@nil Notification); [done|].
  unfold mailbox_notifications.
  induction Hall as [|m msgs Hm _ IH]; [done|]. cbn [omap list_omap]. by rewrite Hm.
Qed.

Lemma mailbox_without_markers_makes_no_call_witness :
  Forall (λ m, UBS_NOTIFICATION_REGEXP (Mail.html m) = None) [random_email]
  ∧ importUbsFromMailbox [random_email] "some_budget_id"
      {[ "1234" := "some_account_id" ]} false
    = Outcome [] None.
Proof.
  assert (Forall (λ m, UBS_NOTIFICATION_REGEXP (Mail.html m) = None) [random_email]) as H.
  { repeat constructor. }
  split; [exact H|].
  exact (mailbox_without_markers_makes_no_call _ _ _ _ H).
Defined.

(** ** The account map *)

Lemma split_unfold (sep c : ascii) (s : string) :
  split sep (String c s)
  = if bool_decide (c = sep) then "" :: split sep s
    else match split sep s with
         | part :: parts => String c part :: parts
         | [] => [String c ""]
         end.
Proof. reflexivity. Qed.

Lemma split_without (sep : ascii) (s : string) :
  without sep s = true → split sep s = [s].
Proof.
  induction s as [|c s IH]; [done|]. cbn [without].
  intros [Hc Hs]%andb_true_iff. apply negb_true_iff, Ascii.eqb_neq in Hc.
  rewrite split_unfold, bool_decide_eq_false_2 by done. by rewrite IH.
Qed.

Lemma split_app (sep : ascii) (a b : string) :
  without sep a = true → split sep (a +:+ String sep b) = a :: split sep b.
Proof.
  induction a as [|c a IH].
  - intros _. rewrite append_nil_l, split_unfold. by rewrite bool_decide_eq_true_2.
  - cbn [without]. intros [Hc Ha]%andb_true_iff.
    apply negb_true_iff, Ascii.eqb_neq in Hc.
    rewrite append_cons_l, split_unfold, bool_decide_eq_false_2 by done.
    by rewrite IH.
Qed.

Lemma split_account_map_text (items : list (string * string)) :
  items ≠ [] →
  Forall (λ p, plain p.1 = true ∧ plain p.2 = true) items →
  split ";" (account_map_text items) = (λ p, p.1 +:+ "=" +:+ p.2) <$> items.
Proof.
  intros Hne Hall. induction Hall as [|[k v] items [Hk Hv] Hitems IH]; [done|].
  cbn [fst snd] in *. unfold plain in Hk, Hv.
  apply andb_true_iff in Hk as [Hk _]. apply andb_true_iff in Hv as [Hv _].
  assert (without ";" (k +:+ "=" +:+ v) = true) as Hkv.
  { by rewrite !without_app, Hk, Hv. }
  cbn [account_map_text fmap list_fmap fst snd]. destruct items as [|item items].
  - rewrite append_nil_r. by apply split_without.
  - replace (k +:+ "=" +:+ v +:+ ";" +:+ account_map_text (item :: items))
      with ((k +:+ "=" +:+ v) +:+ String ";" (account_map_text (item :: items)))
      by (by rewrite (append_assoc k), (append_assoc "=")).
    rewrite split_app by done. by rewrite IH.
Qed.

Lemma split_key_value (k v : string) :
  plain k = true → plain v = true → split "=" (k +:+ "=" +:+ v) = [k; v].
Proof.
  unfold plain. intros [_ Hk]%andb_true_iff [_ Hv]%andb_true_iff.
  change (k +:+ "=" +:+ v) with (k +:+ String "=" v).
  rewrite split_app by done. by rewrite split_without.
Qed.

(** X23. The account map of the command line reads back: the text
    [k1=v1;k2=v2;...], with keys and values that hold neither separator,
    gives the map of these pairs, a later pair replacing an earlier one
    with the same key. *)
Theorem parse_account_map_reads_back (items : list (string * string)) :
  items ≠ [] →
  Forall (λ p, plain p.1 = true ∧ plain p.2 = true) items →
  parse_account_map (account_map_text items) = inr (list_to_map (reverse items)).
Proof.
  intros Hne Hall. unfold parse_account_map.
  rewrite split_account_map_text by done.
  assert (∀ acc : gmap string string,
            for_each (λ (acc_map : gmap string string) item,
                        match split "=" item with
                        | [key; value] => inr (<[key := value]> acc_map)
                        | _ => inl ValueError
                        end)
                     acc (fmap (M:=list) (λ p : string * string, p.1 +:+ "=" +:+ p.2) items)
            = inr (foldl (λ m (p : string * string), <[p.1 := p.2]> m) acc items)) as Hloop.
  { clear Hne. induction Hall as [|[k v] items [Hk Hv] _ IH]; intros acc; [done|].
    cbn [fmap list_fmap for_each foldl fst snd] in *.
    rewrite split_key_value by done. cbn [bind_exc]. apply IH. }
  rewrite Hloop. f_equal.
  rewrite <- (reverse_involutive items) at 1. generalize (reverse items). intros l.
  induction l as [|[k v] l IH]; [done|].
  rewrite reverse_cons, foldl_app. cbn [foldl fst snd list_to_map foldr]. by rewrite IH.
Qed.

Lemma parse_account_map_reads_back_witness :
  parse_account_map "1234=credit_account_id;Acc=debit_account_id" = inr two_accounts.
Proof.
  assert (list_to_map (reverse [("1234", "credit_account_id"); ("Acc", "debit_account_id")])
          = two_accounts) as <- by (vm_compute; reflexivity).
  apply (parse_account_map_reads_back
           [("1234", "credit_account_id"); ("Acc", "debit_account_id")]).
  - discriminate.
  - repeat constructor.
Defined.

Lemma split_nonempty (sep : ascii) (s : string) : split sep s ≠ [].
Proof.
  destruct s as [|c s]; [done|]. rewrite split_unfold.
  case_bool_decide; [done|]. by destruct (split sep s).
Qed.

Lemma split_trailing (sep : ascii) (s : string) :
  split sep (s +:+ String sep "") = split sep s ++ [""].
Proof.
  induction s as [|c s IH].
  - rewrite append_nil_l, split_unfold. by rewrite bool_decide_eq_true_2.
  - rewrite append_cons_l, !split_unfold. case_bool_decide; [by rewrite IH|].
    rewrite IH. pose proof (split_nonempty sep s).
    by destruct (split sep s).
Qed.

(** X24. An account map text that ends with a semicolon, and the empty text,
    are refused with a [ValueError]; no other exception comes out of the
    reading of the account map. *)
Theorem parse_account_map_rejects (account_map : string) :
  parse_account_map (account_map +:+ ";") = inl ValueError
  ∧ parse_account_map "" = inl ValueError
  ∧ ∀ e, parse_account_map account_map = inl e → e = ValueError.
Proof.
  assert (∀ s e, parse_account_map s = inl e → e = ValueError) as Hkind.
  { intros s e. unfold parse_account_map.
    intros (acc & item & _ & Hbody)%for_each_raised.
    destruct (split "=" item) as [|k [|v [|? ?]]]; congruence. }
  split; [|split; [done|apply Hkind]].
  destruct (parse_account_map (account_map +:+ ";")) as [e|m] eqn:Hp.
  { f_equal. by eapply Hkind. }
  unfold parse_account_map in Hp.
  change (account_map +:+ ";") with (account_map +:+ String ";" "") in Hp.
  rewrite split_trailing, for_each_app in Hp.
  destruct (for_each _ ∅ (split ";" account_map)) as [e|m']; cbn [bind_exc] in Hp; done.
Qed.

(** ** The size of the conversion to milliunits *)

Lemma digits2_pos_le (p : positive) (k : Z) :
  0 ≤ k → Zpos p < 2 ^ k → Zpos (digits2_pos p) ≤ k.
Proof.
  intros Hk Hp. destruct (digits2_pos_bounds p) as [Hlo _].
  assert (2 ^ (Zpos (digits2_pos p) - 1) < 2 ^ k) as H by lia.
  apply Z.pow_lt_mono_r_iff in H; lia.
Qed.

(** Rounding a positive number of at least 53 bits, in the range of the
    normal numbers: the result is finite, its mantissa has 53 bits, and
    the number lies less than one unit in the last place from it. *)
Lemma binary_round_aux_bracket (sx : bool) (mx : positive) (ex : Z) (lx : location) :
  53 ≤ Zpos (digits2_pos mx) →
  -1074 ≤ Zpos (digits2_pos mx) + ex - 53 →
  Zpos (digits2_pos mx) + ex - 52 ≤ 971 →
  ∃ m e, binary_round_aux prec emax sx (Zpos mx) ex lx = S754_finite sx m e
         ∧ 2 ^ 52 ≤ Zpos m < 2 ^ 53
         ∧ Zpos (digits2_pos mx) - 53 ≤ e - ex ≤ Zpos (digits2_pos mx) - 52
         ∧ (Zpos m - 1) * 2 ^ (e - ex) ≤ Zpos mx < (Zpos m + 1) * 2 ^ (e - ex).
Proof.
  intros Hd Hemin Hemax. unfold binary_round_aux.
  destruct (shr_fexp_m (Zpos mx) ex lx) as [Hm1 He1]; [lia|].
  destruct (shr_fexp prec emax (Zpos mx) ex lx) as [mrs1 e1]. cbn [fst snd] in *.
  cbn [Zdigits2] in Hm1, He1.
  rewrite fexp_normal in Hm1, He1 by lia.
  set (d := Zpos (digits2_pos mx)) in *.
  replace (Z.max 0 (d + ex - 53 - ex)) with (d - 53) in Hm1, He1 by lia.
  pose proof (leading_53_bits mx Hd) as Hb1. fold d in Hb1. rewrite <- Hm1 in Hb1.
  assert (0 < 2 ^ (d - 53)) as Hpow by (apply Z.pow_pos_nonneg; lia).
  assert (shr_m mrs1 * 2 ^ (d - 53) ≤ Zpos mx < (shr_m mrs1 + 1) * 2 ^ (d - 53)) as Hq.
  { rewrite Hm1. split.
    - rewrite Z.mul_comm. apply Z.mul_div_le. done.
    - rewrite Z.mul_comm. apply Z.mul_succ_div_gt. done. }
  pose proof (round_nearest_even_bounds (shr_m mrs1) (loc_of_shr_record mrs1)) as Hr.
  set (r := round_nearest_even (shr_m mrs1) (loc_of_shr_record mrs1)) in *.
  destruct r as [|pr|pr] eqn:Hpr; [lia| |lia].
  destruct (shr_fexp_m (Zpos pr) e1 loc_Exact) as [Hm2 He2]; [lia|].
  destruct (shr_fexp prec emax (Zpos pr) e1 loc_Exact) as [mrs2 e2]. cbn [fst snd] in *.
  cbn [Zdigits2] in Hm2, He2.
  assert (53 ≤ Zpos (digits2_pos pr)) as Hdr by (apply (digits2_pos_ge pr 52); lia).
  assert (Zpos (digits2_pos pr) ≤ 54) as Hdr'.
  { apply digits2_pos_le; [lia|]. change (2 ^ 54) with (2 * 2 ^ 53). lia. }
  rewrite fexp_normal in Hm2, He2 by lia.
  replace (Z.max 0 (Zpos (digits2_pos pr) + e1 - 53 - e1))
    with (Zpos (digits2_pos pr) - 53) in Hm2, He2 by lia.
  assert (Zpos (digits2_pos pr) = 53 ∨ Zpos (digits2_pos pr) = 54) as [Hcase|Hcase] by lia;
    rewrite Hcase in Hm2, He2.
  - change (2 ^ (53 - 53)) with 1 in Hm2. rewrite Z.div_1_r in Hm2.
    assert (Zpos pr < 2 ^ 53) as Hlt.
    { destruct (digits2_pos_bounds pr) as [_ H]. by rewrite Hcase in H. }
    rewrite Hm2. replace (e2 <=? emax - prec) with true
      by (symmetry; apply Z.leb_le; unfold emax, prec; lia).
    exists pr, e2. split; [done|]. split; [lia|]. split; [lia|].
    replace (e2 - ex) with (d - 53) by lia. nia.
  - assert (Zpos pr = 2 ^ 53) as Hpr53.
    { destruct (digits2_pos_bounds pr) as [H _]. rewrite Hcase in H.
      change (2 ^ (54 - 1)) with (2 ^ 53) in H. lia. }
    rewrite Hpr53 in Hm2. change (2 ^ 53 / 2 ^ (54 - 53)) with (2 ^ 52) in Hm2.
    rewrite Hm2. change (2 ^ 52) with (Zpos 4503599627370496).
    replace (e2 <=? emax - prec) with true
      by (symmetry; apply Z.leb_le; unfold emax, prec; lia).
    exists 4503599627370496%positive, e2. split; [done|]. split; [by vm_compute|].
    split; [lia|].
    replace (e2 - ex) with (d - 53 + 1) by lia.
    rewrite Z.pow_add_r by lia. change (2 ^ 1) with 2.
    assert (shr_m mrs1 = 2 ^ 53 - 1) as Hs by lia. rewrite Hs in Hq.
    change (2 ^ 53 - 1 + 1) with (2 ^ 53) in Hq.
    change (2 ^ 53 - 1) with 9007199254740991 in Hq.
    change (2 ^ 53) with 9007199254740992 in Hq. nia.
Qed.

(** The float of a number of hundredths below [2^40]: less than one unit
    in the last place from the quotient. *)
Lemma float_of_hundredths_bracket (p : positive) :
  Zpos p < 2 ^ 40 →
  ∃ m e, float_of_decimal false (Zpos p) (-2) = S754_finite false m e
         ∧ 2 ^ 52 ≤ Zpos m < 2 ^ 53
         ∧ 0 ≤ e + (60 - Zpos (digits2_pos p)) ≤ 2
         ∧ 100 * (Zpos m - 1) * 2 ^ (e + (60 - Zpos (digits2_pos p)))
           ≤ Zpos p * 2 ^ (60 - Zpos (digits2_pos p))
           < 100 * (Zpos m + 1) * 2 ^ (e + (60 - Zpos (digits2_pos p))).
Proof.
  intros Hp. unfold float_of_decimal. cbn [Z.leb Z.compare Z.opp].
  change (Z.to_pos (10 ^ (- (-2)))) with 100%positive.
  unfold SFdiv, SFdiv_core_binary. cbn [xorb].
  pose proof (digits2_pos_bounds p) as [Hlo Hhi].
  assert (1 ≤ Zpos (digits2_pos p)) as Hd1 by lia.
  assert (Zpos (digits2_pos p) ≤ 40) as Hd40 by (apply digits2_pos_le; lia).
  change (Zdigits2 (Zpos 100)) with 7. cbn [Zdigits2].
  replace (Zpos (digits2_pos p) + 0 - (7 + 0)) with (Zpos (digits2_pos p) - 7) by lia.
  rewrite fexp_normal by lia.
  set (d1 := Zpos (digits2_pos p)) in *.
  replace (Z.min (d1 - 7 - 53) (0 - 0)) with (d1 - 60) by lia.
  replace (0 - 0 - (d1 - 60)) with (60 - d1) by lia.
  set (s := 60 - d1) in *.
  assert (0 < 2 ^ s) as Hs by (apply Z.pow_pos_nonneg; lia).
  assert (match s with
          | Z0 => Zpos p
          | Zpos _ => Z.shiftl (Zpos p) s
          | Zneg _ => 0
          end = Zpos p * 2 ^ s) as ->.
  { destruct s as [|s'|s'] eqn:Hs'; [lia| |lia]. by rewrite Z.shiftl_mul_pow2. }
  assert (2 ^ 59 ≤ Zpos p * 2 ^ s < 2 ^ 60) as Hm'.
  { replace 59 with ((d1 - 1) + s) by lia. replace 60 with (d1 + s) by lia.
    rewrite !Z.pow_add_r by lia. nia. }
  destruct (Z.div_eucl (Zpos p * 2 ^ s) 100) as [q r] eqn:Hqr.
  pose proof (Z_div_mod (Zpos p * 2 ^ s) 100 ltac:(lia)) as Hdm. rewrite Hqr in Hdm.
  destruct Hdm as [Hdm Hr].
  assert (2 ^ 52 ≤ q < 2 ^ 54) as Hq.
  { change (2 ^ 59) with 576460752303423488 in Hm'.
    change (2 ^ 60) with 1152921504606846976 in Hm'.
    change (2 ^ 52) with 4503599627370496. change (2 ^ 54) with 18014398509481984. lia. }
  assert (0 < q) as Hq0.
  { destruct Hq as [Hq _]. change (2 ^ 52) with 4503599627370496 in Hq. lia. }
  destruct q as [|pq|pq]; [lia| |lia].
  assert (53 ≤ Zpos (digits2_pos pq)) as Hdq by (apply (digits2_pos_ge pq 52); lia).
  assert (Zpos (digits2_pos pq) ≤ 54) as Hdq' by (apply digits2_pos_le; lia).
  destruct (binary_round_aux_bracket false pq (d1 - 60) (new_location 100 r))
    as (m & e & -> & Hm & He & Hb); [done|lia|lia|].
  exists m, e. split; [done|]. split; [done|].
  replace (e - (d1 - 60)) with (e + s) in He, Hb by lia.
  split; [lia|].
  assert (0 < 2 ^ (e + s)) as Hk by (apply Z.pow_pos_nonneg; lia).
  nia.
Qed.

(** The product of such a float with 1000. *)
Lemma times_1000_bracket (m : positive) (e : Z) :
  2 ^ 52 ≤ Zpos m < 2 ^ 53 → -100 ≤ e ≤ 100 →
  ∃ m' e', float_mul (S754_finite false m e) (float_of_Z 1000) = S754_finite false m' e'
           ∧ 52 ≤ e' - (e - 43) ≤ 54
           ∧ (Zpos m' - 1) * 2 ^ (e' - (e - 43))
             ≤ Zpos m * 8796093022208000
             < (Zpos m' + 1) * 2 ^ (e' - (e - 43)).
Proof.
  intros Hm He. rewrite float_of_Z_1000. unfold float_mul, SFmul. cbn [xorb].
  assert (2 ^ 104 ≤ Zpos (m * 8796093022208000) < 2 ^ 106) as HP.
  { rewrite Pos2Z.inj_mul.
    change (2 ^ 52) with 4503599627370496 in Hm.
    change (2 ^ 53) with 9007199254740992 in Hm.
    change (2 ^ 104) with 20282409603651670423947251286016.
    change (2 ^ 106) with 81129638414606681695789005144064. lia. }
  assert (105 ≤ Zpos (digits2_pos (m * 8796093022208000))) as Hd
    by (apply (digits2_pos_ge _ 104); lia).
  assert (Zpos (digits2_pos (m * 8796093022208000)) ≤ 106) as Hd'
    by (apply digits2_pos_le; lia).
  destruct (binary_round_aux_bracket false (m * 8796093022208000) (e + -43) loc_Exact)
    as (m' & e' & -> & _ & He' & Hb); [lia|lia|lia|].
  exists m', e'. split; [done|].
  replace (e' - (e + -43)) with (e' - (e - 43)) in He', Hb by lia.
  split; [lia|]. by rewrite Pos2Z.inj_mul in Hb.
Qed.

(** The milliunits of a number of hundredths: ten times the number, or
    one less. *)
Lemma milliunits_of_hundredths (N : Z) :
  0 ≤ N < 2 ^ 40 →
  ∃ a, int (float_mul (float_of_decimal false N (-2)) (float_of_Z 1000)) = inr a
       ∧ (a = 10 * N ∨ a = 10 * N - 1).
Proof.
  intros HN. destruct N as [|p|p]; [exists 0; split; [by vm_compute|by left]| |lia].
  destruct (float_of_hundredths_bracket p) as (m & e & -> & Hm & He & HA); [lia|].
  pose proof (digits2_pos_bounds p) as [Hlo _].
  assert (1 ≤ Zpos (digits2_pos p)) as Hd1 by lia.
  assert (Zpos (digits2_pos p) ≤ 40) as Hd40 by (apply digits2_pos_le; lia).
  set (s := 60 - Zpos (digits2_pos p)) in *.
  assert (∃ k1, e = k1 - s ∧ 0 ≤ k1 ≤ 2) as (k1 & -> & Hk1) by (exists (e + s); lia).
  replace (k1 - s + s) with k1 in HA by lia. clear He.
  destruct (times_1000_bracket m (k1 - s) Hm) as (m' & e' & -> & He' & HB); [lia|].
  assert (∃ k2, e' = k2 + (k1 - s - 43) ∧ 52 ≤ k2 ≤ 54) as (k2 & -> & Hk2)
    by (exists (e' - (k1 - s - 43)); lia).
  replace (k2 + (k1 - s - 43) - (k1 - s - 43)) with k2 in HB by lia. clear He'.
  set (t := s + 43 - k1 - k2).
  assert (7 ≤ t) as Ht by lia.
  replace (k2 + (k1 - s - 43)) with (- t) by lia.
  assert (128 ≤ 2 ^ t) as HT.
  { change 128 with (2 ^ 7). apply Z.pow_le_mono_r; lia. }
  assert (2 ^ s = 2 ^ t * 2 ^ k1 * 2 ^ (k2 - 43)) as HS.
  { rewrite <- !Z.pow_add_r by lia. f_equal. lia. }
  assert (2 ^ k2 = 2 ^ (k2 - 43) * 2 ^ 43) as HK2.
  { rewrite <- Z.pow_add_r by lia. f_equal. lia. }
  rewrite HS in HA. rewrite HK2 in HB.
  set (T := 2 ^ t) in *. set (X := Zpos p * T).
  replace (Zpos p * (T * 2 ^ k1 * 2 ^ (k2 - 43)))
    with (X * (2 ^ k1 * 2 ^ (k2 - 43))) in HA by (unfold X; ring).
  change (2 ^ 43) with 8796093022208 in HB.
  assert (T * (10 * Zpos p - 1) ≤ Zpos m' < T * (10 * Zpos p + 1)) as Hbounds.
  { replace (T * (10 * Zpos p - 1)) with (10 * X - T) by (unfold X; ring).
    replace (T * (10 * Zpos p + 1)) with (10 * X + T) by (unfold X; ring).
    clearbody X T. clear HS HK2.
    assert (k1 = 0 ∨ k1 = 1 ∨ k1 = 2) as [->|[->| ->]] by lia;
      assert (k2 = 52 ∨ k2 = 53 ∨ k2 = 54) as [->|[->| ->]] by lia;
      simpl in HA, HB; lia. }
  assert (int (S754_finite false m' (- t)) = inr (Zpos m' / T)) as ->.
  { unfold int. cbn [cond_Zopp]. destruct t as [|pt|pt] eqn:Hpt; [lia| |lia]. done. }
  eexists. split; [done|].
  assert (10 * Zpos p - 1 ≤ Zpos m' / T) by (apply Z.div_le_lower_bound; lia).
  assert (Zpos m' / T < 10 * Zpos p + 1) by (apply Z.div_lt_upper_bound; lia).
  lia.
Qed.

Lemma read_digits_all (ds rest : string) (acc n : Z) :
  all_digits ds = true →
  read_digits (ds +:+ rest) acc n
  = read_digits rest (read_digits ds acc n).1.1 (read_digits ds acc n).1.2.
Proof.
  revert acc n. induction ds as [|c ds IH]; intros acc n Hds; [done|].
  cbn [all_digits] in Hds. apply andb_true_iff in Hds as [Hc Hds].
  destruct (digit_facts c Hc) as ((v & Hv & _) & _).
  rewrite append_cons_l. cbn [read_digits]. rewrite Hv. by apply IH.
Qed.

Lemma read_digits_nonneg (s : string) (acc n : Z) :
  0 ≤ acc → 0 ≤ n → 0 ≤ (read_digits s acc n).1.1 ∧ 0 ≤ (read_digits s acc n).1.2.
Proof.
  revert acc n. induction s as [|c s IH]; intros acc n Hacc Hn; [done|].
  cbn [read_digits]. destruct (digit_value c) as [v|] eqn:Hv; [|done].
  apply IH; [|lia]. unfold digit_value in Hv.
  destruct (_ && _) eqn:Hc; [|done]. injection Hv as <-.
  apply andb_true_iff in Hc as [Hc _]. apply Z.leb_le in Hc. lia.
Qed.

Lemma float_of_decimal_opp (m e10 : Z) :
  e10 < 0 → float_of_decimal true m e10 = SFopp (float_of_decimal false m e10).
Proof.
  intros He. unfold float_of_decimal. destruct m as [|p|p]; [done| |done].
  replace (0 <=? e10) with false by (symmetry; apply Z.leb_gt; lia).
  unfold SFdiv. destruct (SFdiv_core_binary _ _ _ _) as [[mz ez] lz].
  apply (binary_round_aux_negb false).
Qed.

(** [float] reads a sign, digits, a full stop and two digits as that many
    hundredths. *)
Lemma float_hundredths (neg : bool) (ds : string) (d1 d2 : ascii) :
  all_digits ds = true → is_digit d1 = true → is_digit d2 = true →
  float ((if neg then "-" else "") +:+ ds +:+ String "." (String d1 (String d2 "")))
  = inr (float_of_decimal neg (hundredths ds d1 d2) (-2)).
Proof.
  intros Hds H1 H2.
  destruct (digit_facts d1 H1) as ((v1 & Hv1 & Hv10) & _).
  destruct (digit_facts d2 H2) as ((v2 & Hv2 & Hv20) & _).
  set (body := ds +:+ String "." (String d1 (String d2 ""))).
  assert (skip_spaces body = body ∧ read_sign body = (false, body)) as [Hskip Hsign].
  { unfold body. destruct ds as [|c ds].
    - rewrite append_nil_l. split; reflexivity.
    - cbn [all_digits] in Hds. apply andb_true_iff in Hds as [Hc _].
      destruct (digit_facts c Hc) as (_ & Hsp & Hsg & _).
      rewrite append_cons_l. split; [|apply Hsg].
      cbn [skip_spaces]. by rewrite Hsp. }
  assert (read_sign (skip_spaces ((if neg then "-" else "") +:+ body)) = (neg, body)) as Hs.
  { destruct neg; [reflexivity|]. by rewrite append_nil_l, Hskip. }
  unfold float. rewrite Hs.
  unfold body. rewrite (read_digits_all ds _ 0 0 Hds).
  unfold hundredths. rewrite (read_digits_all ds _ 0 0 Hds).
  destruct (read_digits_nonneg ds 0 0) as [Hi Hni]; [lia..|].
  set (i := (read_digits ds 0 0).1.1) in *. set (ni := (read_digits ds 0 0).1.2) in *.
  cbn [read_digits]. change (digit_value "."%char) with (@None Z).
  rewrite Hv1, Hv2. cbn [read_digits fst snd]. rewrite Hv1, Hv2. cbn [fst snd].
  replace (ni + (0 + 1 + 1) =? 0) with false by (symmetry; apply Z.eqb_neq; lia).
  cbn [read_exponent skip_spaces]. rewrite bool_decide_eq_true_2 by done.
  reflexivity.
Qed.

(** The milliunits of a text with two decimals: ten times its hundredths,
    less a cut of at most one milliunit, with the sign of the text. *)
Lemma two_decimals_milliunits (neg : bool) (ds : string) (d1 d2 : ascii) :
  all_digits ds = true → is_digit d1 = true → is_digit d2 = true →
  hundredths ds d1 d2 < 10 ^ 12 →
  ∃ c, milliunits (two_decimals neg ds d1 d2)
       = inr (signed neg (10 * hundredths ds d1 d2 - c))
       ∧ 0 ≤ c ≤ 1 ∧ 0 ≤ hundredths ds d1 d2.
Proof.
  intros Hds H1 H2 HN. unfold milliunits, two_decimals, signed.
  rewrite (float_hundredths neg ds d1 d2 Hds H1 H2). cbn [bind_exc].
  assert (0 ≤ hundredths ds d1 d2) as HN0.
  { unfold hundredths. apply read_digits_nonneg; lia. }
  destruct (milliunits_of_hundredths (hundredths ds d1 d2)) as (a & Ha & Hcases).
  { split; [done|]. eapply Z.lt_trans; [exact HN|]. by vm_compute. }
  exists (10 * hundredths ds d1 d2 - a).
  replace (10 * hundredths ds d1 d2 - (10 * hundredths ds d1 d2 - a)) with a by lia.
  split; [|lia]. destruct neg; [|done].
  rewrite float_of_decimal_opp by lia. rewrite float_mul_opp. by apply int_opp.
Qed.

(** X25. The conversion [int(float(s) * 1000)] of an amount with two
    decimals, below ten thousand million: the result is the amount in
    milliunits or, since the product of two rounded floats is cut toward
    zero, one milliunit less in magnitude; a minus sign in front gives the
    opposite number. *)
Theorem milliunits_two_decimals (neg : bool) (ds : string) (d1 d2 : ascii) :
  all_digits ds = true → is_digit d1 = true → is_digit d2 = true →
  hundredths ds d1 d2 < 10 ^ 12 →
  ∃ a, milliunits ((if neg then "-" else "") +:+ ds +:+
                   String "." (String d1 (String d2 "")))
       = inr (if neg then - a else a)
       ∧ (a = 10 * hundredths ds d1 d2 ∨ a = 10 * hundredths ds d1 d2 - 1).
Proof.
  intros Hds H1 H2 HN.
  destruct (two_decimals_milliunits neg ds d1 d2 Hds H1 H2 HN) as (c & Hm & Hc & _).
  exists (10 * hundredths ds d1 d2 - c). split; [exact Hm|]. lia.
Qed.

Lemma milliunits_two_decimals_witness :
  hundredths "2" "0" "1" = 201
  ∧ ∃ a, milliunits "2.01" = inr a ∧ (a = 2010 ∨ a = 2009).
Proof.
  split; [reflexivity|].
  exact (milliunits_two_decimals false "2" "0" "1" eq_refl eq_refl eq_refl
           ltac:(by vm_compute)).
Defined.

(** X26. The amount of a Revolut transaction against the values of its
    fields.  When Amount and Fee are texts with two decimals, below ten
    thousand million, the amount is the milliunits of Amount minus the
    milliunits of Fee, where each conversion may cut one milliunit off the
    magnitude: the result is within two milliunits of the minor units of
    amount minus fee, and need not be equal to them. *)
Theorem revolut_amount_of_two_decimals
    (account_id : string) (row : RevolutCsv.row) (t : NewTransaction)
    (na nf : bool) (da df : string) (a1 a2 f1 f2 : ascii) :
  revolut_transaction account_id row = inr (Some t) →
  RevolutCsv.Amount row = two_decimals na da a1 a2 →
  RevolutCsv.Fee row = two_decimals nf df f1 f2 →
  all_digits da = true → is_digit a1 = true → is_digit a2 = true →
  all_digits df = true → is_digit f1 = true → is_digit f2 = true →
  hundredths da a1 a2 < 10 ^ 12 → hundredths df f1 f2 < 10 ^ 12 →
  (∃ ca cf, 0 ≤ ca ≤ 1 ∧ 0 ≤ cf ≤ 1
            ∧ amount t = signed na (10 * hundredths da a1 a2 - ca)
                         - signed nf (10 * hundredths df f1 f2 - cf))
  ∧ Z.abs (amount t - 10 * (signed na (hundredths da a1 a2)
                            - signed nf (hundredths df f1 f2))) ≤ 2.
Proof.
  intros Ht HA HF Hda Ha1 Ha2 Hdf Hf1 Hf2 HNa HNf.
  destruct (two_decimals_milliunits na da a1 a2 Hda Ha1 Ha2 HNa) as (ca & Hma & Hca & _).
  destruct (two_decimals_milliunits nf df f1 f2 Hdf Hf1 Hf2 HNf) as (cf & Hmf & Hcf & _).
  assert (amount t = signed na (10 * hundredths da a1 a2 - ca)
                     - signed nf (10 * hundredths df f1 f2 - cf)) as Hamt.
  { unfold revolut_transaction in Ht.
    destruct (negb _); [done|]. destruct (_ && _); [done|].
    exc_step Ht as started Hs. exc_step Ht as payee Hp.
    rewrite HA, Hma, HF, Hmf in Ht. cbn [bind_exc] in Ht. by injection Ht as <-. }
  split; [by exists ca, cf|]. rewrite Hamt. unfold signed. destruct na, nf; lia.
Qed.

Lemma revolut_amount_of_two_decimals_witness :
  revolut_transaction "some_account_id" cent_fee_row = inr (Some cent_fee_transaction)
  ∧ Z.abs (amount cent_fee_transaction
           - 10 * (signed true (hundredths "50" "0" "0")
                   - signed false (hundredths "2" "0" "1"))) ≤ 2.
Proof.
  assert (revolut_transaction "some_account_id" cent_fee_row
          = inr (Some cent_fee_transaction)) as H by (vm_compute; reflexivity).
  split; [exact H|].
  exact (proj2 (revolut_amount_of_two_decimals "some_account_id" cent_fee_row
                  cent_fee_transaction true false "50" "2" "0" "0" "0" "1"
                  H eq_refl eq_refl eq_refl eq_refl eq_refl eq_refl eq_refl eq_refl
                  ltac:(by vm_compute) ltac:(by vm_compute))).
Defined.
